(** * RACV quote automation: session store, quote flow and text extraction

    A shallow embedding of
      - [src/automation/session-manager.ts]  (the session store and its reaper),
      - [src/automation/quote-flow.ts]       (polling, the continue action,
                                              the text-extraction stage),
      - the two tool-handler files of the server (the four MCP tools),
    followed by the properties stated about them.

    Conventions.
      - A JavaScript string is the list of its UTF-16 code units ([N]).
      - Every call into Playwright, the timer or the id generator is answered
        by an [Oracle]: a family of functions indexed by the number of
        external calls made so far.  Any behaviour of the outside world is
        some oracle, and the program is a function of it.
      - Code that awaits runs here to completion without interleaving: the
        statements are about one operation at a time. *)

From Stdlib Require Import List NArith ZArith Bool String Ascii Lia PeanoNat.
From Stdlib Require Import DecimalString.
Import ListNotations.

Set Implicit Arguments.
Local Open Scope Z_scope.

(* ================================================================== *)
(** ** JavaScript strings *)

Module JS.

Definition char := N.
Definition jsstring := list char.

(** An ASCII literal as a JavaScript string. *)
Definition lit (s : string) : jsstring :=
  List.map N_of_ascii (list_ascii_of_string s).

Fixpoint eqb (a b : jsstring) : bool :=
  match a, b with
  | [], [] => true
  | x :: a', y :: b' => N.eqb x y && eqb a' b'
  | _, _ => false
  end.

(** [s.startsWith(p)] *)
Fixpoint startsWith (s p : jsstring) {struct p} : bool :=
  match p, s with
  | [], _ => true
  | x :: p', y :: s' => N.eqb x y && startsWith s' p'
  | _ :: _, [] => false
  end.

(** [s.indexOf(p)]: the least index at which [p] occurs, [-1] if none. *)
Fixpoint indexOf_from (s p : jsstring) (i : Z) : Z :=
  if startsWith s p then i
  else match s with
       | [] => -1
       | _ :: s' => indexOf_from s' p (i + 1)
       end.

Definition indexOf (s p : jsstring) : Z := indexOf_from s p 0.

(** [s.includes(p)] *)
Definition includes (s p : jsstring) : bool := negb (indexOf s p =? -1).

(** [s.substring(a, b)]: both ends clamped to [0, length], swapped when
    out of order. *)
Definition clamp (len x : Z) : Z := Z.max 0 (Z.min x len).

Definition substring (s : jsstring) (a b : Z) : jsstring :=
  let len := Z.of_nat (List.length s) in
  let a' := clamp len a in
  let b' := clamp len b in
  let lo := Z.min a' b' in
  let hi := Z.max a' b' in
  firstn (Z.to_nat (hi - lo)) (skipn (Z.to_nat lo) s).

(** A truthy string is a non-empty one; [undefined] is [None]. *)
Definition truthy (o : option jsstring) : bool :=
  match o with
  | Some (_ :: _) => true
  | _ => false
  end.

(** The string held by an option, the empty string when there is none. *)
Definition the_text (o : option jsstring) : jsstring :=
  match o with
  | Some s => s
  | None => []
  end.

(** [n.toString()] for a natural number. *)
Definition dec (n : nat) : jsstring := lit (NilZero.string_of_uint (Nat.to_uint n)).

End JS.

Import JS.

(* ================================================================== *)
(** ** Regular expressions

    The four patterns of [extractProductsFromText] are sequences of single
    character classes under a greedy quantifier, with one capture group.
    [matchAtoms] is the backtracking matcher of the language for this
    fragment: a quantifier takes as many characters as it can and gives
    them back one at a time when what follows fails. *)

Module Regex.

Inductive quant := One | Opt | Star | Plus.

Record atom := Atom { cls : char -> bool; rep : quant }.

(** [pre (grp) post] *)
Record regex := Re { pre : list atom; grp : list atom; post : list atom }.

Definition only (c : char) : char -> bool := N.eqb c.

(** [\d] *)
Definition digit (c : char) : bool := (N.leb 48 c && N.leb c 57)%N.

(** [[\d,]] *)
Definition digit_or_comma (c : char) : bool := digit c || N.eqb c 44%N.

(** [\s]: white space and line terminators. *)
Definition space (c : char) : bool :=
  ((N.leb 9 c && N.leb c 13) || N.eqb c 32 || N.eqb c 160 || N.eqb c 5760
   || (N.leb 8192 c && N.leb c 8202) || N.eqb c 8232 || N.eqb c 8233
   || N.eqb c 8239 || N.eqb c 8287 || N.eqb c 12288 || N.eqb c 65279)%N.

(** A literal piece of a pattern. *)
Definition chars (s : string) : list atom :=
  List.map (fun c => Atom (only c) One) (lit s).

Section Matcher.
Variable A : Type.

(** Greedy repetition: the continuation receives the characters taken
    and the rest. *)
Fixpoint star (p : char -> bool) (s : jsstring)
         (k : jsstring -> jsstring -> option A) : option A :=
  match s with
  | c :: s' =>
      if p c then
        match star p s' (fun m r => k (c :: m) r) with
        | Some x => Some x
        | None => k [] s
        end
      else k [] s
  | [] => k [] []
  end.

Fixpoint matchAtoms (r : list atom) (s : jsstring)
         (k : jsstring -> jsstring -> option A) : option A :=
  match r with
  | [] => k [] s
  | a :: r' =>
      let next m0 s0 := matchAtoms r' s0 (fun m r => k (m0 ++ m) r) in
      match rep a with
      | One =>
          match s with
          | c :: s' => if cls a c then next [c] s' else None
          | [] => None
          end
      | Opt =>
          match s with
          | c :: s' =>
              if cls a c then
                match next [c] s' with
                | Some x => Some x
                | None => next [] s
                end
              else next [] s
          | [] => next [] s
          end
      | Star => star (cls a) s next
      | Plus =>
          match s with
          | c :: s' =>
              if cls a c then star (cls a) s' (fun m r => next (c :: m) r)
              else None
          | [] => None
          end
      end
  end.
End Matcher.

(** A match starting at the head of [s]: the text of the capture group. *)
Definition matchHere (re : regex) (s : jsstring) : option jsstring :=
  matchAtoms (pre re) s (fun _ s1 =>
  matchAtoms (grp re) s1 (fun g s2 =>
  matchAtoms (post re) s2 (fun _ _ => Some g))).

(** [s.match(re)] without the global flag: the leftmost match; the result
    is group 1. *)
Fixpoint exec (re : regex) (s : jsstring) : option jsstring :=
  match matchHere re s with
  | Some g => Some g
  | None =>
      match s with
      | [] => None
      | _ :: s' => exec re s'
      end
  end.

(** The capture group shared by the four patterns: one or more of digit
    or comma, an optional dot, any number of digits. *)
Definition amount : list atom :=
  [Atom digit_or_comma Plus; Atom (only 46%N) Opt; Atom digit Star].

(** Dollar sign, the amount, any white space, then /Yearly. *)
Definition yearlyRe : regex :=
  Re (chars "$") amount (Atom space Star :: chars "/Yearly").

(** Dollar sign, the amount, any white space, then /Monthly. *)
Definition monthlyRe : regex :=
  Re (chars "$") amount (Atom space Star :: chars "/Monthly").

(** Opening parenthesis, dollar sign, the amount, any white space, then
    the words over 12 months and the closing parenthesis. *)
Definition totalRe : regex :=
  Re (chars "($") amount (Atom space Star :: chars "over 12 months)").

(** The word Save, one space, dollar sign, the amount. *)
Definition savingRe : regex :=
  Re (chars "Save $") amount [].

End Regex.

Import Regex.

(* ================================================================== *)
(** ** types.ts *)

Definition handle := nat.

Inductive QuoteState :=
| initialized
| car_found
| car_details_filled
| driver_details_filled
| quote_ready
| error.

Record QuoteSession := {
  id : jsstring;
  browser : handle;
  context : handle;
  page : handle;
  state : QuoteState;
  createdAt : Z;
  lastActivity : Z
}.

Record CarDetailsInput := {
  address : jsstring;
  underFinance : bool;
  purpose : jsstring;
  businessRegistered : bool;
  coverStartDate : jsstring;
  email : option jsstring
}.

Inductive Gender := male | female.

Record DriverDetailsInput := {
  racvMember : bool;
  gender : Gender;
  age : Z;
  licenceAge : Z;
  accidentsLast5Years : bool
}.

Record ProductQuote := {
  name : jsstring;
  yearlyPrice : jsstring;
  monthlyPrice : jsstring;
  totalOver12Months : jsstring;
  yearlySaving : option jsstring;
  features : list jsstring
}.

Record QuoteResult := {
  car_description : jsstring;
  driver_age : Z;
  driver_gender : jsstring;
  driver_additionalDrivers : Z;
  comprehensive : list ProductQuote;
  thirdParty : list ProductQuote
}.

(* ================================================================== *)
(** ** Programs with effects

    A program transforms a state and ends in a value, in a thrown error,
    or does not end within its fuel ([Spin]). *)

Module Eff.

Inductive Result (A : Type) :=
| Ok (a : A)
| Throw (message : option jsstring)
| Spin.

Arguments Ok {A} a.
Arguments Throw {A} message.
Arguments Spin {A}.

Definition Prog (S A : Type) : Type := S -> Result A * S.

Definition ret {S A} (a : A) : Prog S A := fun s => (Ok a, s).

Definition bind {S A B} (m : Prog S A) (k : A -> Prog S B) : Prog S B :=
  fun s =>
    match m s with
    | (Ok a, s') => k a s'
    | (Throw e, s') => (Throw e, s')
    | (Spin, s') => (Spin, s')
    end.

Definition throw {S A} (message : jsstring) : Prog S A :=
  fun s => (Throw (Some message), s).

(** [try { m } catch (err) { h err }] *)
Definition try_catch {S A} (m : Prog S A) (h : option jsstring -> Prog S A)
  : Prog S A :=
  fun s =>
    match m s with
    | (Throw e, s') => h e s'
    | r => r
    end.

(** [let x; try { x = m; body x } catch (err) { h x err }]: the handler
    sees [x] only when [m] had returned. *)
Definition try_from {S A B} (m : Prog S A) (body : A -> Prog S B)
           (h : option A -> option jsstring -> Prog S B) : Prog S B :=
  fun s =>
    match m s with
    | (Ok a, s') => try_catch (body a) (h (Some a)) s'
    | (Throw e, s') => h None e s'
    | (Spin, s') => (Spin, s')
    end.

(** [m.catch(() => {})] *)
Definition swallow {S} (m : Prog S unit) : Prog S unit :=
  try_catch m (fun _ => ret tt).

Definition gets {S A} (f : S -> A) : Prog S A := fun s => (Ok (f s), s).

Definition modify {S} (f : S -> S) : Prog S unit := fun s => (Ok tt, f s).

(** [for (const x of l) { body x }] *)
Fixpoint forEach {S A} (l : list A) (body : A -> Prog S unit) : Prog S unit :=
  match l with
  | [] => ret tt
  | x :: l' => bind (body x) (fun _ => forEach l' body)
  end.

(** [err.message] inside a template string. *)
Definition shown (message : option jsstring) : jsstring :=
  match message with
  | Some m => m
  | None => lit "undefined"
  end.

End Eff.

Import Eff.

Declare Scope prog_scope.
Delimit Scope prog_scope with prog.
Notation "x <- m ;; k" := (bind m (fun x => k))
  (at level 61, m at next level, right associativity) : prog_scope.
Notation "m ;; k" := (bind m (fun _ => k))
  (at level 61, right associativity) : prog_scope.
Local Open Scope prog_scope.

(* ================================================================== *)
(** ** The outside world: browser, clock, timers, id generator *)

Module World.

(** What is asked of a page. *)
Inductive Action :=
| Goto (url : string)
| WaitFor (selector : string)
| Fill (selector : string) (value : jsstring)
| PressSequentially (selector : string) (value : jsstring)
| Click (selector : string) (force : bool)
| SelectOption (selector : string) (value : jsstring)
| DispatchChange (selector : string)
| Count (selector : string)
| IsVisible (selector : string)
| InputValue (selector : string)
| KeyboardType (value : jsstring)
| KeyboardPress (key : string)
| InnerText.

Inductive Event :=
| EvLaunch (browser : handle)
| EvNewContext (browser context : handle)
| EvInitScript (context : handle)
| EvNewPage (context page : handle)
| EvContextClose (context : handle)
| EvBrowserClose (browser : handle)
| EvPage (page : handle) (a : Action)
| EvDelay (ms : Z)
| EvLog (msg : jsstring).

(** The answers of the outside world, by the number of the call. *)
Record Oracle := {
  rejects : nat -> option (option jsstring);
  took : nat -> N;
  innerText : nat -> jsstring;
  counted : nat -> nat;
  visible : nat -> bool;
  inputValue : nat -> jsstring;
  random : nat -> Z;
  uuid : nat -> jsstring
}.

(** [tick]: external calls made so far; [clock]: what [Date.now()] reads;
    [trace]: what has been asked of the outside world, oldest first. *)
Record Ext := {
  tick : nat;
  clock : Z;
  trace : list Event
}.

Definition Flow (A : Type) : Type := Prog Ext A.

Section Primitives.
Variable O : Oracle.

(** An awaited call: it is recorded, takes some time, and is rejected or
    answered.  The number of the call is returned to read the answer. *)
Definition extern (ev : nat -> Event) : Flow nat :=
  fun x =>
    let n := tick x in
    let x' := {| tick := S n;
                 clock := clock x + Z.of_N (took O n);
                 trace := trace x ++ [ev n] |} in
    match rejects O n with
    | Some e => (Throw e, x')
    | None => (Ok n, x')
    end.

Definition act (p : handle) (a : Action) : Flow nat := extern (fun _ => EvPage p a).

(** [Date.now()] *)
Definition Date_now : Flow Z := gets clock.

(** [console.log] *)
Definition console_log (msg : jsstring) : Flow unit :=
  modify (fun x => {| tick := tick x; clock := clock x; trace := trace x ++ [EvLog msg] |}).

(** [uuid()] *)
Definition uuid_v4 : Flow jsstring :=
  fun x => (Ok (uuid O (tick x)),
            {| tick := S (tick x); clock := clock x; trace := trace x |}).

(* ---------------------------------------------------------------- *)
(** *** browser.ts *)

(** [launchBrowser]: the handles are the numbers of the calls that made
    them, so no two are equal. *)
Definition launchBrowser : Flow (handle * handle * handle) :=
  b <- extern EvLaunch ;;
  c <- extern (EvNewContext b) ;;
  _ <- extern (fun _ => EvInitScript c) ;;
  p <- extern (EvNewPage c) ;;
  ret (b, c, p).

(** [humanDelay(minMs, maxMs)]: [Math.floor(Math.random() * (maxMs - minMs))
    + minMs], then a timer of that length, which fires no earlier.  Every
    call site has [minMs < maxMs]. *)
Definition humanDelay (minMs maxMs : Z) : Flow unit :=
  fun x =>
    let n := tick x in
    let range := maxMs - minMs in
    let delay := (if range <=? 0 then 0 else random O n mod range) + minMs in
    (Ok tt, {| tick := S n;
               clock := clock x + delay + Z.of_N (took O n);
               trace := trace x ++ [EvDelay delay] |}).

End Primitives.

End World.

Import World.

(* ================================================================== *)
(** ** session-manager.ts *)

Module SessionManager.

(** [Map<string, QuoteSession>]: the entries in insertion order, one per
    key.  The order is the one in which the reaper visits them. *)
Definition Store := list (jsstring * QuoteSession).

Fixpoint Map_get (m : Store) (k : jsstring) : option QuoteSession :=
  match m with
  | [] => None
  | (k', v) :: m' => if JS.eqb k' k then Some v else Map_get m' k
  end.

(** [m.set(k, v)]: a present key keeps its place, a new one goes last. *)
Fixpoint Map_set (m : Store) (k : jsstring) (v : QuoteSession) : Store :=
  match m with
  | [] => [(k, v)]
  | (k', v') :: m' =>
      if JS.eqb k' k then (k', v) :: m' else (k', v') :: Map_set m' k v
  end.

Fixpoint Map_delete (m : Store) (k : jsstring) : Store :=
  match m with
  | [] => []
  | (k', v') :: m' =>
      if JS.eqb k' k then Map_delete m' k else (k', v') :: Map_delete m' k
  end.

(** An assignment to a field of the session object held under [k]. *)
Fixpoint Map_alter (f : QuoteSession -> QuoteSession) (m : Store) (k : jsstring)
  : Store :=
  match m with
  | [] => []
  | (k', v') :: m' =>
      if JS.eqb k' k then (k', f v') :: m' else (k', v') :: Map_alter f m' k
  end.

(** The module state [sessions] and the world outside. *)
Record Server := {
  sessions : Store;
  ext : Ext
}.

Definition M (A : Type) : Type := Prog Server A.

(** A program of the outside world run inside the server. *)
Definition lift {A} (m : Flow A) : M A :=
  fun w =>
    let (r, x) := m (ext w) in
    (r, {| sessions := sessions w; ext := x |}).

Definition onSessions (f : Store -> Store) : M unit :=
  modify (fun w => {| sessions := f (sessions w); ext := ext w |}).

Definition SESSION_TIMEOUT_MS : Z := 10 * 60 * 1000.

Definition set_lastActivity (t : Z) (s : QuoteSession) : QuoteSession :=
  {| id := id s; browser := browser s; context := context s; page := page s;
     state := state s; createdAt := createdAt s; lastActivity := t |}.

Definition set_state (st : QuoteState) (s : QuoteSession) : QuoteSession :=
  {| id := id s; browser := browser s; context := context s; page := page s;
     state := st; createdAt := createdAt s; lastActivity := lastActivity s |}.

Section Operations.
Variable O : Oracle.

Definition createSession : M QuoteSession :=
  h <- lift (launchBrowser O) ;;
  let '(b, c, p) := h in
  i <- lift (uuid_v4 O) ;;
  t <- lift Date_now ;;
  let session := {| id := i; browser := b; context := c; page := p;
                    state := initialized; createdAt := t; lastActivity := t |} in
  onSessions (fun m => Map_set m (id session) session) ;;
  ret session.

Definition getSession (sessionId : jsstring) : M (option QuoteSession) :=
  session <- gets (fun w => Map_get (sessions w) sessionId) ;;
  match session with
  | Some s =>
      t <- lift Date_now ;;
      onSessions (fun m => Map_alter (set_lastActivity t) m sessionId) ;;
      ret (Some (set_lastActivity t s))
  | None => ret None
  end.

Definition updateSessionState (sessionId : jsstring) (st : QuoteState) : M unit :=
  session <- gets (fun w => Map_get (sessions w) sessionId) ;;
  match session with
  | Some s =>
      t <- lift Date_now ;;
      onSessions (fun m =>
        Map_alter (fun s => set_lastActivity t (set_state st s)) m sessionId)
  | None => ret tt
  end.

Definition destroySession (sessionId : jsstring) : M unit :=
  session <- gets (fun w => Map_get (sessions w) sessionId) ;;
  match session with
  | Some s =>
      try_catch
        (lift (extern O (fun _ => EvContextClose (context s))) ;;
         lift (extern O (fun _ => EvBrowserClose (browser s))) ;;
         ret tt)
        (fun _ => ret tt) ;;
      onSessions (fun m => Map_delete m sessionId)
  | None => ret tt
  end.

Definition getActiveSessions : M nat :=
  gets (fun w => List.length (sessions w)).

(** The body of the loop of the reaper, for the [now] read when the sweep
    began. *)
Definition reaperTurn (now : Z) (entry : jsstring * QuoteSession) : M unit :=
  session <- gets (fun w => Map_get (sessions w) (fst entry)) ;;
  match session with
  | Some s =>
      if now - lastActivity s >? SESSION_TIMEOUT_MS then
        lift (console_log (lit "Cleaning up expired session: " ++ fst entry)) ;;
        destroySession (fst entry)
      else ret tt
  | None => ret tt
  end.

(** The callback of [setInterval(..., 60_000)].  The loop visits the
    entries in insertion order and reads each session as it is when
    visited; an entry removed before its turn is not visited. *)
Definition reaper : M unit :=
  now <- lift Date_now ;;
  entries <- gets sessions ;;
  forEach entries (reaperTurn now).

End Operations.




End SessionManager.

Import SessionManager.

(* ================================================================== *)
(** ** quote-flow.ts *)

Module QuoteFlow.

(** *** The text-extraction stage *)

Definition dollar (g : jsstring) : jsstring := lit "$" ++ g.

Definition orNA (m : option jsstring) : jsstring :=
  match m with
  | Some g => dollar g
  | None => lit "N/A"
  end.

(** One turn of the loop over [productNames]; [products] is the array
    built so far. *)
Definition extractProduct (text : jsstring) (products : list ProductQuote)
           (name : jsstring) : list ProductQuote :=
  let idx := indexOf text name in
  if idx =? -1 then products
  else
    let chunk := substring text idx (idx + 500) in
    let yearly := exec yearlyRe chunk in
    let monthly := exec monthlyRe chunk in
    let total := exec totalRe chunk in
    let saving := exec savingRe chunk in
    match yearly with
    | Some y =>
        products ++
          [ {| name := name;
               yearlyPrice := dollar y;
               monthlyPrice := orNA monthly;
               totalOver12Months := orNA total;
               yearlySaving := option_map dollar saving;
               features := [] |} ]
    | None => products
    end.

Definition extractProductsFromText (text : jsstring) (productNames : list jsstring)
  : list ProductQuote :=
  fold_left (extractProduct text) productNames [].

(** The same function as a step of a program over any state [S]: this is
    how [extractQuoteResults] runs it. *)
Definition extractProductsFromText_prog {S} (text : jsstring)
           (productNames : list jsstring) : Prog S (list ProductQuote) :=
  products <- ret [] ;;
  (fix loop (names : list jsstring) (products : list ProductQuote)
     : Prog S (list ProductQuote) :=
     match names with
     | [] => ret products
     | name :: rest =>
         products' <- ret (extractProduct text products name) ;;
         loop rest products'
     end) productNames products.

Section Steps.
Variable O : Oracle.

(** *** Helpers *)

Definition CONTINUE : string := "button:has-text('Continue')".

(** The loop of [waitForText].  Each turn that does not return waits at
    least two seconds, so [pollFuel timeoutMs] turns are never used up
    (see [waitForText_ends]). *)
Fixpoint waitLoop (fuel : nat) (page : handle) (text : jsstring) (timeoutMs start : Z)
  : Flow bool :=
  match fuel with
  | 0%nat => fun x => (Spin, x)
  | S fuel' =>
      t <- Date_now ;;
      if t - start <? timeoutMs then
        n <- act O page InnerText ;;
        let body := innerText O n in
        if includes body text then ret true
        else
          humanDelay O 2000 2500 ;;
          waitLoop fuel' page text timeoutMs start
      else ret false
  end.

Definition pollFuel (timeoutMs : Z) : nat := Z.to_nat (timeoutMs / 2000) + 2.

Definition waitForText (page : handle) (text : jsstring) (timeoutMs : Z) : Flow bool :=
  start <- Date_now ;;
  waitLoop (pollFuel timeoutMs) page text timeoutMs start.

Definition notAdvanced (targetText : jsstring) (maxRetries : nat) : jsstring :=
  lit "Page did not advance to " ++ [34%N] ++ targetText ++ [34%N]
  ++ lit " after " ++ dec maxRetries ++ lit " attempts".

(** The loop of [clickContinueAndWait]: [left] turns remain, this one is
    number [attempt]. *)
Fixpoint continueLoop (left attempt : nat) (page : handle) (targetText : jsstring)
         (maxRetries : nat) : Flow unit :=
  match left with
  | 0%nat => throw (notAdvanced targetText maxRetries)
  | S left' =>
      act O page (Click CONTINUE true) ;;
      found <- waitForText page targetText 45000 ;;
      if found then ret tt
      else
        console_log (lit "  Continue attempt " ++ dec attempt ++ lit "/"
                     ++ dec maxRetries ++ [32%N; 8212%N; 32%N]
                     ++ lit "page didn't advance") ;;
        continueLoop left' (S attempt) page targetText maxRetries
  end.

Definition clickContinueAndWait (page : handle) (targetText : jsstring)
           (maxRetries : nat) : Flow unit :=
  continueLoop maxRetries 1 page targetText maxRetries.

(** *** Step 2: fill car details *)

Definition ADDRESS : string := "input[name='addressSearch']".

Definition yesNo (b : bool) : string := if b then "Yes" else "No".

Definition radio (field value : string) : string :=
  ("label:has(input[name='" ++ field ++ "'][value='" ++ value ++ "'])")%string.

(** The address loop: [true] when a suggestion was taken. *)
Fixpoint addressLoop (left : nat) (page : handle) (input : CarDetailsInput)
  : Flow bool :=
  match left with
  | 0%nat => ret false
  | S left' =>
      act O page (Click ADDRESS false) ;;
      humanDelay O 300 500 ;;
      act O page (Fill ADDRESS []) ;;
      act O page (PressSequentially ADDRESS (address input)) ;;
      humanDelay O 4000 6000 ;;
      let sugg := "li >> hasText: digits, word, four digits >> first"%string in
      n <- act O page (Count sugg) ;;
      taken <-
        (if (0 <? counted O n)%nat then
           act O page (Click sugg false) ;;
           humanDelay O 1500 2000 ;;
           v <- act O page (InputValue ADDRESS) ;;
           ret (10 <? List.length (inputValue O v))%nat
         else ret false) ;;
      if (taken : bool) then ret true
      else
        let fallback := "li:has-text('St'), li:has-text('Rd'), li:has-text('Ave') >> first"%string in
        m <- act O page (Count fallback) ;;
        if (0 <? counted O m)%nat then
          act O page (Click fallback false) ;;
          humanDelay O 1500 2000 ;;
          ret true
        else
          act O page (Fill ADDRESS []) ;;
          humanDelay O 1000 2000 ;;
          addressLoop left' page input
  end.

Definition fillCarDetails (page : handle) (input : CarDetailsInput) : Flow unit :=
  addressFilled <- addressLoop 2 page input ;;
  (if (addressFilled : bool) then ret tt
   else throw (lit "Failed to fill address via autocomplete")) ;;
  act O page (Click (radio "UnderFinance" (yesNo (underFinance input))) false) ;;
  humanDelay O 800 1200 ;;
  act O page (SelectOption "select[name='Purpose']" (purpose input)) ;;
  act O page (DispatchChange "select[name='Purpose']") ;;
  humanDelay O 800 1200 ;;
  act O page (Click (radio "vehicleRegisterInBusinessName"
                           (yesNo (businessRegistered input))) false) ;;
  humanDelay O 800 1200 ;;
  (if truthy (Some (coverStartDate input)) then
     n <- act O page (Count "input[name='startDate']") ;;
     if (0 <? counted O n)%nat then
       act O page (Click "input[name='startDate']" true) ;;
       act O page (Fill "input[name='startDate']" (coverStartDate input)) ;;
       act O page (KeyboardPress "Tab") ;;
       humanDelay O 500 800
     else ret tt
   else ret tt) ;;
  (if truthy (email input) then
     n <- act O page (Count "input[name='email']") ;;
     if (0 <? counted O n)%nat then
       act O page (Fill "input[name='email']"
                        (match email input with Some e => e | None => [] end)) ;;
       humanDelay O 500 800
     else ret tt
   else ret tt) ;;
  clickContinueAndWait page (lit "Already with us?") 3.

(** *** Step 4: extract quote results

    The four summary patterns (car, age, gender, additional drivers) with
    their defaults are taken as functions of the page text. *)

Variable carDescription : jsstring -> jsstring.
Variable driverAge : jsstring -> Z.
Variable driverGender : jsstring -> jsstring.
Variable additionalDrivers : jsstring -> Z.

Definition THIRD_PARTY_TAB : string := "li:has-text('Third Party') >> first".

Definition extractQuoteResults (page : handle) : Flow QuoteResult :=
  humanDelay O 1000 2000 ;;
  n <- act O page InnerText ;;
  let pageText := innerText O n in
  comprehensive <- extractProductsFromText_prog pageText
                     [lit "Comprehensive"; lit "Complete Care"] ;;
  c <- act O page (Count THIRD_PARTY_TAB) ;;
  thirdParty <-
    (if (0 <? counted O c)%nat then
       v <- act O page (IsVisible THIRD_PARTY_TAB) ;;
       if visible O v then
         act O page (Click THIRD_PARTY_TAB false) ;;
         humanDelay O 2000 3000 ;;
         m <- act O page InnerText ;;
         extractProductsFromText_prog (innerText O m)
           [lit "Third Party Property Damage"; lit "Third Party Fire & Theft"]
       else ret []
     else ret []) ;;
  ret {| car_description := carDescription pageText;
         driver_age := driverAge pageText;
         driver_gender := driverGender pageText;
         driver_additionalDrivers := additionalDrivers pageText;
         comprehensive := comprehensive;
         thirdParty := thirdParty |}.

(** *** Step 3: fill driver details

    [n.toString()] for the two numbers typed into the form is taken as a
    function. *)

Variable numberToString : Z -> jsstring.

Definition genderLabel (g : Gender) : string :=
  match g with
  | male => "Male"
  | female => "Female"
  end.

Definition notReached : jsstring := lit "Failed to reach quote results page".

Definition fillDriverDetails (page : handle) (input : DriverDetailsInput) : Flow unit :=
  humanDelay O 2000 3000 ;;
  act O page (Click (radio "isMember0" (yesNo (racvMember input))) false) ;;
  humanDelay O 800 1200 ;;
  act O page (Click (radio "driverSex0" (genderLabel (gender input))) false) ;;
  humanDelay O 800 1200 ;;
  act O page (Click "input[name='age0']" true) ;;
  humanDelay O 200 400 ;;
  act O page (KeyboardType (numberToString (age input))) ;;
  act O page (KeyboardPress "Tab") ;;
  humanDelay O 500 800 ;;
  act O page (Click "input[name='driverAge0']" true) ;;
  humanDelay O 200 400 ;;
  act O page (KeyboardType (numberToString (licenceAge input))) ;;
  act O page (KeyboardPress "Tab") ;;
  humanDelay O 500 800 ;;
  act O page (Click (radio "hasClaims0" (yesNo (accidentsLast5Years input))) false) ;;
  humanDelay O 800 1200 ;;
  act O page (Click CONTINUE true) ;;
  quoteReached <- waitForText page (lit "/Yearly") 60000 ;;
  if (quoteReached : bool) then ret tt
  else
    n <- act O page InnerText ;;
    let body := innerText O n in
    if negb (includes body (lit "Comprehensive"))
       && negb (includes body (lit "Your quote summary"))
    then throw notReached
    else ret tt.

(** *** Step 1: find the car

    The pattern that reads the description of the car off the page is taken
    as a function: the text of its first group, when it matches. *)

Variable carMatch : jsstring -> option jsstring.

Definition RACV_URL : string := "https://my.racv.com.au/s/motor-insurance?p=CAR".

Definition REGO : string := "input[name='rego']".

(** [s.trim()] *)
Definition trimStart (s : jsstring) : jsstring :=
  (fix go (s : jsstring) : jsstring :=
     match s with
     | c :: s' => if space c then go s' else s
     | [] => []
     end) s.

Definition trim (s : jsstring) : jsstring := rev (trimStart (rev (trimStart s))).

Definition findCarByRego (page : handle) (rego state : jsstring) : Flow jsstring :=
  act O page (Goto RACV_URL) ;;
  act O page (WaitFor REGO) ;;
  humanDelay O 2000 3000 ;;
  act O page (Fill REGO rego) ;;
  act O page (SelectOption "select[name='jurisdictionFieldValue']" state) ;;
  humanDelay O 800 1200 ;;
  act O page (Click "button:has-text('Find Your car')" true) ;;
  act O page (WaitFor ADDRESS) ;;
  n <- act O page InnerText ;;
  let found := option_map trim (carMatch (innerText O n)) in
  ret (if truthy found then the_text found else lit "Car found").

Definition findCarManually (page : handle) (year make model bodyType : jsstring)
  : Flow jsstring :=
  act O page (Goto RACV_URL) ;;
  act O page (WaitFor REGO) ;;
  humanDelay O 2000 3000 ;;
  act O page (Click "a:has-text('Find your car manually')" false) ;;
  humanDelay O 1500 2000 ;;
  act O page (SelectOption "select >> hasText: Year >> first" year) ;;
  humanDelay O 1000 1500 ;;
  act O page (SelectOption "select >> hasText: Make >> first" make) ;;
  humanDelay O 1000 1500 ;;
  act O page (SelectOption "select >> hasText: Model >> first" model) ;;
  humanDelay O 1000 1500 ;;
  act O page (SelectOption "select >> hasText: Body >> first" bodyType) ;;
  humanDelay O 1000 1500 ;;
  act O page (WaitFor ADDRESS) ;;
  ret (year ++ lit " " ++ make ++ lit " " ++ model ++ lit " " ++ bodyType).

End Steps.

End QuoteFlow.

Import QuoteFlow.

(* ================================================================== *)
(** ** The tool handlers

    The server registers four tools.  Their handlers are the same in both
    handler files except for the [catch] blocks.  The steps of the quote
    flow receive a page and nothing else: they are programs of the outside
    world ([Flow]), and cannot reach the session store. *)

Module Mcp.

Inductive Content :=
| Text (text : jsstring)
| Stringify (fields : list (string * jsstring))
| StringifyResult (result : QuoteResult).

Record ToolResult := {
  content : Content;
  isError : bool
}.

Record StartArgs := {
  rego : option jsstring;
  state_ : option jsstring;
  make : option jsstring;
  model : option jsstring;
  year : option jsstring;
  bodyType : option jsstring
}.

Definition the (o : option jsstring) : jsstring :=
  match o with
  | Some s => s
  | None => []
  end.

(** The arguments of [fill_car_details] besides the session id. *)
Record CarDetailsArgs := {
  arg_address : jsstring;
  arg_underFinance : bool;
  arg_purpose : jsstring;
  arg_businessRegistered : bool;
  arg_coverStartDate : option jsstring;
  arg_email : option jsstring
}.

(** The [input] the handler builds from them; a missing cover start date
    becomes the empty string. *)
Definition carDetailsInput (a : CarDetailsArgs) : CarDetailsInput :=
  {| address := arg_address a;
     underFinance := arg_underFinance a;
     purpose := arg_purpose a;
     businessRegistered := arg_businessRegistered a;
     coverStartDate :=
       if truthy (arg_coverStartDate a) then the (arg_coverStartDate a) else [];
     email := arg_email a |}.

(** The flow functions imported from quote-flow.ts. *)
Record Steps := {
  findCarByRego : handle -> jsstring -> jsstring -> Flow jsstring;
  findCarManually : handle -> jsstring -> jsstring -> jsstring -> jsstring -> Flow jsstring;
  fillCarDetails : handle -> CarDetailsInput -> Flow unit;
  fillDriverDetails : handle -> DriverDetailsInput -> Flow unit;
  extractQuoteResults : handle -> Flow QuoteResult
}.

(** A call of one of the three step tools. *)
Inductive StepCall :=
| fill_car_details (sessionId : jsstring) (args : CarDetailsArgs)
| fill_driver_details (sessionId : jsstring) (input : DriverDetailsInput)
| get_quotes (sessionId : jsstring).

Definition sessionOf (c : StepCall) : jsstring :=
  match c with
  | fill_car_details i _ => i
  | fill_driver_details i _ => i
  | get_quotes i => i
  end.

Definition notFound : ToolResult :=
  {| content := Text (lit "Session not found or expired. Start a new quote.");
     isError := true |}.

Definition needCar : ToolResult :=
  {| content := Text (lit "Please provide either rego + state, or year + make + model + bodyType to find the car.");
     isError := true |}.

Definition started (s : QuoteSession) (carDescription : jsstring) : ToolResult :=
  {| content := Stringify
       [("sessionId"%string, id s);
        ("status"%string, lit "car_found");
        ("car"%string, carDescription);
        ("nextStep"%string, lit "Call fill_car_details with the sessionId to continue.")];
     isError := false |}.

Definition advanced (sessionId : jsstring) (status next : string) : ToolResult :=
  {| content := Stringify
       [("sessionId"%string, sessionId);
        ("status"%string, lit status);
        ("nextStep"%string, lit next)];
     isError := false |}.

Definition failed (msg : jsstring) : ToolResult :=
  {| content := Text msg; isError := true |}.

(** The [try] block of [start_quote] once the session exists. *)
Definition findCar (O : Oracle) (F : Steps) (a : StartArgs) (session : QuoteSession)
  : M ToolResult :=
  if truthy (rego a) && truthy (state_ a) then
    carDescription <- lift (findCarByRego F (page session) (the (rego a)) (the (state_ a))) ;;
    ret (started session carDescription)
  else if truthy (year a) && truthy (make a) && truthy (model a) && truthy (bodyType a) then
    carDescription <- lift (findCarManually F (page session) (the (year a)) (the (make a))
                                            (the (model a)) (the (bodyType a))) ;;
    ret (started session carDescription)
  else
    destroySession O (id session) ;;
    ret needCar.

(** The [try] blocks of the three step tools. *)
Definition tryFillCarDetails (O : Oracle) (F : Steps) (sessionId : jsstring)
           (args : CarDetailsArgs) : M ToolResult :=
  session <- getSession sessionId ;;
  match session with
  | None => ret notFound
  | Some s =>
      let input := carDetailsInput args in
      lift (fillCarDetails F (page s) input) ;;
      ret (advanced sessionId "car_details_filled"
             "Call fill_driver_details with the sessionId to continue.")
  end.

Definition tryFillDriverDetails (O : Oracle) (F : Steps) (sessionId : jsstring)
           (input : DriverDetailsInput) : M ToolResult :=
  session <- getSession sessionId ;;
  match session with
  | None => ret notFound
  | Some s =>
      lift (fillDriverDetails F (page s) input) ;;
      ret (advanced sessionId "driver_details_filled"
             "Call get_quotes with the sessionId to retrieve the quote results.")
  end.

Definition tryGetQuotes (O : Oracle) (F : Steps) (sessionId : jsstring) : M ToolResult :=
  session <- getSession sessionId ;;
  match session with
  | None => ret notFound
  | Some s =>
      result <- lift (extractQuoteResults F (page s)) ;;
      destroySession O sessionId ;;
      ret {| content := StringifyResult result; isError := false |}
  end.

End Mcp.

Import Mcp.

(** *** src/unnamed/part_001: a failure destroys the session *)

Module Server001.
Section Handlers.
Variable O : Oracle.
Variable F : Steps.

Definition startFailed (sessionId : option jsstring) (err : option jsstring)
  : M ToolResult :=
  (if truthy sessionId then swallow (destroySession O (the sessionId)) else ret tt) ;;
  let msg := if truthy err then the err else lit "Unknown error" in
  let isRegoNotFound := includes msg (lit "not found") || includes msg (lit "couldn't find") in
  let guidance :=
    if isRegoNotFound
    then lit "Ask the user to verify their rego and state, or try start_quote with year/make/model/bodyType instead."
    else lit "Call start_quote again to retry " ++ [8212%N]
         ++ lit " the RACV website may have been slow to respond." in
  ret (failed (lit "Failed to start quote: " ++ msg ++ lit ". " ++ guidance)).

(** [sessionId] is [undefined] until [createSession] has returned. *)
Definition start_quote (a : StartArgs) : M ToolResult :=
  try_from (createSession O)
           (fun session => findCar O F a session)
           (fun session => startFailed (option_map id session)).

Definition sessionDestroyed : jsstring :=
  lit ". Session destroyed " ++ [8212%N] ++ lit " call start_quote to begin a new quote.".

Definition stepFailed (sessionId : jsstring) (what : string) (err : option jsstring)
  : M ToolResult :=
  swallow (destroySession O sessionId) ;;
  ret (failed (lit what ++ shown err ++ sessionDestroyed)).

Definition callTool (c : StepCall) : M ToolResult :=
  match c with
  | fill_car_details sessionId args =>
      try_catch (tryFillCarDetails O F sessionId args)
                (stepFailed sessionId "Failed to fill car details: ")
  | fill_driver_details sessionId input =>
      try_catch (tryFillDriverDetails O F sessionId input)
                (stepFailed sessionId "Failed to fill driver details: ")
  | get_quotes sessionId =>
      try_catch (tryGetQuotes O F sessionId)
                (stepFailed sessionId "Failed to extract quotes: ")
  end.

End Handlers.
End Server001.

(** *** src/unnamed/part_000: a failure is only reported *)

Module Server000.
Section Handlers.
Variable O : Oracle.
Variable F : Steps.

Definition startFailed (err : option jsstring) : M ToolResult :=
  ret (failed (lit "Failed to start quote: " ++ shown err)).

Definition start_quote (a : StartArgs) : M ToolResult :=
  try_catch
    (session <- createSession O ;;
     findCar O F a session)
    startFailed.

Definition stepFailed (what : string) (err : option jsstring) : M ToolResult :=
  ret (failed (lit what ++ shown err)).

Definition callTool (c : StepCall) : M ToolResult :=
  match c with
  | fill_car_details sessionId args =>
      try_catch (tryFillCarDetails O F sessionId args)
                (stepFailed "Failed to fill car details: ")
  | fill_driver_details sessionId input =>
      try_catch (tryFillDriverDetails O F sessionId input)
                (stepFailed "Failed to fill driver details: ")
  | get_quotes sessionId =>
      try_catch (tryGetQuotes O F sessionId)
                (stepFailed "Failed to extract quotes: ")
  end.

End Handlers.
End Server000.

(* ================================================================== *)
(** ** Vocabulary of the statements *)

(** *** Text *)

(** [name] occurs in [text] at index [i]. *)
Definition occurs_at (text name : jsstring) (i : nat) : Prop :=
  exists a b, text = a ++ name ++ b /\ List.length a = i.

Definition first_occurrence (text name : jsstring) (i : nat) : Prop :=
  occurs_at text name i /\ forall j, (j < i)%nat -> ~ occurs_at text name j.

(** The 500 code units that start at index [i]. *)
Definition window (text : jsstring) (i : nat) : jsstring :=
  firstn 500 (skipn i text).

Definition all (p : char -> bool) (s : jsstring) : Prop := forallb p s = true.

(** An amount: digits and commas, at least one; then possibly a dot; then
    digits. *)
Definition amount_text (g : jsstring) : Prop :=
  exists whole dot frac,
    g = whole ++ dot ++ frac /\
    whole <> [] /\ all digit_or_comma whole /\
    (dot = [] \/ dot = lit ".") /\
    all digit frac.

(** A yearly price somewhere in [w]: a dollar sign, an amount, any white
    space, then /Yearly. *)
Definition yearly_price_in (w : jsstring) : Prop :=
  exists before g ws after,
    w = before ++ lit "$" ++ g ++ ws ++ lit "/Yearly" ++ after /\
    amount_text g /\ all space ws.

(** What the atoms of a pattern accept. *)
Definition atom_accepts (a : atom) (m : jsstring) : Prop :=
  match rep a with
  | One => exists c, m = [c] /\ cls a c = true
  | Opt => m = [] \/ exists c, m = [c] /\ cls a c = true
  | Star => all (cls a) m
  | Plus => m <> [] /\ all (cls a) m
  end.

Fixpoint accepts (r : list atom) (m : jsstring) : Prop :=
  match r with
  | [] => m = []
  | a :: r' => exists m1 m2, m = m1 ++ m2 /\ atom_accepts a m1 /\ accepts r' m2
  end.

(** *** The fragments of a quote card *)

Definition COMPREHENSIVE : jsstring := lit "Comprehensive".
Definition YEARLY : jsstring := lit "$120.50/Yearly".
Definition MONTHLY : jsstring := lit "$10.50/Monthly".
Definition TOTAL : jsstring := lit "($120.50 over 12 months)".
Definition SAVING : jsstring := lit "Save $15.00".

(** The card from its first fragment to its last, with [g1..g4] between
    the fragments. *)
Definition card (g1 g2 g3 g4 : jsstring) : jsstring :=
  COMPREHENSIVE ++ g1 ++ YEARLY ++ g2 ++ MONTHLY ++ g3 ++ TOTAL ++ g4 ++ SAVING.

(** [text] holds the name followed, within 500 code units, by the four
    fragments in their order. *)
Definition holds_card (text : jsstring) : Prop :=
  exists before g1 g2 g3 g4 after,
    text = before ++ card g1 g2 g3 g4 ++ after /\
    (List.length (card g1 g2 g3 g4) <= 500)%nat.

Definition cardQuote : ProductQuote :=
  {| name := lit "Comprehensive";
     yearlyPrice := lit "$120.50";
     monthlyPrice := lit "$10.50";
     totalOver12Months := lit "$120.50";
     yearlySaving := Some (lit "$15.00");
     features := [] |}.

Definition dollar_free (g : jsstring) : Prop := ~ In 36%N g.

Definition ends_with (g s : jsstring) : Prop := exists a, g = a ++ s.

Definition no_digit_ahead (s : jsstring) : Prop :=
  forall c rest, s = c :: rest -> digit c = false.

(** The text of the example, and one where an earlier price stands
    between the name and the fragments. *)
Definition sampleText : jsstring :=
  lit "Comprehensive ... $120.50/Yearly ... $10.50/Monthly ... ($120.50 over 12 months) ... Save $15.00".

Definition crowdedText : jsstring :=
  lit "Comprehensive $99/Yearly $120.50/Yearly $10.50/Monthly ($120.50 over 12 months) Save $15.00".

(** *** Sessions and the outside world *)

(** What [destroySession] asks of the outside world for a session it
    holds: the context is closed, and the browser after it unless closing
    the context was rejected. *)
Definition teardown (O : Oracle) (s : QuoteSession) (x : Ext) : Ext :=
  let n := tick x in
  match rejects O n with
  | Some _ =>
      {| tick := S n;
         clock := clock x + Z.of_N (took O n);
         trace := trace x ++ [EvContextClose (context s)] |}
  | None =>
      {| tick := S (S n);
         clock := clock x + Z.of_N (took O n) + Z.of_N (took O (S n));
         trace := (trace x ++ [EvContextClose (context s)])
                  ++ [EvBrowserClose (browser s)] |}
  end.

(** A session is expired at [now] when it was last active more than the
    timeout ago. *)
Definition expired (now : Z) (s : QuoteSession) : bool :=
  now - lastActivity s >? SESSION_TIMEOUT_MS.

(** One turn of the reaper on the store: the entry under [k] goes when it
    is expired at [now]. *)
Definition reapStep (now : Z) (m : Store) (k : jsstring) : Store :=
  match Map_get m k with
  | Some s => if expired now s then Map_delete m k else m
  | None => m
  end.

(** What a sweep at [now] leaves under an id. *)
Definition afterSweep (now : Z) (o : option QuoteSession) : option QuoteSession :=
  match o with
  | Some s => if expired now s then None else Some s
  | None => None
  end.

(** Neither way of naming the car is supplied in full. *)
Definition neither (a : StartArgs) : bool :=
  negb (truthy (rego a) && truthy (state_ a))
  && negb (truthy (year a) && truthy (make a) && truthy (model a) && truthy (bodyType a)).

(** The flow of a step tool on the page of its session. *)
Definition stepFlow (F : Steps) (c : StepCall) (page : handle) : Flow unit :=
  match c with
  | fill_car_details _ args => fillCarDetails F page (carDetailsInput args)
  | fill_driver_details _ input => fillDriverDetails F page input
  | get_quotes _ => extractQuoteResults F page ;; ret tt
  end.

Definition isClick (page : handle) (ev : Event) : bool :=
  match ev with
  | EvPage p (Click sel true) => Nat.eqb p page && String.eqb sel CONTINUE
  | _ => false
  end.

(** How many times the continue control of [page] was clicked. *)
Definition clicks (page : handle) (evs : list Event) : nat :=
  List.length (filter (isClick page) evs).

(** The events that are calls answered by the oracle, in order; the
    [k]-th of them after a state [x] has number [tick x + k]. *)
Definition isCall (ev : Event) : bool :=
  match ev with
  | EvLog _ => false
  | _ => true
  end.

Definition calls (evs : list Event) : list Event := filter isCall evs.

(** *** Scenarios *)

(** An outside world where nothing is rejected, every call is immediate,
    the page shows no text, one address suggestion is offered and taken. *)
Definition quiet : Oracle :=
  {| rejects := fun _ => None;
     took := fun _ => 0%N;
     innerText := fun _ => [];
     counted := fun _ => 1%nat;
     visible := fun _ => true;
     inputValue := fun _ => lit "1 Collins St, Melbourne VIC 3000";
     random := fun _ => 0;
     uuid := fun _ => lit "7f1c" |}.

(** The same world, except that the first call is rejected. *)
Definition firstRejected : Oracle :=
  {| rejects := fun n => match n with 0%nat => Some (Some (lit "Target closed")) | _ => None end;
     took := took quiet;
     innerText := innerText quiet;
     counted := counted quiet;
     visible := visible quiet;
     inputValue := inputValue quiet;
     random := random quiet;
     uuid := uuid quiet |}.

(** The same world, except that the page shows the landmark of step 2 from
    call [n] on. *)
Definition landmarkFrom (n : nat) : Oracle :=
  {| rejects := rejects quiet;
     took := took quiet;
     innerText := fun k => if (n <=? k)%nat then lit "Already with us?" else [];
     counted := counted quiet;
     visible := visible quiet;
     inputValue := inputValue quiet;
     random := random quiet;
     uuid := uuid quiet |}.

Definition fresh : Ext := {| tick := 0; clock := 0; trace := [] |}.

Definition session1 : QuoteSession :=
  {| id := lit "s1"; browser := 1%nat; context := 2%nat; page := 3%nat;
     state := initialized; createdAt := 0; lastActivity := 0 |}.

Definition session2 : QuoteSession :=
  {| id := lit "s2"; browser := 4%nat; context := 5%nat; page := 6%nat;
     state := car_found; createdAt := 0; lastActivity := 500000 |}.

Definition empty : Server := {| sessions := []; ext := fresh |}.

(** The session [createSession] makes from [empty] in the world [quiet]. *)
Definition firstSession : QuoteSession :=
  {| id := lit "7f1c"; browser := 0%nat; context := 1%nat; page := 3%nat;
     state := initialized; createdAt := 0; lastActivity := 0 |}.

Definition oneSession : Server := {| sessions := [(lit "s1", session1)]; ext := fresh |}.

Definition twoSessions : Server :=
  {| sessions := [(lit "s1", session1); (lit "s2", session2)];
     ext := {| tick := 0; clock := 700000; trace := [] |} |}.

Definition noArgs : StartArgs :=
  {| rego := None; state_ := None; make := None; model := None;
     year := None; bodyType := None |}.

Definition carArgs : CarDetailsArgs :=
  {| arg_address := lit "1 Collins St Melbourne";
     arg_underFinance := false;
     arg_purpose := lit "Private";
     arg_businessRegistered := false;
     arg_coverStartDate := None;
     arg_email := None |}.

(** The steps as the scenarios use them: steps 2 and 4 as modelled above,
    the other three stand-ins of one call each. *)
Definition steps (O : Oracle) : Steps :=
  {| findCarByRego := fun p _ _ => act O p (Goto "RACV_URL") ;; ret (lit "Car found");
     findCarManually := fun p y mk md b =>
       act O p (Goto "RACV_URL") ;;
       ret (y ++ lit " " ++ mk ++ lit " " ++ md ++ lit " " ++ b);
     fillCarDetails := QuoteFlow.fillCarDetails O;
     fillDriverDetails := fun p _ => act O p (Click CONTINUE true) ;; ret tt;
     extractQuoteResults :=
       QuoteFlow.extractQuoteResults O (fun _ => lit "Unknown") (fun _ => 0)
                                     (fun _ => lit "Unknown") (fun _ => 0) |}.

(** *** Runs of a flow *)

(** From [x] to [x'] the events [evs] were added; each of them that is a
    call advanced the counter by one; the clock did not go back. *)
Definition Segment (x x' : Ext) (evs : list Event) : Prop :=
  trace x' = trace x ++ evs /\
  tick x' = (tick x + List.length (calls evs))%nat /\
  clock x <= clock x'.

(** No reading of the page text among [evs], the first call of which has
    number [from], showed [target]. *)
Definition Unobserved (O : Oracle) (page : handle) (target : jsstring)
           (from : nat) (evs : list Event) : Prop :=
  forall k,
    nth_error (calls evs) k = Some (EvPage page InnerText) ->
    rejects O (from + k) = None ->
    includes (innerText O (from + k)) target = false.

(** The last of [evs] is a reading of the page text that showed [target],
    and none before it did. *)
Definition ObservedLast (O : Oracle) (page : handle) (target : jsstring)
           (from : nat) (evs : list Event) : Prop :=
  exists evs0,
    evs = evs0 ++ [EvPage page InnerText] /\
    Unobserved O page target from evs0 /\
    rejects O (from + List.length (calls evs0)) = None /\
    includes (innerText O (from + List.length (calls evs0))) target = true.

(** What a run of the polling loop can be. *)
Definition waitOutcome (O : Oracle) (page : handle) (target : jsstring)
           (x : Ext) (r : Result bool) (evs : list Event) : Prop :=
  match r with
  | Ok true => ObservedLast O page target (tick x) evs
  | Ok false => Unobserved O page target (tick x) evs
  | Throw _ =>
      Unobserved O page target (tick x) evs /\
      exists n, (tick x <= n)%nat /\ rejects O n <> None
  | Spin => False
  end.

(** What a run of the continue action can be, with [left] turns to go. *)
Definition continueOutcome (O : Oracle) (page : handle) (target : jsstring)
           (left maxRetries : nat) (x : Ext) (r : Result unit)
           (evs : list Event) : Prop :=
  match r with
  | Ok _ => ObservedLast O page target (tick x) evs
  | Throw e =>
      Unobserved O page target (tick x) evs /\
      ((forall n, (tick x <= n)%nat -> rejects O n = None) ->
       e = Some (notAdvanced target maxRetries) /\ clicks page evs = left)
  | Spin => False
  end.

(** *** More on the extracted quotes *)

(** A price as the stage writes it: a dollar sign and an amount. *)
Definition price_text (p : jsstring) : Prop :=
  exists g, p = dollar g /\ amount_text g.

(** The test of one turn of the loop: the name is found, and a yearly
    price in the window at its first occurrence. *)
Definition offered (text n : jsstring) : bool :=
  let idx := indexOf text n in
  negb (idx =? -1)
  && match exec yearlyRe (substring text idx (idx + 500)) with
     | Some _ => true
     | None => false
     end.

(** A character an amount can hold. *)
Definition amount_char (c : char) : bool := digit_or_comma c || N.eqb c 46%N.

(** A name, 500 spaces, and only then a yearly price. *)
Definition farPriceText : jsstring :=
  lit "Comprehensive" ++ repeat 32%N 500 ++ lit "$120.50/Yearly".

(** *** The shape of the store *)

Definition keys (m : Store) : list jsstring := List.map fst m.

(** One entry per key, each session under its own id. *)
Definition well_keyed (m : Store) : Prop :=
  NoDup (keys m) /\ forall k s, In (k, s) m -> id s = k.

(** The entries other than the one under [k]. *)
Definition others (k : jsstring) (e : jsstring * QuoteSession) : bool :=
  negb (JS.eqb (fst e) k).

(** The entries a sweep at [now] keeps. *)
Definition alive (now : Z) (e : jsstring * QuoteSession) : bool :=
  negb (expired now (snd e)).

(** What a sweep at [now] over the store [m] may ask of the outside
    world: a log line, or the closing of the context or the browser of a
    session of [m] that is expired. *)
Definition tornDown (m : Store) (now : Z) (ev : Event) : Prop :=
  (exists msg, ev = EvLog msg) \/
  exists k s, Map_get m k = Some s /\ expired now s = true /\
              (ev = EvContextClose (context s) \/ ev = EvBrowserClose (browser s)).

Definition isClose (ev : Event) : bool :=
  match ev with
  | EvContextClose _ | EvBrowserClose _ => true
  | _ => false
  end.

(** The world [quiet], except that the second call is rejected: the
    browser launches, and the making of its context fails. *)
Definition secondRejected : Oracle :=
  {| rejects := fun n => match n with
                         | 1%nat => Some (Some (lit "Target closed"))
                         | _ => None
                         end;
     took := took quiet;
     innerText := innerText quiet;
     counted := counted quiet;
     visible := visible quiet;
     inputValue := inputValue quiet;
     random := random quiet;
     uuid := uuid quiet |}.

(** *** Flows that end *)

(** A flow ends from every state: it returns or throws. *)
Definition Ends {A : Type} (m : Flow A) : Prop := forall x, fst (m x) <> Spin.

Definition isRead (page : handle) (ev : Event) : bool :=
  match ev with
  | EvPage p InnerText => Nat.eqb p page
  | _ => false
  end.

(** How many times the text of [page] was read. *)
Definition reads (page : handle) (evs : list Event) : nat :=
  List.length (filter (isRead page) evs).

Definition isType (ev : Event) : bool :=
  match ev with
  | EvPage _ (PressSequentially _ _) => true
  | _ => false
  end.

(** The world [quiet], except that no suggestion is ever offered. *)
Definition noSuggestions : Oracle :=
  {| rejects := rejects quiet;
     took := took quiet;
     innerText := innerText quiet;
     counted := fun _ => 0%nat;
     visible := visible quiet;
     inputValue := inputValue quiet;
     random := random quiet;
     uuid := uuid quiet |}.

(** The world [quiet], except that the page shows a quote card. *)
Definition quoted : Oracle :=
  {| rejects := rejects quiet;
     took := took quiet;
     innerText := fun _ => sampleText;
     counted := fun _ => 0%nat;
     visible := visible quiet;
     inputValue := inputValue quiet;
     random := random quiet;
     uuid := uuid quiet |}.

Definition driverInput : DriverDetailsInput :=
  {| racvMember := false; gender := female; age := 40; licenceAge := 18;
     accidentsLast5Years := false |}.

(** The five steps as modelled, the numbers printed in decimal and the
    three summary patterns never matching. *)
Definition realSteps (O : Oracle) : Steps :=
  {| findCarByRego := QuoteFlow.findCarByRego O (fun _ => None);
     findCarManually := QuoteFlow.findCarManually O;
     fillCarDetails := QuoteFlow.fillCarDetails O;
     fillDriverDetails := QuoteFlow.fillDriverDetails O (fun z => dec (Z.to_nat z));
     extractQuoteResults :=
       QuoteFlow.extractQuoteResults O (fun _ => lit "Unknown") (fun _ => 0)
                                     (fun _ => lit "Unknown") (fun _ => 0) |}.

(** Whatever the state and the outcome, the flow only adds events to the
    trace, moves the call counter by the number of calls among them, does
    not set the clock back, and clicks the continue control of [page] at
    most [n] times. *)
Definition ClicksAtMost {A : Type} (page : handle) (n : nat) (m : Flow A) : Prop :=
  forall x,
    exists evs,
      Segment x (snd (m x)) evs /\ (clicks page evs <= n)%nat.

(** The flow returns only right after a reading of the text of [page]
    that nothing rejected and that satisfies [good], and after at least
    [lo] clicks on the continue control of [page]. *)
Definition ReturnsOn {A : Type} (O : Oracle) (page : handle)
           (good : jsstring -> bool) (lo : nat) (m : Flow A) : Prop :=
  forall x a x',
    m x = (Ok a, x') ->
    exists n evs,
      trace x' = trace x ++ evs ++ [EvPage page InnerText] /\
      tick x' = S n /\ (tick x <= n)%nat /\
      rejects O n = None /\ good (innerText O n) = true /\
      (lo <= clicks page evs)%nat.

(** The page shows the landmark that follows the car details. *)
Definition driverPageShown (body : jsstring) : bool :=
  includes body (lit "Already with us?").

(** The page shows what [fillDriverDetails] takes for the quote results. *)
Definition resultsShown (body : jsstring) : bool :=
  includes body (lit "/Yearly")
  || includes body (lit "Comprehensive")
  || includes body (lit "Your quote summary").

Definition typed (evs : list Event) : nat := List.length (filter isType evs).

Definition addressFailure : jsstring := lit "Failed to fill address via autocomplete".

Definition comprehensiveNames : list jsstring :=
  [lit "Comprehensive"; lit "Complete Care"].

Definition thirdPartyNames : list jsstring :=
  [lit "Third Party Property Damage"; lit "Third Party Fire & Theft"].

(** The click on the third-party tab of [page]. *)
Definition tabClick (page : handle) : Event :=
  EvPage page (Click THIRD_PARTY_TAB false).

(** *** Tool calls *)

(** The five steps end, whatever the page and the arguments. *)
Definition StepsEnd (F : Steps) : Prop :=
  (forall p r s, Ends (findCarByRego F p r s)) /\
  (forall p y mk md b, Ends (findCarManually F p y mk md b)) /\
  (forall p i, Ends (fillCarDetails F p i)) /\
  (forall p i, Ends (fillDriverDetails F p i)) /\
  (forall p, Ends (extractQuoteResults F p)).

(** A program of the server that returns from every state. *)
Definition Answers {A : Type} (m : M A) : Prop :=
  forall w, exists r w1, m w = (Ok r, w1).

Definition NoSpin {A : Type} (m : M A) : Prop := forall w, fst (m w) <> Spin.

Definition isGetQuotes (c : StepCall) : bool :=
  match c with
  | get_quotes _ => true
  | _ => false
  end.

(** The two ways of naming the car, as [start_quote] tests them. *)
Definition byRego (a : StartArgs) : bool := truthy (rego a) && truthy (state_ a).

Definition manually (a : StartArgs) : bool :=
  truthy (year a) && truthy (make a) && truthy (model a) && truthy (bodyType a).

(** The flow [start_quote] runs to find the car when one of the two ways
    is given: the registration when it is, whatever else is. *)
Definition carFlow (F : Steps) (a : StartArgs) (page : handle) : Flow jsstring :=
  if byRego a then findCarByRego F page (the (rego a)) (the (state_ a))
  else findCarManually F page (the (year a)) (the (make a)) (the (model a))
                       (the (bodyType a)).

(** The store after [getSession] found the session under [k]. *)
Definition touched (w : Server) (k : jsstring) : Store :=
  Map_alter (set_lastActivity (clock (ext w))) (sessions w) k.

(** Arguments that name the car both ways. *)
Definition bothArgs : StartArgs :=
  {| rego := Some (lit "ABC123"); state_ := Some (lit "VIC");
     make := Some (lit "Toyota"); model := Some (lit "Corolla");
     year := Some (lit "2018"); bodyType := Some (lit "SEDAN") |}.

(** The world [quiet], except that the sixth call, the first after a
    session is made from [empty], is rejected. *)
Definition sixthRejected : Oracle :=
  {| rejects := fun n => match n with
                         | 5%nat => Some (Some (lit "net::ERR_TIMED_OUT"))
                         | _ => None
                         end;
     took := took quiet;
     innerText := innerText quiet;
     counted := counted quiet;
     visible := visible quiet;
     inputValue := inputValue quiet;
     random := random quiet;
     uuid := uuid quiet |}.

(** *** Trimmed text *)

(** No white space at either end. *)
Definition trimmed (d : jsstring) : Prop :=
  (forall c r, d = c :: r -> space c = false) /\
  (forall c r, d = r ++ [c] -> space c = false).

(** Every value the flow returns satisfies [P]. *)
Definition Returns {A : Type} (P : A -> Prop) (m : Flow A) : Prop :=
  forall x a x', m x = (Ok a, x') -> P a.

(* ================================================================== *)
(** ** The .env preamble of the test scripts

    The three test scripts begin with the same loop over the lines of the
    file: the line is split at every equals sign, the first piece is the
    key, the others joined again are the value, and the variable is set
    when both are non-empty.  [parseLine] is the assignment one line asks
    for. *)

Module Env.

Definition EQUALS : char := 61%N.

(** [s.split(sep)] for a separator of one code unit *)
Fixpoint split (sep : char) (s : jsstring) : list jsstring :=
  match s with
  | [] => [[]]
  | c :: s' =>
      if N.eqb c sep then [] :: split sep s'
      else match split sep s' with
           | w :: ws => (c :: w) :: ws
           | [] => [[c]]
           end
  end.

(** [l.join(sep)] *)
Fixpoint join (sep : char) (l : list jsstring) : jsstring :=
  match l with
  | [] => []
  | [w] => w
  | w :: l' => w ++ sep :: join sep l'
  end.

Definition parseLine (line : jsstring) : option (jsstring * jsstring) :=
  match split EQUALS line with
  | key :: rest =>
      let value := join EQUALS rest in
      if truthy (Some key) && truthy (Some value)
      then Some (trim key, trim value)
      else None
  | [] => None
  end.

End Env.

(** *** The handles of the sessions *)

(** No two sessions of the store share a context or a browser. *)
Definition distinct_handles (m : Store) : Prop :=
  forall k1 s1 k2 s2,
    Map_get m k1 = Some s1 -> Map_get m k2 = Some s2 ->
    context s1 = context s2 \/ browser s1 = browser s2 ->
    k1 = k2.

(** Every browser and context held in the store was made by a call
    already answered. *)
Definition handles_known (w : Server) : Prop :=
  forall k s,
    Map_get (sessions w) k = Some s ->
    (browser s < tick (ext w))%nat /\ (context s < tick (ext w))%nat.

(* ================================================================== *)
(** * Properties *)

(** ** Strings *)

Module JSFacts.

Lemma eqb_eq (a b : jsstring) : JS.eqb a b = true <-> a = b.
Proof.
  revert b; induction a as [|x a IH]; intros [|y b]; simpl; split;
    try discriminate; try reflexivity.
  - intros H. apply andb_true_iff in H as [Hx Hab].
    apply N.eqb_eq in Hx. apply IH in Hab. now subst.
  - intros H. injection H as -> ->.
    apply andb_true_iff. split; [apply N.eqb_refl | now apply IH].
Qed.

Lemma eqb_refl (a : jsstring) : JS.eqb a a = true.
Proof. now apply eqb_eq. Qed.

Lemma eqb_neq (a b : jsstring) : JS.eqb a b = false <-> a <> b.
Proof.
  split.
  - intros H E. apply eqb_eq in E. congruence.
  - intros H. destruct (JS.eqb a b) eqn:E; [|reflexivity].
    apply eqb_eq in E. contradiction.
Qed.

Lemma startsWith_spec (s p : jsstring) :
  startsWith s p = true <-> exists r, s = p ++ r.
Proof.
  revert s; induction p as [|x p IH]; intros s; simpl.
  - split; [intros _; now exists s | reflexivity].
  - destruct s as [|y s].
    + split; [discriminate | intros [r H]; discriminate].
    + rewrite andb_true_iff, N.eqb_eq, IH. split.
      * intros [-> [r ->]]. now exists r.
      * intros [r H]. injection H as -> ->. split; [reflexivity | now exists r].
Qed.

Lemma occurs_at_0 (s p : jsstring) : occurs_at s p 0 <-> startsWith s p = true.
Proof.
  rewrite startsWith_spec. split.
  - intros (a & b & -> & Ha). destruct a; [|discriminate]. now exists b.
  - intros [r ->]. now exists [], r.
Qed.

Lemma occurs_at_S (c : char) (s p : jsstring) (j : nat) :
  occurs_at (c :: s) p (S j) <-> occurs_at s p j.
Proof.
  split.
  - intros (a & b & E & Ha). destruct a as [|x a]; [discriminate|].
    simpl in E, Ha. injection E as -> ->. injection Ha as Ha.
    now exists a, b.
  - intros (a & b & -> & Ha). exists (c :: a), b. simpl. now rewrite Ha.
Qed.

Lemma occurs_at_nil (p : jsstring) (j : nat) : occurs_at [] p j -> j = 0%nat.
Proof.
  intros (a & b & E & Ha). destruct a; [now subst|discriminate].
Qed.

(** [indexOf] finds the first occurrence, and answers -1 only when there
    is none. *)
Lemma indexOf_from_spec (s p : jsstring) (i : Z) :
  (indexOf_from s p i = -1 /\ forall j, ~ occurs_at s p j) \/
  (exists j, indexOf_from s p i = i + Z.of_nat j /\ first_occurrence s p j).
Proof.
  revert i; induction s as [|c s IH]; intros i; simpl.
  - destruct (startsWith [] p) eqn:E.
    + right. exists 0%nat. split; [lia|].
      split; [now apply occurs_at_0 | intros j Hj; lia].
    + left. split; [reflexivity|]. intros j Hj.
      pose proof (occurs_at_nil Hj); subst j.
      apply occurs_at_0 in Hj. congruence.
  - destruct (startsWith (c :: s) p) eqn:E.
    + right. exists 0%nat. split; [lia|].
      split; [now apply occurs_at_0 | intros j Hj; lia].
    + destruct (IH (i + 1)) as [[H1 H2] | (j & H1 & H2 & H3)].
      * left. split; [exact H1|]. intros [|j] Hj.
        -- apply occurs_at_0 in Hj. congruence.
        -- apply occurs_at_S in Hj. now apply (H2 j).
      * right. exists (S j). split; [lia|]. split.
        -- now apply occurs_at_S.
        -- intros [|k] Hk Hocc.
           ++ apply occurs_at_0 in Hocc. congruence.
           ++ apply occurs_at_S in Hocc. apply (H3 k); [lia | exact Hocc].
Qed.

Lemma first_occurrence_unique (s p : jsstring) (i j : nat) :
  first_occurrence s p i -> first_occurrence s p j -> i = j.
Proof.
  intros [Hi Hi'] [Hj Hj'].
  destruct (Nat.lt_trichotomy i j) as [H | [H | H]]; [|exact H|].
  - exfalso. now apply (Hj' i).
  - exfalso. now apply (Hi' j).
Qed.

Lemma indexOf_absent (s p : jsstring) :
  indexOf s p = -1 <-> forall j, ~ occurs_at s p j.
Proof.
  unfold indexOf.
  destruct (indexOf_from_spec s p 0) as [[H1 H2] | (j & H1 & H2)].
  - split; auto.
  - split; [lia|]. intros H. exfalso. destruct H2 as [H2 _]. now apply (H j).
Qed.

Lemma indexOf_first (s p : jsstring) (i : nat) :
  indexOf s p = Z.of_nat i <-> first_occurrence s p i.
Proof.
  unfold indexOf.
  destruct (indexOf_from_spec s p 0) as [[H1 H2] | (j & H1 & H2)].
  - split; [lia|]. intros [H _]. exfalso. now apply (H2 i).
  - split.
    + intros H. assert (i = j) by lia. now subst.
    + intros H. rewrite (first_occurrence_unique H H2). lia.
Qed.

Lemma occurs_at_bound (s p : jsstring) (i : nat) :
  occurs_at s p i -> (i <= List.length s)%nat.
Proof.
  intros (a & b & -> & <-). rewrite length_app. lia.
Qed.

Lemma substring_window (s : jsstring) (i : nat) :
  (i <= List.length s)%nat ->
  substring s (Z.of_nat i) (Z.of_nat i + 500) = window s i.
Proof.
  intros Hi. unfold substring, window, clamp.
  set (len := Z.of_nat (List.length s)).
  assert (Hlen : Z.of_nat i <= len) by (unfold len; lia).
  replace (Z.max 0 (Z.min (Z.of_nat i) len)) with (Z.of_nat i) by lia.
  replace (Z.min (Z.of_nat i) (Z.max 0 (Z.min (Z.of_nat i + 500) len)))
    with (Z.of_nat i) by lia.
  rewrite Nat2Z.id.
  destruct (Z_le_gt_dec (Z.of_nat i + 500) len) as [H | H].
  - replace (Z.max (Z.of_nat i) (Z.max 0 (Z.min (Z.of_nat i + 500) len)))
      with (Z.of_nat i + 500) by lia.
    now replace (Z.to_nat (Z.of_nat i + 500 - Z.of_nat i)) with 500%nat by lia.
  - replace (Z.max (Z.of_nat i) (Z.max 0 (Z.min (Z.of_nat i + 500) len)))
      with len by lia.
    assert (Hl : List.length (skipn i s) = Z.to_nat (len - Z.of_nat i)).
    { rewrite length_skipn. unfold len. lia. }
    rewrite <- Hl. rewrite firstn_all.
    symmetry. apply firstn_all2. rewrite Hl. lia.
Qed.

End JSFacts.

(** ** The matcher against what the patterns accept *)

Module RegexFacts.

Section Backtracking.
Variable A : Type.

Lemma star_sound (p : char -> bool) (s : jsstring)
      (k : jsstring -> jsstring -> option A) (x : A) :
  star p s k = Some x ->
  exists m r, s = m ++ r /\ all p m /\ k m r = Some x.
Proof.
  revert k; induction s as [|c s IH]; intros k; simpl.
  - intros H. now exists [], [].
  - destruct (p c) eqn:Hc.
    + destruct (star p s (fun m r => k (c :: m) r)) eqn:E.
      * intros H; injection H as ->.
        apply IH in E as (m & r & -> & Hm & Hk).
        exists (c :: m), r. repeat split; [|exact Hk].
        unfold all; simpl. now rewrite Hc.
      * intros H. now exists [], (c :: s).
    + intros H. now exists [], (c :: s).
Qed.

Lemma star_complete (p : char -> bool) (m r : jsstring)
      (k : jsstring -> jsstring -> option A) :
  all p m -> k m r <> None -> star p (m ++ r) k <> None.
Proof.
  revert k; induction m as [|c m IH]; intros k Hm Hk; simpl.
  - destruct r as [|c r]; simpl; [exact Hk|].
    destruct (p c); [|exact Hk].
    destruct (star p r (fun m r0 => k (c :: m) r0)); [discriminate | exact Hk].
  - unfold all in Hm; simpl in Hm. apply andb_true_iff in Hm as [Hc Hm].
    rewrite Hc.
    specialize (IH (fun m0 r0 => k (c :: m0) r0) Hm Hk).
    destruct (star p (m ++ r) (fun m0 r0 => k (c :: m0) r0));
      [discriminate | contradiction].
Qed.

Lemma matchAtoms_sound (r : list atom) (s : jsstring)
      (k : jsstring -> jsstring -> option A) (x : A) :
  matchAtoms r s k = Some x ->
  exists m rest, s = m ++ rest /\ accepts r m /\ k m rest = Some x.
Proof.
  revert s k; induction r as [|a r IH]; intros s k; simpl.
  - intros H. now exists [], s.
  - unfold atom_accepts. destruct (rep a) eqn:Hrep.
    + (* One *)
      destruct s as [|c s]; [discriminate|].
      destruct (cls a c) eqn:Hc; [|discriminate].
      intros H. apply IH in H as (m & rest & -> & Hm & Hk).
      exists (c :: m), rest. repeat split; [|exact Hk].
      exists [c], m. repeat split; [|exact Hm]. now exists c.
    + (* Opt *)
      assert (skip : matchAtoms r s (fun m r0 => k m r0) = Some x ->
                     exists m rest, s = m ++ rest /\
                       (exists m1 m2, m = m1 ++ m2 /\
                          (m1 = [] \/ exists c, m1 = [c] /\ cls a c = true) /\
                          accepts r m2) /\ k m rest = Some x).
      { intros H. apply IH in H as (m & rest & -> & Hm & Hk).
        exists m, rest. repeat split; [|exact Hk].
        exists [], m. repeat split; [now left | exact Hm]. }
      destruct s as [|c s]; [exact skip|].
      destruct (cls a c) eqn:Hc; [|exact skip].
      destruct (matchAtoms r s (fun m r0 => k (c :: m) r0)) eqn:E; [|exact skip].
      intros H; injection H as ->.
      apply IH in E as (m & rest & -> & Hm & Hk).
      exists (c :: m), rest. repeat split; [|exact Hk].
      exists [c], m. repeat split; [|exact Hm]. right. now exists c.
    + (* Star *)
      intros H. apply star_sound in H as (m1 & r1 & -> & Hm1 & H).
      apply IH in H as (m & rest & -> & Hm & Hk).
      exists (m1 ++ m), rest. rewrite <- app_assoc. repeat split; [|exact Hk].
      now exists m1, m.
    + (* Plus *)
      destruct s as [|c s]; [discriminate|].
      destruct (cls a c) eqn:Hc; [|discriminate].
      intros H. apply star_sound in H as (m1 & r1 & -> & Hm1 & H).
      apply IH in H as (m & rest & -> & Hm & Hk).
      exists ((c :: m1) ++ m), rest. rewrite <- !app_assoc. repeat split; [|exact Hk].
      exists (c :: m1), m. repeat split; [discriminate | | exact Hm].
      unfold all; simpl. now rewrite Hc.
Qed.

Lemma matchAtoms_complete (r : list atom) (m rest : jsstring)
      (k : jsstring -> jsstring -> option A) :
  accepts r m -> k m rest <> None -> matchAtoms r (m ++ rest) k <> None.
Proof.
  revert m k; induction r as [|a r IH]; intros m k; simpl.
  - intros -> Hk. exact Hk.
  - intros (m1 & m2 & -> & Ha & Hm2) Hk. unfold atom_accepts in Ha.
    rewrite <- app_assoc.
    destruct (rep a) eqn:Hrep.
    + destruct Ha as (c & -> & Hc). simpl. rewrite Hc.
      now apply IH.
    + destruct Ha as [-> | (c & -> & Hc)].
      * simpl.
        assert (Hskip : matchAtoms r (m2 ++ rest) (fun m r0 => k m r0) <> None)
          by now apply IH.
        destruct (m2 ++ rest) as [|c s] eqn:E; [exact Hskip|].
        destruct (cls a c); [|exact Hskip].
        destruct (matchAtoms r s (fun m r0 => k (c :: m) r0));
          [discriminate | exact Hskip].
      * simpl. rewrite Hc.
        assert (H : matchAtoms r (m2 ++ rest) (fun m r0 => k (c :: m) r0) <> None)
          by now apply IH.
        destruct (matchAtoms r (m2 ++ rest) (fun m r0 => k (c :: m) r0));
          [discriminate | contradiction].
    + apply star_complete; [exact Ha|]. now apply IH.
    + destruct Ha as [Hne Ha]. destruct m1 as [|c m1]; [contradiction|].
      unfold all in Ha; simpl in Ha. apply andb_true_iff in Ha as [Hc Ha].
      simpl. rewrite Hc.
      apply star_complete; [exact Ha|]. now apply IH.
Qed.

End Backtracking.

Lemma matchHere_sound (re : regex) (s g : jsstring) :
  matchHere re s = Some g ->
  exists m1 m3 rest,
    s = m1 ++ g ++ m3 ++ rest /\
    accepts (pre re) m1 /\ accepts (grp re) g /\ accepts (post re) m3.
Proof.
  unfold matchHere. intros H.
  apply matchAtoms_sound in H as (m1 & r1 & -> & H1 & H).
  apply matchAtoms_sound in H as (m2 & r2 & -> & H2 & H).
  apply matchAtoms_sound in H as (m3 & r3 & -> & H3 & H).
  injection H as ->. now exists m1, m3, r3.
Qed.

Lemma matchHere_complete (re : regex) (m1 g m3 rest : jsstring) :
  accepts (pre re) m1 -> accepts (grp re) g -> accepts (post re) m3 ->
  matchHere re (m1 ++ g ++ m3 ++ rest) <> None.
Proof.
  intros H1 H2 H3. unfold matchHere.
  apply matchAtoms_complete; [exact H1|].
  apply matchAtoms_complete; [exact H2|].
  apply matchAtoms_complete; [exact H3|].
  discriminate.
Qed.

Lemma exec_sound (re : regex) (s g : jsstring) :
  exec re s = Some g ->
  exists before rest, s = before ++ rest /\ matchHere re rest = Some g.
Proof.
  induction s as [|c s IH]; simpl.
  - destruct (matchHere re []) eqn:E; [|discriminate].
    intros H; injection H as ->. now exists [], [].
  - destruct (matchHere re (c :: s)) eqn:E.
    + intros H; injection H as ->. now exists [], (c :: s).
    + intros H. apply IH in H as (before & rest & -> & H).
      now exists (c :: before), rest.
Qed.

Lemma exec_complete (re : regex) (before rest : jsstring) :
  matchHere re rest <> None -> exec re (before ++ rest) <> None.
Proof.
  intros H. induction before as [|c before IH]; simpl.
  - destruct rest as [|c rest]; simpl.
    + destruct (matchHere re []); [discriminate | contradiction].
    + destruct (matchHere re (c :: rest)); [discriminate | contradiction].
  - destruct (matchHere re (c :: before ++ rest)); [discriminate | exact IH].
Qed.

(** A position where no match starts is passed over. *)
Lemma exec_skip (re : regex) (c : char) (s : jsstring) :
  matchHere re (c :: s) = None -> exec re (c :: s) = exec re s.
Proof. intros H. simpl. now rewrite H. Qed.

Lemma exec_here (re : regex) (s g : jsstring) :
  matchHere re s = Some g -> exec re s = Some g.
Proof. intros H. destruct s; simpl; now rewrite H. Qed.

Lemma accepts_amount (g : jsstring) : accepts amount g <-> amount_text g.
Proof.
  unfold amount, amount_text. cbn [accepts]. unfold atom_accepts. cbn [rep cls].
  split.
  - intros (w & m2 & -> & [Hne Hw] & d & m3 & -> & Hd & f & m4 & -> & Hf & ->).
    exists w, d, f. rewrite app_nil_r. repeat split; auto.
    destruct Hd as [-> | (c & -> & Hc)]; [now left | right].
    unfold only in Hc. apply N.eqb_eq in Hc. now subst.
  - intros (w & d & f & -> & Hne & Hw & Hd & Hf).
    exists w, (d ++ f). repeat split; auto.
    exists d, f. repeat split.
    + destruct Hd as [-> | ->]; [now left | right]. exists 46%N.
      split; [reflexivity | apply N.eqb_refl].
    + exists f, []. rewrite app_nil_r. repeat split; auto.
Qed.

(** What a literal piece of a pattern accepts is the literal. *)
Lemma accepts_chars (l m : jsstring) :
  accepts (List.map (fun c => Atom (only c) One) l) m <-> m = l.
Proof.
  revert m; induction l as [|c l IH]; intros m; cbn [List.map accepts].
  - reflexivity.
  - unfold atom_accepts; cbn [rep cls]. split.
    + intros (m1 & m2 & -> & (d & -> & Hd) & H).
      apply N.eqb_eq in Hd. apply IH in H. now subst.
    + intros ->. exists [c], l. repeat split; [|now apply IH].
      exists c. split; [reflexivity | apply N.eqb_refl].
Qed.

(** The yearly pattern finds a match exactly in the texts that hold a
    yearly price. *)
Lemma exec_yearly (w : jsstring) :
  exec yearlyRe w <> None <-> yearly_price_in w.
Proof.
  split.
  - destruct (exec yearlyRe w) as [g|] eqn:E; [intros _ | contradiction].
    apply exec_sound in E as (before & rest & -> & E).
    apply matchHere_sound in E as (m1 & m3 & r & -> & H1 & H2 & H3).
    apply accepts_amount in H2.
    apply (accepts_chars (lit "$")) in H1. subst m1.
    cbn [yearlyRe post accepts] in H3.
    destruct H3 as (ws & t & -> & Hws & H3).
    apply (accepts_chars (lit "/Yearly")) in H3. subst t.
    exists before, g, ws, r. repeat split; auto.
    now rewrite <- !app_assoc.
  - intros (before & g & ws & after & -> & Hg & Hws).
    apply exec_complete.
    replace (lit "$" ++ g ++ ws ++ lit "/Yearly" ++ after)
      with (lit "$" ++ g ++ (ws ++ lit "/Yearly") ++ after)
      by now rewrite <- !app_assoc.
    apply matchHere_complete.
    + now apply (accepts_chars (lit "$")).
    + now apply accepts_amount.
    + cbn [yearlyRe post accepts]. exists ws, (lit "/Yearly").
      repeat split; [exact Hws|]. now apply (accepts_chars (lit "/Yearly")).
Qed.

End RegexFacts.

(** ** The text-extraction stage *)

Module ExtractionFacts.
Import JSFacts RegexFacts.

Lemma extractProduct_app (text : jsstring) (acc : list ProductQuote) (n : jsstring) :
  extractProduct text acc n = acc ++ extractProduct text [] n.
Proof.
  unfold extractProduct.
  destruct (indexOf text n =? -1); [now rewrite app_nil_r|].
  destruct (exec yearlyRe _); [reflexivity | now rewrite app_nil_r].
Qed.

Lemma extract_fold (text : jsstring) (names : list jsstring) (acc : list ProductQuote) :
  fold_left (extractProduct text) names acc
  = acc ++ flat_map (extractProduct text []) names.
Proof.
  revert acc; induction names as [|n names IH]; intros acc; simpl.
  - now rewrite app_nil_r.
  - rewrite IH, extractProduct_app. now rewrite <- app_assoc.
Qed.

Lemma extractProductsFromText_flat_map (text : jsstring) (names : list jsstring) :
  extractProductsFromText text names = flat_map (extractProduct text []) names.
Proof. unfold extractProductsFromText. now rewrite extract_fold. Qed.

(** What one turn of the loop yields: nothing, or one quote under the
    name of the turn. *)
Lemma extractProduct_cases (text n : jsstring) :
  (extractProduct text [] n = [] /\
   ~ exists i, first_occurrence text n i /\ yearly_price_in (window text i))
  \/
  (exists q i g, extractProduct text [] n = [q] /\ name q = n /\
     first_occurrence text n i /\ yearly_price_in (window text i) /\
     exec yearlyRe (window text i) = Some g /\ yearlyPrice q = dollar g /\
     monthlyPrice q = orNA (exec monthlyRe (window text i)) /\
     totalOver12Months q = orNA (exec totalRe (window text i)) /\
     yearlySaving q = option_map dollar (exec savingRe (window text i)) /\
     features q = []).
Proof.
  unfold extractProduct.
  destruct (indexOf_from_spec text n 0) as [[H1 H2] | (j & H1 & H2)];
    fold (indexOf text n) in H1.
  - left. rewrite H1. simpl. split; [reflexivity|].
    intros (i & [Hi _] & _). now apply (H2 i).
  - simpl in H1. rewrite H1.
    replace (Z.of_nat j =? -1) with false by (symmetry; apply Z.eqb_neq; lia).
    rewrite substring_window by (apply occurs_at_bound with (p := n); apply H2).
    destruct (exec yearlyRe (window text j)) as [g|] eqn:E.
    + right. eexists _, j, g. simpl.
      repeat split; try reflexivity; try apply H2; try exact E.
      apply exec_yearly. congruence.
    + left. split; [reflexivity|].
      intros (i & Hi & Hy). rewrite (first_occurrence_unique Hi H2) in Hy.
      apply exec_yearly in Hy. contradiction.
Qed.

End ExtractionFacts.

(** C5.  For every product name and every page text, a quote under that
    name is emitted if and only if the name is one of the requested names,
    it occurs in the text, and a yearly price is found in the 500 code
    units that start at its first occurrence.  Otherwise nothing is emitted
    under that name: every emitted quote carries the yearly price that was
    found. *)
Theorem extractProductsFromText_emits
        (text : jsstring) (productNames : list jsstring) (n : jsstring) :
  ((exists q, In q (extractProductsFromText text productNames) /\ name q = n) <->
   (In n productNames /\
    exists i, first_occurrence text n i /\ yearly_price_in (window text i)))
  /\
  (forall q, In q (extractProductsFromText text productNames) ->
     In (name q) productNames /\
     exists i g, first_occurrence text (name q) i /\
                 exec yearlyRe (window text i) = Some g /\
                 yearlyPrice q = dollar g).
Proof.
  rewrite ExtractionFacts.extractProductsFromText_flat_map.
  assert (Hq : forall q, In q (flat_map (extractProduct text []) productNames) ->
     In (name q) productNames /\
     exists i g, first_occurrence text (name q) i /\
                 yearly_price_in (window text i) /\
                 exec yearlyRe (window text i) = Some g /\
                 yearlyPrice q = dollar g).
  { intros q Hin. apply in_flat_map in Hin as (m & Hm & Hin).
    destruct (ExtractionFacts.extractProduct_cases text m)
      as [[E _] | (q' & i & g & E & Hn & Hi & Hy & Hg & Hp & _)];
      rewrite E in Hin; [contradiction|].
    destruct Hin as [<- | []]. rewrite Hn. split; [exact Hm|].
    now exists i, g. }
  split; [split|].
  - intros (q & Hin & <-). destruct (Hq q Hin) as (Hm & i & g & Hi & Hy & _).
    split; [exact Hm|]. now exists i.
  - intros (Hin & i & Hi & Hy).
    destruct (ExtractionFacts.extractProduct_cases text n)
      as [[_ E] | (q & _ & _ & E & Hn & _)].
    + exfalso. apply E. now exists i.
    + exists q. split; [|exact Hn]. apply in_flat_map. exists n.
      split; [exact Hin|]. rewrite E. now left.
  - intros q Hin. destruct (Hq q Hin) as (Hm & i & g & Hi & _ & Hg & Hp).
    split; [exact Hm|]. now exists i, g.
Qed.

Lemma extract_prog_run (S : Type) (text : jsstring) (names : list jsstring) (s : S) :
  extractProductsFromText_prog text names s
  = (Ok (extractProductsFromText text names), s).
Proof.
  unfold extractProductsFromText_prog, extractProductsFromText, bind, ret.
  generalize (@nil ProductQuote) as acc.
  induction names as [|n names IH]; intros acc; simpl; [reflexivity|].
  apply IH.
Qed.

(** C7.  The extraction stage is a function of the page text alone: texts
    equal code unit by code unit give the same quotes, and run as a step of
    a program, from any state, it returns that value and leaves the state as
    it was. *)
Theorem extraction_is_pure
        (S : Type) (text1 text2 : jsstring) (names : list jsstring) (s1 s2 : S) :
  JS.eqb text1 text2 = true ->
  extractProductsFromText text1 names = extractProductsFromText text2 names /\
  extractProductsFromText_prog text1 names s1
    = (Ok (extractProductsFromText text1 names), s1) /\
  extractProductsFromText_prog text2 names s2
    = (Ok (extractProductsFromText text1 names), s2).
Proof.
  intros H. apply JSFacts.eqb_eq in H. subst text2.
  rewrite !extract_prog_run. auto.
Qed.

(** ** Where the four patterns find their first match on a quote card *)

Module CardFacts.
Import JSFacts RegexFacts.

Lemma matchHere_first (re : regex) (p : char -> bool) (r0 : list atom)
      (c : char) (s : jsstring) :
  pre re = Atom p One :: r0 -> p c = false -> matchHere re (c :: s) = None.
Proof.
  intros Hpre Hc. unfold matchHere. rewrite Hpre. cbn [matchAtoms rep cls].
  now rewrite Hc.
Qed.

Lemma matchHere_second (re : regex) (p q : char -> bool) (r0 : list atom)
      (c d : char) (s : jsstring) :
  pre re = Atom p One :: Atom q One :: r0 -> q d = false ->
  matchHere re (c :: d :: s) = None.
Proof.
  intros Hpre Hd. unfold matchHere. rewrite Hpre. cbn [matchAtoms rep cls].
  destruct (p c); [|reflexivity]. now rewrite Hd.
Qed.

Lemma exec_skip_prefix (re : regex) (a s : jsstring) :
  (forall a1 c a2, a = a1 ++ c :: a2 -> matchHere re (c :: a2 ++ s) = None) ->
  exec re (a ++ s) = exec re s.
Proof.
  induction a as [|c a IH]; intros H; [reflexivity|].
  change ((c :: a) ++ s) with (c :: a ++ s).
  rewrite exec_skip by (apply (H [] c a); reflexivity).
  apply IH. intros a1 d a2 E. apply (H (c :: a1) d a2). now rewrite E.
Qed.

(** Patterns that begin with one given character start no match at any
    other. *)
Lemma exec_skip_others (re : regex) (h : char) (r0 : list atom) (a s : jsstring) :
  pre re = Atom (only h) One :: r0 -> ~ In h a ->
  exec re (a ++ s) = exec re s.
Proof.
  intros Hpre Ha. apply exec_skip_prefix. intros a1 c a2 E.
  apply matchHere_first with (p := only h) (r0 := r0); [exact Hpre|].
  unfold only. apply N.eqb_neq.
  intros <-. apply Ha. rewrite E. apply in_or_app. right. now left.
Qed.

Lemma dollar_free_app (a b : jsstring) :
  dollar_free a -> dollar_free b -> dollar_free (a ++ b).
Proof.
  unfold dollar_free. intros Ha Hb H. apply in_app_or in H. tauto.
Qed.

(** The total pattern begins with an opening parenthesis and a dollar
    sign. *)
Lemma exec_total_skip (a s : jsstring) :
  dollar_free a -> matchHere totalRe (40%N :: s) = None ->
  exec totalRe (a ++ s) = exec totalRe s.
Proof.
  intros Ha Hs. induction a as [|c a IH]; [reflexivity|].
  assert (Ha' : dollar_free a) by (intros H; apply Ha; now right).
  change ((c :: a) ++ s) with (c :: a ++ s).
  rewrite exec_skip; [now apply IH|].
  destruct a as [|d a].
  - simpl. destruct (N.eqb_spec 40 c) as [<- | Hc]; [exact Hs|].
    apply matchHere_first with (p := only 40%N) (r0 := chars "$"); [reflexivity|].
    unfold only. now apply N.eqb_neq.
  - apply matchHere_second with (p := only 40%N) (q := only 36%N) (r0 := []);
      [reflexivity|].
    unfold only. apply N.eqb_neq. intros <-. apply Ha. right. now left.
Qed.

(** The saving pattern begins with Save, a space and a dollar sign. *)
Lemma matchHere_saving_prefix (s g : jsstring) :
  matchHere savingRe s = Some g -> exists rest, s = lit "Save $" ++ rest.
Proof.
  intros H. apply matchHere_sound in H as (m1 & m3 & rest & -> & H1 & _ & _).
  apply (accepts_chars (lit "Save $")) in H1. subst m1. eauto.
Qed.

Lemma exec_saving_skip (g s : jsstring) (h : char) (t : jsstring) :
  dollar_free g -> s = h :: t ->
  (h = 36%N -> ~ ends_with g (lit "Save ")) ->
  h <> 97%N -> h <> 118%N -> h <> 101%N -> h <> 32%N ->
  exec savingRe (g ++ s) = exec savingRe s.
Proof.
  intros Hg -> Hend Ha Hv He Hsp. apply exec_skip_prefix. intros a1 c a2 E.
  destruct (matchHere savingRe (c :: a2 ++ h :: t)) as [x|] eqn:M; [|reflexivity].
  exfalso. apply matchHere_saving_prefix in M as [rest M].
  assert (Hin : forall d, In d a2 -> d <> 36%N).
  { intros d Hd ->. apply Hg. rewrite E. apply in_or_app. right. now right. }
  destruct a2 as [|c1 [|c2 [|c3 [|c4 [|c5 a2]]]]]; simpl in M; injection M; intros; subst.
  - now apply Ha.
  - now apply Hv.
  - now apply He.
  - now apply Hsp.
  - apply Hend; [reflexivity|]. now exists a1.
  - apply (Hin 36%N); [|reflexivity]. simpl. tauto.
Qed.

End CardFacts.

Module CardRuns.
Import JSFacts RegexFacts CardFacts.

Lemma dollar_free_COMPREHENSIVE : dollar_free COMPREHENSIVE.
Proof. unfold dollar_free. vm_compute. intuition discriminate. Qed.

Lemma yearly_on_card (g1 R : jsstring) :
  dollar_free g1 ->
  exec yearlyRe (COMPREHENSIVE ++ g1 ++ YEARLY ++ R) = Some (lit "120.50").
Proof.
  intros H1. rewrite app_assoc.
  rewrite exec_skip_others with (h := 36%N) (r0 := [])
    by (reflexivity || (apply dollar_free_app; [apply dollar_free_COMPREHENSIVE | exact H1])).
  apply exec_here. reflexivity.
Qed.

Lemma monthly_on_card (g1 g2 R : jsstring) :
  dollar_free g1 -> dollar_free g2 ->
  exec monthlyRe (COMPREHENSIVE ++ g1 ++ YEARLY ++ g2 ++ MONTHLY ++ R)
  = Some (lit "10.50").
Proof.
  intros H1 H2. rewrite app_assoc.
  rewrite exec_skip_others with (h := 36%N) (r0 := [])
    by (reflexivity || (apply dollar_free_app; [apply dollar_free_COMPREHENSIVE | exact H1])).
  change YEARLY with (36%N :: lit "120.50/Yearly").
  rewrite <- app_comm_cons. rewrite exec_skip by reflexivity.
  rewrite app_assoc.
  rewrite exec_skip_others with (h := 36%N) (r0 := []).
  - apply exec_here. reflexivity.
  - reflexivity.
  - apply dollar_free_app; [|exact H2]. unfold dollar_free. vm_compute.
    intuition discriminate.
Qed.

Ltac no_such_char := unfold dollar_free; vm_compute; intuition discriminate.

Lemma total_on_card (g1 g2 g3 R : jsstring) :
  dollar_free g1 -> dollar_free g2 -> dollar_free g3 ->
  exec totalRe (COMPREHENSIVE ++ g1 ++ YEARLY ++ g2 ++ MONTHLY ++ g3 ++ TOTAL ++ R)
  = Some (lit "120.50").
Proof.
  intros H1 H2 H3. rewrite app_assoc.
  rewrite exec_total_skip;
    [| apply dollar_free_app; [apply dollar_free_COMPREHENSIVE | exact H1]
     | reflexivity].
  change YEARLY with (36%N :: lit "120.50/Yearly").
  rewrite <- app_comm_cons. rewrite exec_skip by reflexivity.
  rewrite app_assoc.
  rewrite exec_total_skip;
    [| apply dollar_free_app; [no_such_char | exact H2] | reflexivity].
  change MONTHLY with (36%N :: lit "10.50/Monthly").
  rewrite <- app_comm_cons. rewrite exec_skip by reflexivity.
  rewrite app_assoc.
  rewrite exec_total_skip;
    [| apply dollar_free_app; [no_such_char | exact H3] | reflexivity].
  apply exec_here. reflexivity.
Qed.

Lemma saving_here (after : jsstring) :
  no_digit_ahead after ->
  matchHere savingRe (SAVING ++ after) = Some (lit "15.00").
Proof.
  intros H. destruct after as [|c rest]; [reflexivity|].
  specialize (H c rest eq_refl).
  unfold matchHere. cbn -[digit]. now rewrite H.
Qed.

Lemma saving_on_card (g1 g2 g3 g4 after : jsstring) :
  dollar_free g1 -> dollar_free g2 -> dollar_free g3 -> dollar_free g4 ->
  ~ ends_with g1 (lit "Save ") -> ~ ends_with g2 (lit "Save ") ->
  no_digit_ahead after ->
  exec savingRe (COMPREHENSIVE ++ g1 ++ YEARLY ++ g2 ++ MONTHLY ++ g3 ++ TOTAL
                 ++ g4 ++ SAVING ++ after)
  = Some (lit "15.00").
Proof.
  intros H1 H2 H3 H4 E1 E2 Hafter.
  rewrite exec_skip_others with (h := 83%N) (r0 := chars "ave $");
    [| reflexivity | no_such_char].
  rewrite exec_saving_skip with (h := 36%N) (t := lit "120.50/Yearly" ++ g2 ++ MONTHLY
      ++ g3 ++ TOTAL ++ g4 ++ SAVING ++ after);
    [| exact H1 | reflexivity | intros _; exact E1 | discriminate ..].
  rewrite exec_skip_others with (h := 83%N) (r0 := chars "ave $");
    [| reflexivity | no_such_char].
  rewrite exec_saving_skip with (h := 36%N) (t := lit "10.50/Monthly"
      ++ g3 ++ TOTAL ++ g4 ++ SAVING ++ after);
    [| exact H2 | reflexivity | intros _; exact E2 | discriminate ..].
  rewrite exec_skip_others with (h := 83%N) (r0 := chars "ave $");
    [| reflexivity | no_such_char].
  rewrite exec_saving_skip with (h := 40%N) (t := lit "$120.50 over 12 months)"
      ++ g4 ++ SAVING ++ after);
    [| exact H3 | reflexivity | discriminate ..].
  rewrite exec_skip_others with (h := 83%N) (r0 := chars "ave $");
    [| reflexivity | no_such_char].
  rewrite exec_saving_skip with (h := 83%N) (t := lit "ave $15.00" ++ after);
    [| exact H4 | reflexivity | discriminate ..].
  apply exec_here. now apply saving_here.
Qed.

End CardRuns.

Lemma window_card (before g1 g2 g3 g4 after : jsstring) :
  (List.length (card g1 g2 g3 g4) <= 500)%nat ->
  exists after',
    window (before ++ card g1 g2 g3 g4 ++ after) (List.length before)
    = card g1 g2 g3 g4 ++ after' /\
    (no_digit_ahead after -> no_digit_ahead after').
Proof.
  intros Hlen. unfold window.
  rewrite skipn_app, skipn_all, Nat.sub_diag.
  change (skipn 0 (card g1 g2 g3 g4 ++ after)) with (card g1 g2 g3 g4 ++ after).
  rewrite app_nil_l, firstn_app.
  exists (firstn (500 - List.length (card g1 g2 g3 g4)) after). split.
  - f_equal. now apply firstn_all2.
  - intros H c rest E. destruct after as [|d after]; [now rewrite firstn_nil in E|].
    destruct (500 - List.length (card g1 g2 g3 g4))%nat; [discriminate|].
    simpl in E. injection E as -> _. now apply (H c after).
Qed.

(** C6, as the code has it.  When the first occurrence of the name is
    followed, within the 500 code units, by the four fragments in their
    order, the text between them holds no dollar sign, the text before the
    yearly and the monthly fragment does not end in the word Save and a
    space, and no digit follows the last fragment, the quote of the example
    is among the quotes extracted. *)
Theorem card_is_extracted
        (before g1 g2 g3 g4 after : jsstring) (names : list jsstring) :
  first_occurrence (before ++ card g1 g2 g3 g4 ++ after) COMPREHENSIVE
                   (List.length before) ->
  (List.length (card g1 g2 g3 g4) <= 500)%nat ->
  dollar_free g1 -> dollar_free g2 -> dollar_free g3 -> dollar_free g4 ->
  ~ ends_with g1 (lit "Save ") -> ~ ends_with g2 (lit "Save ") ->
  no_digit_ahead after ->
  In COMPREHENSIVE names ->
  In cardQuote (extractProductsFromText (before ++ card g1 g2 g3 g4 ++ after) names).
Proof.
  intros Hfirst Hlen H1 H2 H3 H4 E1 E2 Hafter Hin.
  rewrite ExtractionFacts.extractProductsFromText_flat_map.
  apply in_flat_map. exists COMPREHENSIVE. split; [exact Hin|].
  destruct (window_card before after Hlen) as (after' & Hw & Hd).
  specialize (Hd Hafter).
  assert (Hy : exec yearlyRe (card g1 g2 g3 g4 ++ after') = Some (lit "120.50")).
  { unfold card. rewrite <- !app_assoc. now apply CardRuns.yearly_on_card. }
  assert (Hm : exec monthlyRe (card g1 g2 g3 g4 ++ after') = Some (lit "10.50")).
  { unfold card. rewrite <- !app_assoc. now apply CardRuns.monthly_on_card. }
  assert (Ht : exec totalRe (card g1 g2 g3 g4 ++ after') = Some (lit "120.50")).
  { unfold card. rewrite <- !app_assoc. now apply CardRuns.total_on_card. }
  assert (Hs : exec savingRe (card g1 g2 g3 g4 ++ after') = Some (lit "15.00")).
  { unfold card. rewrite <- !app_assoc. now apply CardRuns.saving_on_card. }
  destruct (ExtractionFacts.extractProduct_cases
              (before ++ card g1 g2 g3 g4 ++ after) COMPREHENSIVE)
    as [[_ E] | (q & i & g & E & Hn & Hi & _ & Hg & Hp & Hmo & Hto & Hsa & Hfe)].
  - exfalso. apply E. exists (List.length before). split; [exact Hfirst|].
    apply RegexFacts.exec_yearly. rewrite Hw, Hy. discriminate.
  - rewrite E. left.
    rewrite (JSFacts.first_occurrence_unique Hi Hfirst) in *.
    rewrite Hw in *. rewrite Hy in Hg. injection Hg as <-.
    rewrite Hm in Hmo. rewrite Ht in Hto. rewrite Hs in Hsa.
    destruct q; simpl in *. subst. reflexivity.
Qed.

(** C6 as stated fails: a text that holds the name and the four fragments
    within the window, where an earlier yearly price is the one found. *)
Lemma card_first_price_wins :
  holds_card crowdedText /\
  ~ In cardQuote
       (extractProductsFromText crowdedText [lit "Comprehensive"; lit "Complete Care"]).
Proof.
  split.
  - exists [], (lit " $99/Yearly "), (lit " "), (lit " "), (lit " "), [].
    split; [reflexivity | vm_compute; lia].
  - vm_compute. intros [H | []]. discriminate H.
Qed.

(** ** The session store *)

Module StoreFacts.
Import JSFacts.

Lemma get_delete_same (m : Store) (k : jsstring) : Map_get (Map_delete m k) k = None.
Proof.
  induction m as [|[k' v] m IH]; simpl; [reflexivity|].
  destruct (JS.eqb k' k) eqn:E; [exact IH|]. simpl. now rewrite E.
Qed.

Lemma get_delete_other (m : Store) (k k' : jsstring) :
  k' <> k -> Map_get (Map_delete m k) k' = Map_get m k'.
Proof.
  intros Hk. induction m as [|[j v] m IH]; simpl; [reflexivity|].
  destruct (JS.eqb j k) eqn:E.
  - apply eqb_eq in E. subst j.
    replace (JS.eqb k k') with false; [exact IH|].
    symmetry. apply eqb_neq. congruence.
  - simpl. now rewrite IH.
Qed.

Lemma delete_absent (m : Store) (k : jsstring) :
  Map_get m k = None -> Map_delete m k = m.
Proof.
  induction m as [|[j v] m IH]; simpl; [reflexivity|].
  destruct (JS.eqb j k); [discriminate|]. intros H. now rewrite IH.
Qed.

Lemma get_alter_same (f : QuoteSession -> QuoteSession) (m : Store)
      (k : jsstring) (s : QuoteSession) :
  Map_get m k = Some s -> Map_get (Map_alter f m k) k = Some (f s).
Proof.
  induction m as [|[j v] m IH]; simpl; [discriminate|].
  destruct (JS.eqb j k) eqn:E; simpl; rewrite E.
  - intros H; injection H as ->. reflexivity.
  - exact IH.
Qed.

Lemma get_alter_other (f : QuoteSession -> QuoteSession) (m : Store) (k k' : jsstring) :
  k' <> k -> Map_get (Map_alter f m k) k' = Map_get m k'.
Proof.
  intros Hk. induction m as [|[j v] m IH]; simpl; [reflexivity|].
  destruct (JS.eqb j k) eqn:E; simpl.
  - apply eqb_eq in E. subst j.
    replace (JS.eqb k k') with false; [reflexivity|].
    symmetry. apply eqb_neq. congruence.
  - now rewrite IH.
Qed.

Lemma get_set_same (m : Store) (k : jsstring) (v : QuoteSession) :
  Map_get (Map_set m k v) k = Some v.
Proof.
  induction m as [|[j u] m IH]; simpl.
  - now rewrite eqb_refl.
  - destruct (JS.eqb j k) eqn:E; simpl; rewrite E; [reflexivity | exact IH].
Qed.

Lemma delete_set_fresh (m : Store) (k : jsstring) (v : QuoteSession) :
  Map_get m k = None -> Map_delete (Map_set m k v) k = m.
Proof.
  induction m as [|[j u] m IH]; simpl.
  - now rewrite eqb_refl.
  - destruct (JS.eqb j k) eqn:E; [discriminate|]. simpl. rewrite E.
    intros H. now rewrite IH.
Qed.

Lemma get_in (m : Store) (k : jsstring) (s : QuoteSession) :
  Map_get m k = Some s -> In (k, s) m.
Proof.
  induction m as [|[j u] m IH]; simpl; [discriminate|].
  destruct (JS.eqb j k) eqn:E.
  - apply eqb_eq in E. intros H; injection H as ->. left. now subst.
  - intros H. right. now apply IH.
Qed.

End StoreFacts.

(** ** session-manager.ts *)

Module SessionFacts.
Import JSFacts StoreFacts.

Lemma destroySession_absent (O : Oracle) (sessionId : jsstring) (w : Server) :
  Map_get (sessions w) sessionId = None ->
  destroySession O sessionId w = (Ok tt, w).
Proof.
  intros H. unfold destroySession, bind, gets. now rewrite H.
Qed.

Lemma destroySession_present (O : Oracle) (sessionId : jsstring) (w : Server)
      (s : QuoteSession) :
  Map_get (sessions w) sessionId = Some s ->
  destroySession O sessionId w
  = (Ok tt, {| sessions := Map_delete (sessions w) sessionId;
               ext := teardown O s (ext w) |}).
Proof.
  intros H.
  unfold destroySession, bind, gets, try_catch, lift, extern, onSessions, modify,
    ret, teardown.
  rewrite H. simpl.
  destruct (rejects O (tick (ext w))); simpl; [reflexivity|].
  destruct (rejects O (S (tick (ext w)))); reflexivity.
Qed.

Lemma getSession_absent (sessionId : jsstring) (w : Server) :
  Map_get (sessions w) sessionId = None ->
  getSession sessionId w = (Ok None, w).
Proof.
  intros H. unfold getSession, bind, gets. now rewrite H.
Qed.

Lemma getSession_present (sessionId : jsstring) (w : Server) (s : QuoteSession) :
  Map_get (sessions w) sessionId = Some s ->
  getSession sessionId w
  = (Ok (Some (set_lastActivity (clock (ext w)) s)),
     {| sessions := Map_alter (set_lastActivity (clock (ext w))) (sessions w) sessionId;
        ext := ext w |}).
Proof.
  intros H. unfold getSession, bind, gets, lift, Date_now, onSessions, modify, ret.
  now rewrite H.
Qed.

Lemma updateSessionState_present (sessionId : jsstring) (st : QuoteState)
      (w : Server) (s : QuoteSession) :
  Map_get (sessions w) sessionId = Some s ->
  updateSessionState sessionId st w
  = (Ok tt,
     {| sessions := Map_alter (fun s => set_lastActivity (clock (ext w)) (set_state st s))
                              (sessions w) sessionId;
        ext := ext w |}).
Proof.
  intros H. unfold updateSessionState, bind, gets, lift, Date_now, onSessions, modify.
  now rewrite H.
Qed.

Lemma updateSessionState_absent (sessionId : jsstring) (st : QuoteState) (w : Server) :
  Map_get (sessions w) sessionId = None ->
  updateSessionState sessionId st w = (Ok tt, w).
Proof.
  intros H. unfold updateSessionState, bind, gets. now rewrite H.
Qed.

End SessionFacts.

(** C1.  For every session id, [destroySession] completes, after it
    [getSession] on that id returns absent, and a second [destroySession]
    on that id returns normally and leaves the whole state as it was: the
    store, and the record of what was asked of the browser. *)
Theorem destroySession_idempotent (O : Oracle) (sessionId : jsstring) (w : Server) :
  exists w1,
    destroySession O sessionId w = (Ok tt, w1) /\
    getSession sessionId w1 = (Ok None, w1) /\
    destroySession O sessionId w1 = (Ok tt, w1).
Proof.
  destruct (Map_get (sessions w) sessionId) as [s|] eqn:H.
  - eexists. split; [apply SessionFacts.destroySession_present; exact H|].
    split.
    + apply SessionFacts.getSession_absent. apply StoreFacts.get_delete_same.
    + apply SessionFacts.destroySession_absent. apply StoreFacts.get_delete_same.
  - exists w. split; [now apply SessionFacts.destroySession_absent|].
    split.
    + now apply SessionFacts.getSession_absent.
    + now apply SessionFacts.destroySession_absent.
Qed.

(** C10.  For a registered session id, [destroySession] returns normally
    and removes the entry whether or not the teardown is rejected; when
    closing the context is rejected, closing the browser is not asked for:
    the only call made is the one that closes the context. *)
Theorem destroySession_swallows_teardown_errors
        (O : Oracle) (sessionId : jsstring) (w : Server) (s : QuoteSession) :
  Map_get (sessions w) sessionId = Some s ->
  exists w1 evs,
    destroySession O sessionId w = (Ok tt, w1) /\
    sessions w1 = Map_delete (sessions w) sessionId /\
    Map_get (sessions w1) sessionId = None /\
    trace (ext w1) = trace (ext w) ++ evs /\
    (rejects O (tick (ext w)) <> None ->
       evs = [EvContextClose (context s)] /\
       forall b, ~ In (EvBrowserClose b) evs) /\
    (rejects O (tick (ext w)) = None ->
       evs = [EvContextClose (context s); EvBrowserClose (browser s)]).
Proof.
  intros H.
  exists {| sessions := Map_delete (sessions w) sessionId;
            ext := teardown O s (ext w) |}.
  exists (match rejects O (tick (ext w)) with
          | Some _ => [EvContextClose (context s)]
          | None => [EvContextClose (context s); EvBrowserClose (browser s)]
          end).
  split; [apply SessionFacts.destroySession_present; exact H|].
  simpl. split; [reflexivity|]. split; [apply StoreFacts.get_delete_same|].
  unfold teardown.
  destruct (rejects O (tick (ext w))) as [e|]; simpl.
  - split; [reflexivity|]. split; [|discriminate].
    intros _. split; [reflexivity|]. intros b [E | []]. discriminate E.
  - split; [now rewrite <- app_assoc|]. split; [intros E; now contradiction E|].
    reflexivity.
Qed.

(** C4 as stated fails: [updateSessionState] on an existing session
    moves [lastActivity] to the current time. *)
Lemma updateSessionState_refreshes_lastActivity :
  ~ (forall (sessionId : jsstring) (st : QuoteState) (w : Server) (s : QuoteSession),
       Map_get (sessions w) sessionId = Some s ->
       option_map lastActivity
         (Map_get (sessions (snd (updateSessionState sessionId st w))) sessionId)
       = Some (lastActivity s)).
Proof.
  intros H.
  specialize (H (lit "s1") car_found twoSessions session1 eq_refl).
  vm_compute in H. discriminate H.
Qed.

(** C4, as the code has it.  On a present id [getSession] sets
    [lastActivity] to the current time and nothing else; so does
    [updateSessionState], together with the state.  Both leave every other
    session as it was, and so do [destroySession] of another id and
    [getActiveSessions]. *)
Theorem lastActivity_refreshed_by_get_and_update
        (sessionId : jsstring) (w : Server) (s : QuoteSession) :
  Map_get (sessions w) sessionId = Some s ->
  let now := clock (ext w) in
  (exists w1,
     getSession sessionId w = (Ok (Some (set_lastActivity now s)), w1) /\
     Map_get (sessions w1) sessionId = Some (set_lastActivity now s) /\
     ext w1 = ext w /\
     forall other, other <> sessionId ->
       Map_get (sessions w1) other = Map_get (sessions w) other) /\
  (forall st, exists w1,
     updateSessionState sessionId st w = (Ok tt, w1) /\
     Map_get (sessions w1) sessionId = Some (set_lastActivity now (set_state st s)) /\
     ext w1 = ext w /\
     forall other, other <> sessionId ->
       Map_get (sessions w1) other = Map_get (sessions w) other) /\
  (forall O other, other <> sessionId ->
     Map_get (sessions (snd (destroySession O other w))) sessionId = Some s) /\
  getActiveSessions w = (Ok (List.length (sessions w)), w).
Proof.
  intros H now. repeat split.
  - eexists. split; [apply SessionFacts.getSession_present; exact H|].
    simpl. split; [apply StoreFacts.get_alter_same; exact H|].
    split; [reflexivity|].
    intros other Ho. now apply StoreFacts.get_alter_other.
  - intros st. eexists.
    split; [apply SessionFacts.updateSessionState_present with (s := s); exact H|].
    simpl. split.
    + now rewrite StoreFacts.get_alter_same with (s := s).
    + split; [reflexivity|].
      intros other Ho. now apply StoreFacts.get_alter_other.
  - intros O other Ho.
    destruct (Map_get (sessions w) other) as [s'|] eqn:E.
    + rewrite SessionFacts.destroySession_present with (s := s') by exact E.
      simpl. rewrite StoreFacts.get_delete_other; [exact H | congruence].
    + now rewrite SessionFacts.destroySession_absent.
Qed.

(** ** The tool handlers *)

Module HandlerFacts.
Import JSFacts StoreFacts SessionFacts.

(** [createSession] either registers the session it returns, after the
    four calls of [launchBrowser], or throws and leaves the store alone. *)
Lemma createSession_cases (O : Oracle) (w : Server) :
  (exists session w1,
     createSession O w = (Ok session, w1) /\
     sessions w1 = Map_set (sessions w) (id session) session /\
     trace (ext w1)
     = trace (ext w) ++ [EvLaunch (browser session);
                         EvNewContext (browser session) (context session);
                         EvInitScript (context session);
                         EvNewPage (context session) (page session)])
  \/
  (exists e w1,
     createSession O w = (Throw e, w1) /\ sessions w1 = sessions w).
Proof.
  unfold createSession, launchBrowser, bind, lift, extern, uuid_v4, Date_now,
    onSessions, modify, gets, ret.
  simpl.
  destruct (rejects O (tick (ext w))) eqn:R0; simpl; [right; eauto|].
  destruct (rejects O (S (tick (ext w)))) eqn:R1; simpl; [right; eauto|].
  destruct (rejects O (S (S (tick (ext w))))) eqn:R2; simpl; [right; eauto|].
  destruct (rejects O (S (S (S (tick (ext w)))))) eqn:R3; simpl; [right; eauto|].
  left. eexists _, _. split; [reflexivity|]. simpl. split; [reflexivity|].
  now rewrite <- !app_assoc.
Qed.

Lemma findCar_neither (O : Oracle) (F : Steps) (a : StartArgs) (session : QuoteSession) :
  neither a = true ->
  findCar O F a session = (destroySession O (id session) ;; ret needCar).
Proof.
  unfold neither, findCar. intros H. apply andb_true_iff in H as [H1 H2].
  apply negb_true_iff in H1, H2. now rewrite H1, H2.
Qed.

End HandlerFacts.

(** C3 as stated fails: called with no argument at all, [start_quote]
    launches a browser and registers a session before it reports the
    error. *)
Lemma start_quote_launches_first :
  neither noArgs = true /\
  trace (ext empty) = [] /\
  In (EvLaunch 0%nat)
     (trace (ext (snd (Server001.start_quote quiet (steps quiet) noArgs empty)))) /\
  In (EvLaunch 0%nat)
     (trace (ext (snd (Server000.start_quote quiet (steps quiet) noArgs empty)))) /\
  Map_get (sessions empty) (lit "7f1c") = None /\
  option_map id (Map_get (sessions (snd (createSession quiet empty))) (lit "7f1c"))
  = Some (lit "7f1c").
Proof.
  split; [reflexivity|]. split; [reflexivity|].
  split; [vm_compute; tauto|]. split; [vm_compute; tauto|].
  split; reflexivity.
Qed.

(** C3, as the code has it.  Called with neither way of naming the car,
    [start_quote] first creates a session: a browser is launched and the
    session is registered.  It then destroys that session and reports the
    error: the context of the session is asked to close, then its browser
    unless closing the context was rejected, and nothing else is asked;
    the session is absent afterwards and, its id being new, the store is
    as before the call.  When the browser cannot be launched the store is
    untouched and an error is reported. *)
Theorem start_quote_without_car
        (O : Oracle) (F : Steps) (a : StartArgs) (w : Server) :
  neither a = true ->
  (forall session w1,
     createSession O w = (Ok session, w1) ->
     exists w2,
       Server001.start_quote O F a w = (Ok needCar, w2) /\
       Server000.start_quote O F a w = (Ok needCar, w2) /\
       Map_get (sessions w1) (id session) = Some session /\
       In (EvLaunch (browser session)) (trace (ext w2)) /\
       In (EvContextClose (context session)) (trace (ext w2)) /\
       trace (ext w2)
       = trace (ext w1)
         ++ EvContextClose (context session)
            :: match rejects O (tick (ext w1)) with
               | None => [EvBrowserClose (browser session)]
               | Some _ => []
               end /\
       Map_get (sessions w2) (id session) = None /\
       (Map_get (sessions w) (id session) = None -> sessions w2 = sessions w)) /\
  (forall e w1,
     createSession O w = (Throw e, w1) ->
     exists r1 r0,
       Server001.start_quote O F a w = (Ok r1, w1) /\
       Server000.start_quote O F a w = (Ok r0, w1) /\
       isError r1 = true /\ isError r0 = true /\
       sessions w1 = sessions w).
Proof.
  intros Hn. split.
  - intros session w1 Hc.
    destruct (HandlerFacts.createSession_cases O w)
      as [(s' & w' & Hc' & Hs & Ht) | (e & w' & Hc' & _)];
      rewrite Hc in Hc'; [injection Hc' as <- <- | discriminate].
    assert (Hg : Map_get (sessions w1) (id session) = Some session)
      by (rewrite Hs; apply StoreFacts.get_set_same).
    exists {| sessions := Map_delete (sessions w1) (id session);
              ext := teardown O session (ext w1) |}.
    assert (Hrun : (destroySession O (id session) ;; ret needCar) w1
                   = (Ok needCar,
                      {| sessions := Map_delete (sessions w1) (id session);
                         ext := teardown O session (ext w1) |})).
    { unfold bind. rewrite SessionFacts.destroySession_present with (s := session)
        by exact Hg. reflexivity. }
    repeat split.
    + unfold Server001.start_quote, try_from, try_catch. rewrite Hc.
      rewrite HandlerFacts.findCar_neither by exact Hn. now rewrite Hrun.
    + unfold Server000.start_quote, try_catch, bind at 1. rewrite Hc.
      rewrite HandlerFacts.findCar_neither by exact Hn. now rewrite Hrun.
    + exact Hg.
    + simpl. unfold teardown.
      destruct (rejects O (tick (ext w1))); simpl; rewrite Ht;
        rewrite !in_app_iff; simpl; tauto.
    + simpl. unfold teardown.
      destruct (rejects O (tick (ext w1))); simpl;
        rewrite !in_app_iff; simpl; tauto.
    + simpl. unfold teardown.
      destruct (rejects O (tick (ext w1))); simpl;
        [reflexivity | now rewrite <- app_assoc].
    + simpl. apply StoreFacts.get_delete_same.
    + intros Hfresh. simpl. rewrite Hs. now apply StoreFacts.delete_set_fresh.
  - intros e w1 Hc.
    destruct (HandlerFacts.createSession_cases O w)
      as [(s' & w' & Hc' & _) | (e' & w' & Hc' & Hs)];
      rewrite Hc in Hc'; [discriminate | injection Hc' as <- <-].
    eexists _, _. repeat split.
    + unfold Server001.start_quote, try_from. rewrite Hc.
      unfold Server001.startFailed, bind, ret. simpl. reflexivity.
    + unfold Server000.start_quote, try_catch, bind. rewrite Hc.
      unfold Server000.startFailed, ret. reflexivity.
    + reflexivity.
    + reflexivity.
    + exact Hs.
Qed.

(** In the handler file whose [catch] blocks destroy the session
    (part_001), a failure raised inside any of the three steps ends with
    the error reported and the session gone: its browser has been asked to
    close and [getSession] returns absent. *)
Theorem step_failure_destroys_session
        (O : Oracle) (F : Steps) (c : StepCall) (w : Server) (s : QuoteSession)
        (e : option jsstring) (x : Ext) :
  Map_get (sessions w) (sessionOf c) = Some s ->
  stepFlow F c (page s) (ext w) = (Throw e, x) ->
  exists r w1,
    Server001.callTool O F c w = (Ok r, w1) /\
    isError r = true /\
    In (EvContextClose (context s)) (trace (ext w1)) /\
    Map_get (sessions w1) (sessionOf c) = None /\
    getSession (sessionOf c) w1 = (Ok None, w1).
Proof.
  intros Hs Hstep.
  set (s' := set_lastActivity (clock (ext w)) s).
  set (w0 := {| sessions := Map_alter (set_lastActivity (clock (ext w)))
                                      (sessions w) (sessionOf c);
                ext := x |}).
  assert (Hg : Map_get (sessions w0) (sessionOf c) = Some s')
    by (apply StoreFacts.get_alter_same; exact Hs).
  assert (Hd : forall what,
             Server001.stepFailed O (sessionOf c) what e w0
             = (Ok (failed (lit what ++ shown e ++ Server001.sessionDestroyed)),
                {| sessions := Map_delete (sessions w0) (sessionOf c);
                   ext := teardown O s' x |})).
  { intros what. unfold Server001.stepFailed, swallow, try_catch, bind.
    rewrite SessionFacts.destroySession_present with (s := s') by exact Hg.
    reflexivity. }
  assert (Hfinal : forall r, isError r = true ->
             exists r0 w1,
               (Ok r, {| sessions := Map_delete (sessions w0) (sessionOf c);
                         ext := teardown O s' x |}) = (Ok r0, w1) /\
               isError r0 = true /\
               In (EvContextClose (context s)) (trace (ext w1)) /\
               Map_get (sessions w1) (sessionOf c) = None /\
               getSession (sessionOf c) w1 = (Ok None, w1)).
  { intros r Hr. eexists _, _. split; [reflexivity|]. split; [exact Hr|].
    split.
    - simpl. unfold teardown. destruct (rejects O (tick x)); simpl;
        rewrite !in_app_iff; simpl; tauto.
    - split; [apply StoreFacts.get_delete_same|].
      apply SessionFacts.getSession_absent. apply StoreFacts.get_delete_same. }
  destruct c as [i input | i input | i]; simpl in Hs, Hstep, Hg, Hd |- *;
    unfold try_catch.
  - unfold tryFillCarDetails, bind at 1.
    rewrite SessionFacts.getSession_present with (s := s) by exact Hs.
    unfold bind, lift. simpl. rewrite Hstep.
    fold w0. rewrite Hd. now apply Hfinal.
  - unfold tryFillDriverDetails, bind at 1.
    rewrite SessionFacts.getSession_present with (s := s) by exact Hs.
    unfold bind, lift. simpl. rewrite Hstep.
    fold w0. rewrite Hd. now apply Hfinal.
  - unfold tryGetQuotes, bind at 1.
    rewrite SessionFacts.getSession_present with (s := s) by exact Hs.
    unfold bind in Hstep.
    destruct (extractQuoteResults F (page s) (ext w)) as [[q | e' | ] x'] eqn:Hq;
      [discriminate | injection Hstep as -> -> | discriminate].
    unfold bind, lift. simpl. rewrite Hq.
    fold w0. rewrite Hd. now apply Hfinal.
Qed.

(** In the handler file whose [catch] blocks only report (part_000), a
    failure raised inside any of the three steps ends with the error
    reported and nothing else done: no call is made after the failure, and
    the session stays in the store, as [getSession] left it. *)
Lemma step_failure_only_reported
      (O : Oracle) (F : Steps) (c : StepCall) (w : Server) (s : QuoteSession)
      (e : option jsstring) (x : Ext) :
  Map_get (sessions w) (sessionOf c) = Some s ->
  stepFlow F c (page s) (ext w) = (Throw e, x) ->
  exists r w1,
    Server000.callTool O F c w = (Ok r, w1) /\
    isError r = true /\
    ext w1 = x /\
    Map_get (sessions w1) (sessionOf c) = Some (set_lastActivity (clock (ext w)) s).
Proof.
  intros Hs Hstep.
  assert (Hg : Map_get (Map_alter (set_lastActivity (clock (ext w)))
                                  (sessions w) (sessionOf c)) (sessionOf c)
               = Some (set_lastActivity (clock (ext w)) s))
    by (apply StoreFacts.get_alter_same; exact Hs).
  destruct c as [i args | i input | i]; simpl in Hs, Hstep, Hg |- *;
    unfold try_catch.
  - unfold tryFillCarDetails, bind at 1.
    rewrite SessionFacts.getSession_present with (s := s) by exact Hs.
    unfold bind, lift. simpl. rewrite Hstep.
    eexists _, _. split; [reflexivity|]. simpl. auto.
  - unfold tryFillDriverDetails, bind at 1.
    rewrite SessionFacts.getSession_present with (s := s) by exact Hs.
    unfold bind, lift. simpl. rewrite Hstep.
    eexists _, _. split; [reflexivity|]. simpl. auto.
  - unfold tryGetQuotes, bind at 1.
    rewrite SessionFacts.getSession_present with (s := s) by exact Hs.
    unfold bind in Hstep.
    destruct (extractQuoteResults F (page s) (ext w)) as [[q | e' | ] x'] eqn:Hq;
      [discriminate | injection Hstep as -> -> | discriminate].
    unfold bind, lift. simpl. rewrite Hq.
    eexists _, _. split; [reflexivity|]. simpl. auto.
Qed.

(** C2, where the code departs from it.  In part_000 the landmark of step
    2 never shows: [fillCarDetails] gives up after its three attempts, the
    tool reports the error, no browser is asked to close, and [getSession]
    still returns the session. *)
Lemma step_failure_keeps_session_part000 :
  let call := fill_car_details (lit "s1") carArgs in
  Map_get (sessions oneSession) (lit "s1") = Some session1 /\
  fst (stepFlow (steps quiet) call (page session1) (ext oneSession))
  = Throw (Some (notAdvanced (lit "Already with us?") 3)) /\
  (let (r, w1) := Server000.callTool quiet (steps quiet) call oneSession in
   option_map isError (match r with Ok t => Some t | _ => None end) = Some true /\
   clicks (page session1) (trace (ext w1)) = 3%nat /\
   (forall h, ~ In (EvContextClose h) (trace (ext w1))) /\
   option_map id (Map_get (sessions w1) (lit "s1")) = Some (lit "s1") /\
   option_map (option_map id) (match fst (getSession (lit "s1") w1) with
                               | Ok o => Some o
                               | _ => None
                               end)
   = Some (Some (lit "s1"))).
Proof.
  vm_compute. repeat split; try reflexivity.
  intros h H.
  repeat (destruct H as [H | H]; [discriminate H|]). exact H.
Qed.

(** ** quote-flow.ts: polling and the continue action *)

Module FlowFacts.

Lemma calls_app (a b : list Event) : calls (a ++ b) = calls a ++ calls b.
Proof. apply filter_app. Qed.

Lemma clicks_app (page : handle) (a b : list Event) :
  clicks page (a ++ b) = (clicks page a + clicks page b)%nat.
Proof. unfold clicks. now rewrite filter_app, length_app. Qed.

Lemma Segment_refl (x : Ext) : Segment x x [].
Proof. unfold Segment. simpl. rewrite app_nil_r. repeat split; lia. Qed.

Lemma Segment_trans (x x1 x2 : Ext) (e1 e2 : list Event) :
  Segment x x1 e1 -> Segment x1 x2 e2 -> Segment x x2 (e1 ++ e2).
Proof.
  intros (T1 & K1 & C1) (T2 & K2 & C2). repeat split.
  - now rewrite T2, T1, app_assoc.
  - rewrite calls_app, length_app. lia.
  - lia.
Qed.

Lemma Unobserved_nil (O : Oracle) (page : handle) (target : jsstring) (from : nat) :
  Unobserved O page target from [].
Proof. intros [|k] H; discriminate H. Qed.

Lemma Unobserved_app (O : Oracle) (page : handle) (target : jsstring)
      (from : nat) (e1 e2 : list Event) :
  Unobserved O page target from e1 ->
  Unobserved O page target (from + List.length (calls e1)) e2 ->
  Unobserved O page target from (e1 ++ e2).
Proof.
  intros H1 H2 k Hk Hr. rewrite calls_app in Hk.
  destruct (Nat.lt_ge_cases k (List.length (calls e1))) as [Hlt | Hge].
  - rewrite nth_error_app1 in Hk by exact Hlt. now apply H1.
  - rewrite nth_error_app2 in Hk by exact Hge.
    replace (from + k)%nat
      with (from + List.length (calls e1) + (k - List.length (calls e1)))%nat in * by lia.
    now apply H2.
Qed.

Lemma ObservedLast_app (O : Oracle) (page : handle) (target : jsstring)
      (from : nat) (e1 e2 : list Event) :
  Unobserved O page target from e1 ->
  ObservedLast O page target (from + List.length (calls e1)) e2 ->
  ObservedLast O page target from (e1 ++ e2).
Proof.
  intros H1 (e0 & -> & H0 & Hr & Hi). exists (e1 ++ e0).
  rewrite calls_app, length_app, Nat.add_assoc.
  repeat split; [now rewrite app_assoc | now apply Unobserved_app | exact Hr | exact Hi].
Qed.

(** A reading that shows the target is the last call of a run that ends
    on one, and no run free of such readings holds it. *)
Lemma ObservedLast_is_last (O : Oracle) (page : handle) (target : jsstring)
      (from : nat) (evs : list Event) (k : nat) :
  ObservedLast O page target from evs ->
  nth_error (calls evs) k = Some (EvPage page InnerText) ->
  rejects O (from + k) = None ->
  includes (innerText O (from + k)) target = true ->
  S k = List.length (calls evs).
Proof.
  intros (e0 & -> & H0 & _ & _) Hk Hr Hi.
  rewrite calls_app, length_app in *. simpl in *.
  destruct (Nat.lt_ge_cases k (List.length (calls e0))) as [Hlt | Hge].
  - rewrite nth_error_app1 in Hk by exact Hlt.
    rewrite (H0 k Hk Hr) in Hi. discriminate Hi.
  - assert (Hlt : (k < List.length (calls e0 ++ [EvPage page InnerText]))%nat)
      by (apply nth_error_Some; rewrite Hk; discriminate).
    rewrite length_app in Hlt. simpl in Hlt. lia.
Qed.

Section Polling.
Variable O : Oracle.
Variable page : handle.
Variable target : jsstring.

Lemma waitLoop_spec (fuel : nat) (timeoutMs start : Z) (x x' : Ext) (r : Result bool) :
  (1 <= fuel)%nat ->
  timeoutMs - (clock x - start) <= 2000 * (Z.of_nat fuel - 1) ->
  waitLoop O fuel page target timeoutMs start x = (r, x') ->
  exists evs,
    Segment x x' evs /\ clicks page evs = 0%nat /\ waitOutcome O page target x r evs.
Proof.
  revert x; induction fuel as [|fuel IH]; intros x Hpos Hfuel E; [lia|].
  cbn [waitLoop] in E. unfold bind at 1, Date_now, gets in E.
  destruct (clock x - start <? timeoutMs) eqn:Hlt.
  2:{ injection E as <- <-.
      exists []. split; [apply Segment_refl|]. split; [reflexivity|].
      apply Unobserved_nil. }
  apply Z.ltb_lt in Hlt.
  unfold bind at 1, act, extern in E.
  set (x1 := {| tick := S (tick x);
                clock := clock x + Z.of_N (took O (tick x));
                trace := trace x ++ [EvPage page InnerText] |}) in *.
  assert (S1 : Segment x x1 [EvPage page InnerText]).
  { unfold Segment; simpl. split; [reflexivity|]. split; lia. }
  destruct (rejects O (tick x)) as [e|] eqn:Hr.
  { injection E as <- <-.
    exists [EvPage page InnerText]. split; [exact S1|]. split; [reflexivity|].
    simpl. split.
    - intros [|[|k]] Hk; try discriminate Hk.
      rewrite Nat.add_0_r, Hr. discriminate.
    - exists (tick x). split; [lia | congruence]. }
  destruct (includes (innerText O (tick x)) target) eqn:Hi.
  { injection E as <- <-.
    exists [EvPage page InnerText]. split; [exact S1|]. split; [reflexivity|].
    simpl. exists []. simpl. rewrite Nat.add_0_r.
    repeat split; [apply Unobserved_nil | exact Hr | exact Hi]. }
  unfold bind at 1, humanDelay in E.
  set (d := (if 2500 - 2000 <=? 0 then 0 else random O (tick x1) mod (2500 - 2000)) + 2000)
    in *.
  set (x2 := {| tick := S (tick x1);
                clock := clock x1 + d + Z.of_N (took O (tick x1));
                trace := trace x1 ++ [EvDelay d] |}) in *.
  assert (Hd : 2000 <= d).
  { unfold d. change (2500 - 2000) with 500. change (500 <=? 0) with false.
    cbv iota. pose proof (Z.mod_pos_bound (random O (tick x1)) 500). lia. }
  assert (S2 : Segment x x2 [EvPage page InnerText; EvDelay d]).
  { unfold Segment, x2, x1; simpl. rewrite <- app_assoc.
    split; [reflexivity|]. split; lia. }
  assert (U2 : Unobserved O page target (tick x) [EvPage page InnerText; EvDelay d]).
  { intros [|[|[|k]]] Hk; try discriminate Hk. intros _. now rewrite Nat.add_0_r. }
  destruct (IH x2) as (evs & S3 & C3 & W3); [lia | unfold x2, x1; cbn [clock tick]; lia | exact E |].
  exists ([EvPage page InnerText; EvDelay d] ++ evs).
  split; [now apply Segment_trans with (x1 := x2)|].
  split; [rewrite clicks_app; simpl; exact C3|].
  assert (Et : (tick x + List.length (calls [EvPage page InnerText; EvDelay d]))%nat
               = tick x2) by (simpl; lia).
  unfold waitOutcome in *.
  destruct r as [[|] | e | ].
  - apply ObservedLast_app; [exact U2 | now rewrite Et].
  - apply Unobserved_app; [exact U2 | now rewrite Et].
  - destruct W3 as (W3 & n & Hn & Hn'). split.
    + apply Unobserved_app; [exact U2 | now rewrite Et].
    + exists n. split; [simpl in Hn; lia | exact Hn'].
  - exact W3.
Qed.

Lemma pollFuel_suffices (timeoutMs : Z) :
  (1 <= pollFuel timeoutMs)%nat /\
  timeoutMs <= 2000 * (Z.of_nat (pollFuel timeoutMs) - 1).
Proof.
  unfold pollFuel. split; [lia|].
  destruct (Z_lt_le_dec timeoutMs 0) as [Hneg | Hpos].
  - lia.
  - assert (0 <= timeoutMs / 2000) by (apply Z.div_pos; lia).
    pose proof (Z.mod_pos_bound timeoutMs 2000).
    pose proof (Z.div_mod timeoutMs 2000). lia.
Qed.

(** [waitForText] always ends: with [true] right after a reading that shows
    the target, with [false] when no reading did, or with the error of a
    rejected call. *)
Lemma waitForText_ends (timeoutMs : Z) (x x' : Ext) (r : Result bool) :
  waitForText O page target timeoutMs x = (r, x') ->
  exists evs,
    Segment x x' evs /\ clicks page evs = 0%nat /\ waitOutcome O page target x r evs.
Proof.
  unfold waitForText, bind, Date_now, gets.
  destruct (pollFuel_suffices timeoutMs) as [H1 H2].
  apply waitLoop_spec; [exact H1 | lia].
Qed.

Lemma clicks_one : clicks page [EvPage page (Click CONTINUE true)] = 1%nat.
Proof.
  unfold clicks; simpl. now rewrite Nat.eqb_refl.
Qed.

Lemma Unobserved_click (from : nat) :
  Unobserved O page target from [EvPage page (Click CONTINUE true)].
Proof. intros [|[|k]] Hk; discriminate Hk. Qed.

Lemma continueLoop_spec (left attempt maxRetries : nat) (x x' : Ext) (r : Result unit) :
  continueLoop O left attempt page target maxRetries x = (r, x') ->
  exists evs,
    Segment x x' evs /\ (clicks page evs <= left)%nat /\
    continueOutcome O page target left maxRetries x r evs.
Proof.
  revert attempt x; induction left as [|left IH]; intros attempt x E.
  - injection E as <- <-. exists [].
    split; [apply Segment_refl|]. split; [apply Nat.le_refl|].
    split; [apply Unobserved_nil | intros _; now split].
  - cbn [continueLoop] in E. unfold bind at 1, act, extern in E.
    set (click := EvPage page (Click CONTINUE true)) in *.
    set (x1 := {| tick := S (tick x);
                  clock := clock x + Z.of_N (took O (tick x));
                  trace := trace x ++ [click] |}) in *.
    assert (S1 : Segment x x1 [click]).
    { unfold Segment; simpl. split; [reflexivity|]. split; lia. }
    assert (T1 : (tick x + List.length (calls [click]))%nat = tick x1)
      by (simpl; lia).
    assert (C1 : clicks page [click] = 1%nat) by apply clicks_one.
    destruct (rejects O (tick x)) as [e|] eqn:Hr.
    { injection E as <- <-. exists [click]. split; [exact S1|].
      split; [rewrite C1; lia|]. split; [apply Unobserved_click|].
      intros Hnone. rewrite Hnone in Hr by lia. discriminate Hr. }
    unfold bind at 1 in E.
    destruct (waitForText O page target 45000 x1) as [rw x2] eqn:Ew.
    apply waitForText_ends in Ew as (evw & S2 & C2 & W2).
    destruct rw as [[|] | e | ]; simpl in W2.
    + injection E as <- <-. exists ([click] ++ evw).
      split; [now apply Segment_trans with (x1 := x1)|].
      split; [rewrite clicks_app, C1, C2; lia|].
      apply ObservedLast_app; [apply Unobserved_click | now rewrite T1].
    + unfold bind at 1, console_log, modify in E.
      match type of E with
      | continueLoop _ _ _ _ _ _ ?y = _ => set (x3 := y) in *
      end.
      match type of x3 with
      | _ => match eval unfold x3 in x3 with
             | {| trace := _ ++ [?l] |} => set (logged := l) in *
             end
      end.
      assert (S3 : Segment x2 x3 [logged]).
      { unfold Segment; simpl. split; [reflexivity|]. split; lia. }
      apply IH in E as (evs & S4 & C4 & W4).
      exists ([click] ++ evw ++ [logged] ++ evs).
      assert (S : Segment x x3 ([click] ++ evw ++ [logged])).
      { apply Segment_trans with (x1 := x1); [exact S1|].
        now apply Segment_trans with (x1 := x2). }
      assert (U : Unobserved O page target (tick x) ([click] ++ evw ++ [logged])).
      { apply Unobserved_app; [apply Unobserved_click|]. rewrite T1.
        apply Unobserved_app; [exact W2|].
        intros [|k] Hk; discriminate Hk. }
      assert (T3 : (tick x + List.length (calls ([click] ++ evw ++ [logged])))%nat
                   = tick x3) by (symmetry; apply S).
      replace ([click] ++ evw ++ [logged] ++ evs)
        with (([click] ++ evw ++ [logged]) ++ evs)
        by now rewrite <- !app_assoc.
      split; [now apply Segment_trans with (x1 := x3)|].
      split; [rewrite !clicks_app, C1, C2; simpl; lia|].
      unfold continueOutcome in *. destruct r as [u | e | ].
      * apply ObservedLast_app; [exact U | now rewrite T3].
      * destruct W4 as [W4 X4]. split.
        -- apply Unobserved_app; [exact U | now rewrite T3].
        -- intros Hnone. destruct X4 as [X4 X5].
           { intros n Hn. apply Hnone. rewrite <- T3 in Hn. lia. }
           split; [exact X4|].
           rewrite !clicks_app, C1, C2, X5. simpl. lia.
      * exact W4.
    + injection E as <- <-. exists ([click] ++ evw).
      split; [now apply Segment_trans with (x1 := x1)|].
      split; [rewrite clicks_app, C1, C2; lia|].
      destruct W2 as (W2 & n & Hn & Hn'). split.
      * apply Unobserved_app; [apply Unobserved_click | now rewrite T1].
      * intros Hnone. exfalso. apply Hn'. apply Hnone. simpl in Hn. lia.
    + contradiction.
Qed.

End Polling.
End FlowFacts.

Module TimingFacts.

Lemma reads_app (page : handle) (a b : list Event) :
  reads page (a ++ b) = (reads page a + reads page b)%nat.
Proof. unfold reads. now rewrite filter_app, length_app. Qed.

Section Polling.
Variable O : Oracle.
Variable page : handle.
Variable target : jsstring.

(** The loop of [waitForText] against the clock: it is left with [false]
    only past the deadline, every reading but the first comes at least two
    seconds after the one before and all come before the deadline, and past
    the deadline nothing is read. *)
Lemma waitLoop_timing (fuel : nat) (timeoutMs start : Z) (x x' : Ext) (r : Result bool) :
  waitLoop O fuel page target timeoutMs start x = (r, x') ->
  exists evs,
    trace x' = trace x ++ evs /\
    (r = Ok false -> timeoutMs <= clock x' - start) /\
    (reads page evs = 0%nat \/
     2000 * (Z.of_nat (reads page evs) - 1) < timeoutMs - (clock x - start)) /\
    (timeoutMs <= clock x - start -> evs = []).
Proof.
  revert x; induction fuel as [|fuel IH]; intros x E.
  - cbn [waitLoop] in E. injection E as <- <-. exists []. rewrite app_nil_r.
    repeat split; [discriminate | now left].
  - cbn [waitLoop] in E. unfold bind at 1, Date_now, gets in E.
    destruct (clock x - start <? timeoutMs) eqn:Hlt.
    2:{ injection E as <- <-. apply Z.ltb_ge in Hlt.
        exists []. rewrite app_nil_r. repeat split; [lia | now left]. }
    apply Z.ltb_lt in Hlt.
    assert (R1 : reads page [EvPage page InnerText] = 1%nat)
      by (unfold reads; simpl; now rewrite Nat.eqb_refl).
    unfold bind at 1, act, extern in E.
    destruct (rejects O (tick x)) as [e|].
    { injection E as <- <-. exists [EvPage page InnerText].
      split; [reflexivity|]. split; [discriminate|]. split; [|lia].
      right. rewrite R1. lia. }
    destruct (includes (innerText O (tick x)) target).
    { injection E as <- <-. exists [EvPage page InnerText].
      split; [reflexivity|]. split; [discriminate|]. split; [|lia].
      right. rewrite R1. lia. }
    unfold bind at 1, humanDelay in E.
    match type of E with
    | waitLoop _ _ _ _ _ _ ?y = _ => set (x2 := y) in *
    end.
    assert (Hd : clock x + 2000 <= clock x2).
    { unfold x2. cbn [clock tick]. change (2500 - 2000) with 500.
      change (500 <=? 0) with false. cbv iota.
      pose proof (Z.mod_pos_bound (random O (S (tick x))) 500). lia. }
    apply IH in E as (evs & T & F & B & _).
    match eval unfold x2 in x2 with
    | {| trace := _ ++ [?d] |} => set (delay := d) in *
    end.
    assert (R2 : reads page [EvPage page InnerText; delay] = 1%nat)
      by (unfold reads; simpl; now rewrite Nat.eqb_refl).
    exists ([EvPage page InnerText; delay] ++ evs).
    split; [rewrite T; unfold x2; cbn [trace]; now rewrite <- !app_assoc|].
    split; [exact F|]. split; [|lia].
    right. rewrite reads_app, R2. destruct B as [-> | B]; lia.
Qed.

End Polling.
End TimingFacts.

Module AttemptFacts.

Lemma calls_read (page : handle) (e : list Event) :
  calls (EvPage page InnerText :: e) = EvPage page InnerText :: calls e.
Proof. reflexivity. Qed.

Lemma reads_read (page : handle) (e : list Event) :
  reads page (EvPage page InnerText :: e) = S (reads page e).
Proof. unfold reads. cbn [filter isRead]. now rewrite Nat.eqb_refl. Qed.

Lemma no_click_in (page : handle) (e : list Event) :
  clicks page e = 0%nat -> ~ In (EvPage page (Click CONTINUE true)) e.
Proof.
  unfold clicks. induction e as [|ev e IH]; [intros _ []|].
  cbn [filter]. intros H [-> | Hin].
  - cbn [isClick] in H. rewrite Nat.eqb_refl in H. discriminate H.
  - destruct (isClick page ev); [discriminate H | now apply IH].
Qed.

Section Attempts.
Variable O : Oracle.
Variable page : handle.
Variable target : jsstring.

(** With time left at its start, the polling loop begins with a reading
    of the page. *)
Lemma waitForText_reads_first (timeoutMs : Z) (x x' : Ext) (r : Result bool) :
  0 < timeoutMs ->
  waitForText O page target timeoutMs x = (r, x') ->
  exists e, trace x' = trace x ++ EvPage page InnerText :: e.
Proof.
  intros Ht. unfold waitForText, bind at 1, Date_now, gets.
  replace (pollFuel timeoutMs) with (S (Z.to_nat (timeoutMs / 2000) + 1))
    by (unfold pollFuel; lia).
  cbn [waitLoop]. unfold bind at 1, Date_now, gets.
  replace (clock x - clock x <? timeoutMs) with true
    by (symmetry; apply Z.ltb_lt; lia).
  unfold bind at 1, act, extern.
  destruct (rejects O (tick x)) as [e|].
  { intros E. injection E as _ <-. now exists []. }
  destruct (includes (innerText O (tick x)) target).
  { intros E. unfold ret in E. injection E as _ <-. now exists []. }
  unfold bind at 1, humanDelay. intros E.
  apply TimingFacts.waitLoop_timing in E as (evs & T & _).
  eexists. rewrite T. cbn [trace]. rewrite <- !app_assoc. reflexivity.
Qed.

(** The attempts of the continue action.  It begins with a click; every
    click that is not rejected is followed at once by a reading of the
    page; when no call is rejected there are at least as many readings as
    clicks, and the action throws only after each of its attempts has
    polled for the whole 45 seconds. *)
Lemma continueLoop_attempts (left attempt maxRetries : nat) (x x' : Ext) (r : Result unit) :
  continueLoop O left attempt page target maxRetries x = (r, x') ->
  exists evs,
    trace x' = trace x ++ evs /\
    (left <> 0%nat -> nth_error (calls evs) 0 = Some (EvPage page (Click CONTINUE true))) /\
    (forall k,
       nth_error (calls evs) k = Some (EvPage page (Click CONTINUE true)) ->
       rejects O (tick x + k) = None ->
       nth_error (calls evs) (S k) = Some (EvPage page InnerText)) /\
    ((forall n, (tick x <= n)%nat -> rejects O n = None) ->
     (clicks page evs <= reads page evs)%nat /\
     (forall e, r = Throw e -> Z.of_nat left * 45000 <= clock x' - clock x)).
Proof.
  revert attempt x; induction left as [|left IH]; intros attempt x E.
  - cbn [continueLoop] in E. unfold throw in E. injection E as <- <-.
    exists []. rewrite app_nil_r. split; [reflexivity|].
    split; [intros H; now contradiction H|].
    split; [intros [|k] H; discriminate H|].
    intros _. split; [apply Nat.le_refl | intros; simpl; lia].
  - cbn [continueLoop] in E. unfold bind at 1, act, extern in E.
    set (click := EvPage page (Click CONTINUE true)) in *.
    set (x1 := {| tick := S (tick x);
                  clock := clock x + Z.of_N (took O (tick x));
                  trace := trace x ++ [click] |}) in *.
    destruct (rejects O (tick x)) as [e0|] eqn:R0.
    { injection E as <- <-. exists [click]. split; [reflexivity|].
      split; [reflexivity|]. split.
      - intros [|k] H Hr; [|destruct k; discriminate H].
        rewrite Nat.add_0_r in Hr. congruence.
      - intros Hnone. rewrite Hnone in R0 by lia. discriminate R0. }
    unfold bind at 1 in E.
    destruct (waitForText O page target 45000 x1) as [rw x2] eqn:W.
    destruct (@waitForText_reads_first 45000 x1 x2 rw eq_refl W) as (e2' & T2').
    destruct (FlowFacts.waitForText_ends _ _ _ _ _ W) as (e2 & (T2 & K2 & _) & C2 & Out).
    assert (e2 = EvPage page InnerText :: e2')
      by (apply (app_inv_head (trace x1)); congruence).
    subst e2. clear T2'.
    assert (F2 : rw = Ok false -> 45000 <= clock x2 - clock x1).
    { unfold waitForText, bind, Date_now, gets in W.
      apply TimingFacts.waitLoop_timing in W as (ev & _ & F & _). exact F. }
    assert (Hc1 : clock x <= clock x1) by (unfold x1; cbn [clock]; lia).
    assert (Hk1 : tick x1 = S (tick x)) by reflexivity.
    assert (Hclick : clicks page [click] = 1%nat) by apply FlowFacts.clicks_one.
    assert (Hrc : reads page [click] = 0%nat) by reflexivity.
    (* what holds whatever follows the polling *)
    assert (Hshape : forall tail : list Event,
      (forall k,
         nth_error (calls tail) k = Some click ->
         rejects O (tick x2 + k) = None ->
         nth_error (calls tail) (S k) = Some (EvPage page InnerText)) ->
      forall k,
        nth_error (calls ([click] ++ (EvPage page InnerText :: e2') ++ tail)) k
        = Some click ->
        rejects O (tick x + k) = None ->
        nth_error (calls ([click] ++ (EvPage page InnerText :: e2') ++ tail)) (S k)
        = Some (EvPage page InnerText)).
    { intros tail Htail k Hk Hr.
      assert (Hcalls : calls ([click] ++ (EvPage page InnerText :: e2') ++ tail)
                       = click :: EvPage page InnerText :: (calls e2' ++ calls tail))
        by (rewrite !FlowFacts.calls_app; reflexivity).
      rewrite Hcalls in *.
      destruct k as [|[|i]];
        [reflexivity | cbn [nth_error] in Hk; unfold click in Hk; discriminate Hk |].
      change (nth_error (calls e2' ++ calls tail) i = Some click) in Hk.
      change (nth_error (calls e2' ++ calls tail) (S i) = Some (EvPage page InnerText)).
      destruct (Nat.lt_ge_cases i (List.length (calls e2'))) as [Hlt | Hge].
      - exfalso. rewrite nth_error_app1 in Hk by exact Hlt.
        apply nth_error_In in Hk.
        apply (@no_click_in page (EvPage page InnerText :: e2') C2). right.
        unfold calls in Hk. apply filter_In in Hk. apply Hk.
      - rewrite nth_error_app2 in Hk by exact Hge.
        rewrite nth_error_app2 by lia.
        replace (S i - List.length (calls e2'))%nat
          with (S (i - List.length (calls e2')))%nat by lia.
        apply Htail; [exact Hk|].
        replace (tick x2 + (i - List.length (calls e2')))%nat
          with (tick x + S (S i))%nat; [exact Hr|].
        rewrite K2, Hk1, calls_read. cbn [List.length]. lia. }
    assert (Hnil : forall k,
               nth_error (calls (@nil Event)) k = Some click ->
               rejects O (tick x2 + k) = None ->
               nth_error (calls (@nil Event)) (S k) = Some (EvPage page InnerText))
      by (intros [|k] H; discriminate H).
    assert (Hreads : (1 <= reads page (EvPage page InnerText :: e2'))%nat)
      by (rewrite reads_read; lia).
    assert (Hstop : forall r0 : Result unit,
      (forall e, r0 <> Throw e) \/
      ((forall n, (tick x <= n)%nat -> rejects O n = None) -> False) ->
      exists evs,
        trace x2 = trace x ++ evs /\
        (S left <> 0%nat -> nth_error (calls evs) 0 = Some click) /\
        (forall k,
           nth_error (calls evs) k = Some click ->
           rejects O (tick x + k) = None ->
           nth_error (calls evs) (S k) = Some (EvPage page InnerText)) /\
        ((forall n, (tick x <= n)%nat -> rejects O n = None) ->
         (clicks page evs <= reads page evs)%nat /\
         (forall e, r0 = Throw e ->
            Z.of_nat (S left) * 45000 <= clock x2 - clock x))).
    { intros r0 Hr0. exists ([click] ++ (EvPage page InnerText :: e2') ++ []).
      split; [rewrite T2; unfold x1; cbn [trace];
              now rewrite app_nil_r, <- app_assoc|].
      split; [reflexivity|]. split; [apply Hshape; exact Hnil|].
      intros Hnone. split.
      - rewrite app_nil_r, FlowFacts.clicks_app, TimingFacts.reads_app, Hclick, Hrc, C2.
        lia.
      - intros e He. destruct Hr0 as [Hr0 | Hr0];
          [now contradiction (Hr0 e) | now contradiction (Hr0 Hnone)]. }
    destruct rw as [[|] | ew | ].
    + (* the landmark was read *)
      unfold ret in E. injection E as <- <-.
      apply Hstop. left. discriminate.
    + (* the attempt failed: a log line and the next attempt *)
      unfold bind at 1, console_log, modify in E.
      match type of E with
      | continueLoop _ _ _ _ _ _ ?y = _ => set (x3 := y) in *
      end.
      match eval unfold x3 in x3 with
      | {| trace := _ ++ [?l] |} => set (logline := l) in *
      end.
      apply IH in E as (e3 & T3 & _ & S3 & N3).
      exists ([click] ++ (EvPage page InnerText :: e2') ++ ([logline] ++ e3)).
      split; [rewrite T3; unfold x3; cbn [trace]; rewrite T2; unfold x1; cbn [trace];
              now rewrite <- !app_assoc|].
      split; [reflexivity|]. split.
      * apply Hshape. exact S3.
      * intros Hnone.
        destruct N3 as [N3 N4].
        { intros n Hn. apply Hnone. change (tick x3) with (tick x2) in Hn.
          rewrite K2, Hk1 in Hn. lia. }
        split.
        -- rewrite !FlowFacts.clicks_app, !TimingFacts.reads_app, Hclick, Hrc, C2.
           change (clicks page [logline]) with 0%nat.
           change (reads page [logline]) with 0%nat. lia.
        -- intros e He. specialize (N4 e He). specialize (F2 eq_refl).
           change (clock x3) with (clock x2) in N4. lia.
    + (* a call of the polling was rejected *)
      injection E as <- <-. apply Hstop. right.
      intros Hnone. cbn [waitOutcome] in Out. destruct Out as (_ & n & Hn & Hr).
      apply Hr. apply Hnone. lia.
    + cbn [waitOutcome] in Out. contradiction.
Qed.

End Attempts.
End AttemptFacts.

(** C8.  The continue action clicks at most three times and always ends.
    It begins with a click, and every click that is not rejected is
    followed at once by a reading of the page.  It returns normally exactly
    when a reading of the page shows the landmark, and then at once: that
    reading is its last call; so when the first reading shows it, the
    action returns after one click and one reading.  When no call is
    rejected there are at least as many readings as clicks, and the action
    throws only after three attempts that each polled for 45 seconds; when
    moreover no reading shows the landmark, it throws its own error after
    exactly three clicks. *)
Theorem clickContinueAndWait_at_most_three
        (O : Oracle) (page : handle) (targetText : jsstring) (x : Ext) :
  let run := clickContinueAndWait O page targetText 3 x in
  exists evs,
    trace (snd run) = trace x ++ evs /\
    (clicks page evs <= 3)%nat /\
    fst run <> Spin /\
    (fst run = Ok tt -> ObservedLast O page targetText (tick x) evs) /\
    (forall k,
       nth_error (calls evs) k = Some (EvPage page InnerText) ->
       rejects O (tick x + k) = None ->
       includes (innerText O (tick x + k)) targetText = true ->
       fst run = Ok tt /\ S k = List.length (calls evs)) /\
    ((forall n, (tick x <= n)%nat -> rejects O n = None) ->
     (forall n, (tick x <= n)%nat -> includes (innerText O n) targetText = false) ->
     fst run = Throw (Some (notAdvanced targetText 3)) /\ clicks page evs = 3%nat) /\
    nth_error (calls evs) 0 = Some (EvPage page (Click CONTINUE true)) /\
    (forall k,
       nth_error (calls evs) k = Some (EvPage page (Click CONTINUE true)) ->
       rejects O (tick x + k) = None ->
       nth_error (calls evs) (S k) = Some (EvPage page InnerText)) /\
    (rejects O (tick x) = None ->
     rejects O (S (tick x)) = None ->
     includes (innerText O (S (tick x))) targetText = true ->
     fst run = Ok tt /\
     calls evs = [EvPage page (Click CONTINUE true); EvPage page InnerText]) /\
    ((forall n, (tick x <= n)%nat -> rejects O n = None) ->
     (1 <= clicks page evs <= reads page evs)%nat /\
     (forall e, fst run = Throw e -> 3 * 45000 <= clock (snd run) - clock x)).
Proof.
  intros run.
  destruct run as [r x'] eqn:E. unfold run, clickContinueAndWait in E.
  destruct (AttemptFacts.continueLoop_attempts _ _ _ _ _ _ _ E)
    as (evs' & T' & First & Next & Polls).
  apply FlowFacts.continueLoop_spec in E as (evs & (T & K & C) & Hc & W).
  assert (evs' = evs) by (apply (app_inv_head (trace x)); congruence). subst evs'.
  specialize (First (Nat.neq_succ_0 2)).
  assert (Hshown : forall k,
             nth_error (calls evs) k = Some (EvPage page InnerText) ->
             rejects O (tick x + k) = None ->
             includes (innerText O (tick x + k)) targetText = true ->
             r = Ok tt /\ S k = List.length (calls evs)).
  { unfold continueOutcome in W.
    intros k Hk Hr Hi. destruct r as [[] | e | ].
    + split; [reflexivity|].
      now apply FlowFacts.ObservedLast_is_last
        with (O := O) (page := page) (target := targetText) (from := tick x).
    + destruct W as [W _]. rewrite (W k Hk Hr) in Hi. discriminate Hi.
    + contradiction. }
  exists evs. cbn [fst snd]. split; [exact T|]. split; [exact Hc|].
  unfold continueOutcome in W.
  split; [|split; [|split; [|split; [|split; [|split; [|split]]]]]].
  - destruct r; [discriminate | discriminate | contradiction].
  - intros ->. exact W.
  - exact Hshown.
  - intros Hnone Hnever. destruct r as [[] | e | ].
    + exfalso. destruct W as (e0 & _ & _ & _ & Hi).
      rewrite Hnever in Hi by lia. discriminate Hi.
    + destruct W as [_ W]. destruct (W Hnone) as [-> Hn]. now split.
    + contradiction.
  - exact First.
  - exact Next.
  - intros R0 R1 Hi.
    assert (Hread : nth_error (calls evs) 1 = Some (EvPage page InnerText))
      by (apply Next; [exact First | now rewrite Nat.add_0_r]).
    destruct (Hshown 1%nat Hread) as [Hr Hlen];
      [now rewrite Nat.add_1_r | now rewrite Nat.add_1_r |].
    split; [exact Hr|].
    destruct (calls evs) as [|a [|b [|c l]]]; try discriminate Hlen.
    cbn [nth_error] in First, Hread. congruence.
  - intros Hnone. destruct (Polls Hnone) as [Hreads Hthrow].
    split; [|intros e He; specialize (Hthrow e He); simpl in Hthrow; lia].
    split; [|exact Hreads].
    destruct (clicks page evs) as [|n] eqn:Hn; [exfalso | lia].
    apply (@AttemptFacts.no_click_in page evs Hn).
    apply nth_error_In in First. unfold calls in First.
    apply filter_In in First. apply First.
Qed.

(** ** The idle reaper *)

Module ReaperFacts.
Import JSFacts StoreFacts SessionFacts.

Lemma get_delete_absent (m : Store) (k i : jsstring) :
  Map_get m i = None -> Map_get (Map_delete m k) i = None.
Proof.
  intros H. destruct (list_eq_dec N.eq_dec i k) as [-> | Hne].
  - apply get_delete_same.
  - now rewrite get_delete_other.
Qed.

Lemma reapStep_get (now : Z) (m : Store) (k i : jsstring) :
  Map_get (reapStep now m k) i
  = if JS.eqb k i then afterSweep now (Map_get m i) else Map_get m i.
Proof.
  unfold reapStep, afterSweep. destruct (JS.eqb k i) eqn:E.
  - apply eqb_eq in E. subst i.
    destruct (Map_get m k) as [s|] eqn:G; [|exact G].
    destruct (expired now s); [apply get_delete_same | exact G].
  - apply eqb_neq in E.
    destruct (Map_get m k) as [s|]; [|reflexivity].
    destruct (expired now s); [|reflexivity].
    apply get_delete_other. congruence.
Qed.



Lemma key_listed (m : Store) (i : jsstring) (s : QuoteSession) :
  Map_get m i = Some s -> existsb (fun k => JS.eqb k i) (List.map fst m) = true.
Proof.
  induction m as [|[k v] m IH]; simpl; [discriminate|].
  destruct (JS.eqb k i); [reflexivity|]. exact IH.
Qed.


Lemma teardown_clock (O : Oracle) (s : QuoteSession) (x : Ext) :
  clock x <= clock (teardown O s x).
Proof.
  unfold teardown. destruct (rejects O (tick x)); simpl; lia.
Qed.

Section Sweep.
Variable O : Oracle.
Variable now : Z.

Lemma turn_run (entry : jsstring * QuoteSession) (w : Server) :
  exists w1,
    reaperTurn O now entry w = (Ok tt, w1) /\
    sessions w1 = reapStep now (sessions w) (fst entry) /\
    clock (ext w) <= clock (ext w1).
Proof.
  unfold reaperTurn, bind at 1, gets, reapStep, expired.
  destruct (Map_get (sessions w) (fst entry)) as [s|] eqn:G.
  - destruct (now - lastActivity s >? SESSION_TIMEOUT_MS).
    + unfold bind, lift, console_log, modify. simpl.
      rewrite destroySession_present with (s := s) by exact G.
      eexists. split; [reflexivity|]. simpl. split; [reflexivity|].
      eapply Z.le_trans; [|apply teardown_clock]. simpl. lia.
    + exists w. repeat split; lia.
  - exists w. repeat split; lia.
Qed.

Lemma forEach_turn (entries : list (jsstring * QuoteSession)) (w : Server) :
  exists w1,
    forEach entries (reaperTurn O now) w = (Ok tt, w1) /\
    sessions w1 = fold_left (reapStep now) (List.map fst entries) (sessions w) /\
    clock (ext w) <= clock (ext w1).
Proof.
  revert w; induction entries as [|entry entries IH]; intros w; simpl.
  - exists w. repeat split; lia.
  - destruct (turn_run entry w) as (w1 & E1 & S1 & C1).
    destruct (IH w1) as (w2 & E2 & S2 & C2).
    exists w2. unfold bind. rewrite E1. split; [exact E2|].
    split; [now rewrite S2, S1 | lia].
Qed.

End Sweep.


End ReaperFacts.

Module TimerFacts.
Import ReaperFacts.

Section Untouched.
Variable O : Oracle.
Variable late : nat -> N.
Variable between : nat -> Server -> Server.
Variable i : jsstring.
Variable s : QuoteSession.
Variable w : Server.

Hypothesis present : Map_get (sessions w) i = Some s.
Hypothesis clock_on : forall k v, clock (ext v) <= clock (ext (between k v)).
Hypothesis untouched :
  forall k v, Map_get (sessions (between k v)) i = Map_get (sessions v) i.



End Untouched.
End TimerFacts.


(** ** The statements at work on the scenarios *)

(** C10 on a store with one session, in a world that rejects the closing
    of the context: the session is gone, and the browser was not asked to
    close. *)
Lemma destroySession_swallows_teardown_errors_witness :
  Map_get (sessions oneSession) (lit "s1") = Some session1 /\
  exists w1,
    destroySession firstRejected (lit "s1") oneSession = (Ok tt, w1) /\
    Map_get (sessions w1) (lit "s1") = None /\
    trace (ext w1) = [EvContextClose 2%nat].
Proof.
  split; [reflexivity|].
  destruct (@destroySession_swallows_teardown_errors
              firstRejected (lit "s1") oneSession session1 eq_refl)
    as (w1 & evs & E & _ & G & T & R & _).
  exists w1. split; [exact E|]. split; [exact G|].
  rewrite T. destruct R as [-> _]; [discriminate | reflexivity].
Defined.

(** C7 on the text of the example, run from two different states. *)
Lemma extraction_is_pure_witness :
  JS.eqb sampleText sampleText = true /\
  extractProductsFromText_prog sampleText [COMPREHENSIVE] oneSession
  = (Ok (extractProductsFromText sampleText [COMPREHENSIVE]), oneSession) /\
  extractProductsFromText_prog sampleText [COMPREHENSIVE] twoSessions
  = (Ok (extractProductsFromText sampleText [COMPREHENSIVE]), twoSessions).
Proof.
  split; [reflexivity|].
  apply (@extraction_is_pure Server sampleText sampleText [COMPREHENSIVE]
           oneSession twoSessions eq_refl).
Defined.

(** C6 on the text of the example, where three dots stand between the
    fragments. *)
Lemma card_is_extracted_witness :
  In cardQuote
     (extractProductsFromText sampleText [lit "Comprehensive"; lit "Complete Care"]).
Proof.
  assert (Hsave : ~ ends_with (lit " ... ") (lit "Save ")).
  { intros [a E]. apply (f_equal (@rev char)) in E.
    rewrite rev_app_distr in E. vm_compute in E. discriminate E. }
  assert (Hfree : dollar_free (lit " ... ")).
  { unfold dollar_free. vm_compute. intuition discriminate. }
  apply (@card_is_extracted [] (lit " ... ") (lit " ... ") (lit " ... ") (lit " ... ") []
           [lit "Comprehensive"; lit "Complete Care"]).
  - apply JSFacts.indexOf_first. reflexivity.
  - vm_compute. lia.
  - exact Hfree.
  - exact Hfree.
  - exact Hfree.
  - exact Hfree.
  - exact Hsave.
  - exact Hsave.
  - intros c rest E. discriminate E.
  - left. reflexivity.
Defined.

(** C4 on a store with two sessions at time 700000: [getSession] and
    [updateSessionState] both move [lastActivity] of the first session
    there. *)
Lemma lastActivity_refreshed_by_get_and_update_witness :
  Map_get (sessions twoSessions) (lit "s1") = Some session1 /\
  lastActivity session1 = 0 /\
  (exists w1,
     getSession (lit "s1") twoSessions
     = (Ok (Some (set_lastActivity 700000 session1)), w1)) /\
  (exists w1,
     updateSessionState (lit "s1") car_found twoSessions = (Ok tt, w1) /\
     option_map lastActivity (Map_get (sessions w1) (lit "s1")) = Some 700000).
Proof.
  split; [reflexivity|]. split; [reflexivity|].
  destruct (@lastActivity_refreshed_by_get_and_update
              (lit "s1") twoSessions session1 eq_refl) as (Hget & Hupd & _).
  split.
  - destruct Hget as (w1 & E & _). exists w1. exact E.
  - destruct (Hupd car_found) as (w1 & E & G & _). exists w1.
    split; [exact E|]. rewrite G. reflexivity.
Defined.

(** C3 on a call with no argument at all.  In a world where nothing is
    rejected the error is reported, the browser was launched, its context
    and the browser itself were asked to close, and the store is empty
    again.  In the world where the sixth call, the closing of the context,
    is rejected, the same error is reported and the store is empty again,
    but the browser was not asked to close. *)
Lemma start_quote_without_car_witness :
  neither noArgs = true /\
  (exists w2,
     Server001.start_quote quiet (steps quiet) noArgs empty = (Ok needCar, w2) /\
     Server000.start_quote quiet (steps quiet) noArgs empty = (Ok needCar, w2) /\
     In (EvLaunch 0%nat) (trace (ext w2)) /\
     In (EvContextClose 1%nat) (trace (ext w2)) /\
     In (EvBrowserClose 0%nat) (trace (ext w2)) /\
     sessions w2 = []) /\
  (exists w2,
     Server001.start_quote sixthRejected (steps sixthRejected) noArgs empty
     = (Ok needCar, w2) /\
     In (EvContextClose 1%nat) (trace (ext w2)) /\
     ~ In (EvBrowserClose 0%nat) (trace (ext w2)) /\
     sessions w2 = []).
Proof.
  split; [reflexivity|]. split.
  - destruct (@start_quote_without_car quiet (steps quiet) noArgs empty eq_refl)
      as [Hok _].
    destruct (Hok firstSession (snd (createSession quiet empty)) eq_refl)
      as (w2 & E1 & E0 & _ & L & C & B & _ & F).
    exists w2. split; [exact E1|]. split; [exact E0|].
    split; [exact L|]. split; [exact C|].
    split; [rewrite B; vm_compute; tauto|]. apply F. reflexivity.
  - destruct (@start_quote_without_car sixthRejected (steps sixthRejected) noArgs empty
                eq_refl) as [Hok _].
    destruct (Hok firstSession (snd (createSession sixthRejected empty)) eq_refl)
      as (w2 & E1 & _ & _ & _ & C & B & _ & F).
    exists w2. split; [exact E1|]. split; [exact C|].
    split; [|apply F; reflexivity].
    rewrite B. vm_compute.
    intros [H | [H | [H | [H | [H | []]]]]]; discriminate H.
Defined.

(** C8 in three worlds where nothing is rejected.  Where the landmark
    never shows, the action throws its own error after three clicks and no
    sooner than 135 seconds.  Where the landmark is on the page from the
    start, it returns after one click and one reading.  Where the landmark
    shows from call 48 on, the first reading of the second attempt, it
    returns there, after two clicks. *)
Lemma clickContinueAndWait_at_most_three_witness :
  (let run := clickContinueAndWait quiet 3%nat (lit "Already with us?") 3 fresh in
   fst run = Throw (Some (notAdvanced (lit "Already with us?") 3)) /\
   clicks 3%nat (trace (snd run)) = 3%nat /\
   135000 <= clock (snd run)) /\
  (let run := clickContinueAndWait (landmarkFrom 0) 3%nat (lit "Already with us?") 3 fresh in
   fst run = Ok tt /\
   calls (trace (snd run))
   = [EvPage 3%nat (Click CONTINUE true); EvPage 3%nat InnerText]) /\
  (let run := clickContinueAndWait (landmarkFrom 48) 3%nat (lit "Already with us?") 3 fresh in
   fst run = Ok tt /\
   List.length (calls (trace (snd run))) = 49%nat /\
   clicks 3%nat (trace (snd run)) = 2%nat).
Proof.
  split; [|split].
  - destruct (clickContinueAndWait_at_most_three quiet 3%nat (lit "Already with us?") fresh)
      as (evs & T & _ & _ & _ & _ & Hnever & _ & _ & _ & Hnone).
    destruct Hnever as [E C]; [reflexivity | reflexivity |].
    destruct Hnone as [_ Hlate]; [reflexivity|].
    split; [exact E|]. split; [rewrite T; exact C|].
    specialize (Hlate _ E). cbn [fresh clock] in Hlate. lia.
  - destruct (clickContinueAndWait_at_most_three (landmarkFrom 0) 3%nat
                (lit "Already with us?") fresh)
      as (evs & T & _ & _ & _ & _ & _ & _ & _ & Hfirst & _).
    destruct Hfirst as [E C]; [reflexivity | reflexivity | reflexivity |].
    split; [exact E|]. rewrite T. exact C.
  - destruct (clickContinueAndWait_at_most_three (landmarkFrom 48) 3%nat
                (lit "Already with us?") fresh)
      as (evs & T & _ & _ & _ & Hshown & _).
    cbn [fresh trace app] in T.
    destruct (Hshown 48%nat) as [E L];
      [rewrite <- T; vm_compute; reflexivity | reflexivity | reflexivity |].
    split; [exact E|]. split; [rewrite T; symmetry; exact L|].
    vm_compute. reflexivity.
Defined.

(** The same action where the landmark shows from call 48 on, the first
    reading of the second attempt: it returns there, after two clicks. *)
Example clickContinueAndWait_second_attempt :
  let run := clickContinueAndWait (landmarkFrom 48) 3%nat (lit "Already with us?") 3 fresh in
  fst run = Ok tt /\ clicks 3%nat (trace (snd run)) = 2%nat.
Proof. vm_compute. split; reflexivity. Qed.


(* ================================================================== *)
(** * Further properties of the code *)

(** ** The text-extraction stage: order, fields, the first price *)

Module QuoteFacts.
Import JSFacts RegexFacts ExtractionFacts CardFacts.

Lemma offered_spec (text n : jsstring) :
  offered text n = true <->
  exists i, first_occurrence text n i /\ yearly_price_in (window text i).
Proof.
  unfold offered.
  destruct (indexOf_from_spec text n 0) as [[H1 H2] | (j & H1 & H2)];
    fold (indexOf text n) in H1.
  - rewrite H1. simpl. split; [discriminate|].
    intros (i & [Hi _] & _). exfalso. now apply (H2 i).
  - simpl in H1. rewrite H1.
    replace (Z.of_nat j =? -1) with false by (symmetry; apply Z.eqb_neq; lia).
    rewrite substring_window by (apply occurs_at_bound with (p := n); apply H2).
    simpl. split.
    + intros H. exists j. split; [exact H2|]. apply exec_yearly.
      destruct (exec yearlyRe (window text j)); [discriminate | discriminate].
    + intros (i & Hi & Hy). rewrite (first_occurrence_unique Hi H2) in Hy.
      apply exec_yearly in Hy.
      destruct (exec yearlyRe (window text j)); [reflexivity | contradiction].
Qed.

Lemma extractProduct_offered (text n : jsstring) :
  List.map name (extractProduct text [] n) = if offered text n then [n] else [].
Proof.
  unfold extractProduct, offered.
  destruct (indexOf text n =? -1); [reflexivity|]. simpl.
  destruct (exec yearlyRe _); reflexivity.
Qed.

(** A capture of any of the four patterns is an amount. *)
Lemma exec_amount (re : regex) (w g : jsstring) :
  grp re = amount -> exec re w = Some g -> amount_text g.
Proof.
  intros Hg E. apply exec_sound in E as (before & rest & -> & E).
  apply matchHere_sound in E as (m1 & m3 & r & -> & _ & H2 & _).
  rewrite Hg in H2. now apply accepts_amount.
Qed.

Lemma orNA_cases (re : regex) (w : jsstring) :
  grp re = amount ->
  orNA (exec re w) = lit "N/A" \/ price_text (orNA (exec re w)).
Proof.
  intros Hg. destruct (exec re w) as [g|] eqn:E; [right | now left].
  exists g. split; [reflexivity|]. now apply exec_amount with (re := re) (w := w).
Qed.

Lemma amount_chars (g : jsstring) : amount_text g -> all amount_char g.
Proof.
  intros (w & d & f & -> & _ & Hw & Hd & Hf). unfold all in *.
  rewrite !forallb_app. apply andb_true_iff. split; [|apply andb_true_iff; split].
  - apply forallb_forall. intros c Hc. unfold amount_char.
    rewrite (proj1 (forallb_forall _ _) Hw c Hc). reflexivity.
  - destruct Hd as [-> | ->]; reflexivity.
  - apply forallb_forall. intros c Hc. unfold amount_char, digit_or_comma.
    rewrite (proj1 (forallb_forall _ _) Hf c Hc). reflexivity.
Qed.

Lemma space_not_amount (c : char) : space c = true -> amount_char c = false.
Proof.
  unfold space, amount_char, digit_or_comma, digit. intros H.
  rewrite !orb_true_iff, !andb_true_iff, !N.leb_le, !N.eqb_eq in H.
  destruct (_ || _) eqn:E; [|reflexivity]. exfalso.
  rewrite !orb_true_iff, !andb_true_iff, !N.leb_le, !N.eqb_eq in E. lia.
Qed.

(** Two runs of amount characters that end before a character of another
    kind, in the same text, are the same run. *)
Lemma run_unique (g g' r r' : jsstring) :
  all amount_char g -> all amount_char g' ->
  g ++ r = g' ++ r' ->
  (forall c t, r = c :: t -> amount_char c = false) ->
  (forall c t, r' = c :: t -> amount_char c = false) ->
  g = g'.
Proof.
  revert g'; induction g as [|c g IH]; intros [|c' g'] Hg Hg' E Hr Hr'.
  - reflexivity.
  - simpl in E. unfold all in Hg'; simpl in Hg'.
    apply andb_true_iff in Hg' as [Hc _].
    rewrite (Hr c' (g' ++ r') E) in Hc. discriminate Hc.
  - simpl in E. unfold all in Hg; simpl in Hg.
    apply andb_true_iff in Hg as [Hc _].
    rewrite (Hr' c (g ++ r) (eq_sym E)) in Hc. discriminate Hc.
  - simpl in E. injection E as -> E.
    unfold all in Hg, Hg'; simpl in Hg, Hg'.
    apply andb_true_iff in Hg as [_ Hg]. apply andb_true_iff in Hg' as [_ Hg'].
    f_equal. now apply IH with (g' := g').
Qed.

Lemma after_amount (ws tail : jsstring) (c : char) (t : jsstring) :
  all space ws -> ws ++ 47%N :: tail = c :: t -> amount_char c = false.
Proof.
  intros Hws E. destruct ws as [|d ws]; simpl in E; injection E as <- _.
  - reflexivity.
  - apply space_not_amount. unfold all in Hws; simpl in Hws.
    now apply andb_true_iff in Hws as [Hd _].
Qed.

(** At a dollar sign followed by an amount, white space and /Yearly, the
    yearly pattern captures that amount. *)
Lemma yearly_capture (g ws after : jsstring) :
  amount_text g -> all space ws ->
  matchHere yearlyRe (lit "$" ++ g ++ ws ++ lit "/Yearly" ++ after) = Some g.
Proof.
  intros Hg Hws.
  destruct (matchHere yearlyRe (lit "$" ++ g ++ ws ++ lit "/Yearly" ++ after))
    as [g'|] eqn:E.
  - f_equal. apply matchHere_sound in E as (m1 & m3 & r & E & H1 & H2 & H3).
    apply (accepts_chars (lit "$")) in H1. subst m1.
    apply accepts_amount in H2.
    cbn [yearlyRe post accepts] in H3. destruct H3 as (ws' & t & -> & Hws' & H3).
    apply (accepts_chars (lit "/Yearly")) in H3. subst t.
    injection E as E. symmetry.
    apply run_unique with (r := ws ++ lit "/Yearly" ++ after)
                          (r' := (ws' ++ lit "/Yearly") ++ r).
    + now apply amount_chars.
    + now apply amount_chars.
    + exact E.
    + intros c t. apply after_amount. exact Hws.
    + intros c t. rewrite <- app_assoc. apply after_amount. exact Hws'.
  - exfalso. revert E.
    replace (lit "$" ++ g ++ ws ++ lit "/Yearly" ++ after)
      with (lit "$" ++ g ++ (ws ++ lit "/Yearly") ++ after)
      by now rewrite <- !app_assoc.
    apply matchHere_complete.
    + now apply (accepts_chars (lit "$")).
    + now apply accepts_amount.
    + cbn [yearlyRe post accepts]. exists ws, (lit "/Yearly").
      repeat split; [exact Hws|]. now apply (accepts_chars (lit "/Yearly")).
Qed.

Lemma dollar_free_check (l : jsstring) :
  existsb (N.eqb 36) l = false -> dollar_free l.
Proof.
  intros H Hin. assert (E : existsb (N.eqb 36) l = true).
  { apply existsb_exists. exists 36%N. split; [exact Hin | apply N.eqb_refl]. }
  rewrite H in E. discriminate E.
Qed.

Lemma yearly_needs_dollar (w : jsstring) : yearly_price_in w -> In 36%N w.
Proof.
  intros (before & g & ws & after & -> & _). apply in_or_app. right. now left.
Qed.

End QuoteFacts.

(** X1.  The quotes come out in the order of the requested names, one for
    each name for which the test of the loop holds and none for the others,
    a name asked twice being answered twice; the test holds exactly when the
    name occurs and a yearly price stands in the window at its first
    occurrence. *)
Theorem extraction_keeps_order (text : jsstring) (productNames : list jsstring) :
  List.map name (extractProductsFromText text productNames)
  = filter (offered text) productNames /\
  (List.length (extractProductsFromText text productNames)
   <= List.length productNames)%nat /\
  (forall n, offered text n = true <->
     exists i, first_occurrence text n i /\ yearly_price_in (window text i)).
Proof.
  assert (H : List.map name (extractProductsFromText text productNames)
              = filter (offered text) productNames).
  { rewrite ExtractionFacts.extractProductsFromText_flat_map.
    induction productNames as [|n names IH]; [reflexivity|].
    simpl. rewrite map_app, IH, QuoteFacts.extractProduct_offered.
    now destruct (offered text n). }
  split; [exact H|]. split.
  - rewrite <- (length_map name), H. apply filter_length_le.
  - intros n. apply QuoteFacts.offered_spec.
Qed.

(** X2.  Every quote that comes out is well formed: the yearly price is a
    dollar sign and an amount; the monthly price and the total are such a
    price or the text N/A; the saving is such a price or missing; no feature
    is listed; the name is one of those asked for. *)
Theorem extracted_fields_well_formed
        (text : jsstring) (productNames : list jsstring) (q : ProductQuote) :
  In q (extractProductsFromText text productNames) ->
  In (name q) productNames /\
  price_text (yearlyPrice q) /\
  (monthlyPrice q = lit "N/A" \/ price_text (monthlyPrice q)) /\
  (totalOver12Months q = lit "N/A" \/ price_text (totalOver12Months q)) /\
  (yearlySaving q = None \/ exists p, yearlySaving q = Some p /\ price_text p) /\
  features q = [].
Proof.
  rewrite ExtractionFacts.extractProductsFromText_flat_map.
  intros Hin. apply in_flat_map in Hin as (n & Hn & Hin).
  destruct (ExtractionFacts.extractProduct_cases text n)
    as [[E _] | (q' & i & g & E & Hname & _ & _ & Hy & Hp & Hm & Ht & Hs & Hf)];
    rewrite E in Hin; [contradiction|].
  destruct Hin as [<- | []].
  split; [now rewrite Hname|]. split.
  - exists g. split; [exact Hp|].
    now apply QuoteFacts.exec_amount with (re := yearlyRe) (w := window text i).
  - split; [rewrite Hm; now apply QuoteFacts.orNA_cases|].
    split; [rewrite Ht; now apply QuoteFacts.orNA_cases|].
    split; [|exact Hf].
    rewrite Hs. destruct (exec savingRe (window text i)) as [s|] eqn:Es; [right | now left].
    exists (dollar s). split; [reflexivity|]. exists s. split; [reflexivity|].
    now apply QuoteFacts.exec_amount with (re := savingRe) (w := window text i).
Qed.

(** X3.  The yearly price of a quote is the first one in the window: when
    the window at the first occurrence of the name reads, after a stretch
    free of dollar signs, a dollar sign, an amount, white space and /Yearly,
    a quote comes out under the name with that amount as its yearly price. *)
Theorem first_yearly_price_wins
        (text n : jsstring) (productNames : list jsstring) (i : nat)
        (before g ws after : jsstring) :
  In n productNames ->
  first_occurrence text n i ->
  window text i = before ++ lit "$" ++ g ++ ws ++ lit "/Yearly" ++ after ->
  dollar_free before -> amount_text g -> all space ws ->
  exists q,
    In q (extractProductsFromText text productNames) /\
    name q = n /\ yearlyPrice q = dollar g.
Proof.
  intros Hin Hi Hw Hfree Hg Hws.
  assert (Hy : exec yearlyRe (window text i) = Some g).
  { rewrite Hw.
    rewrite CardFacts.exec_skip_others with (h := 36%N) (r0 := []);
      [| reflexivity | exact Hfree].
    apply RegexFacts.exec_here. now apply QuoteFacts.yearly_capture. }
  destruct (ExtractionFacts.extractProduct_cases text n)
    as [[_ E] | (q & j & g' & E & Hname & Hj & _ & Hy' & Hp & _)].
  - exfalso. apply E. exists i. split; [exact Hi|].
    apply RegexFacts.exec_yearly. rewrite Hy. discriminate.
  - exists q. rewrite ExtractionFacts.extractProductsFromText_flat_map.
    split; [|split; [exact Hname|]].
    + apply in_flat_map. exists n. split; [exact Hin|]. rewrite E. now left.
    + rewrite (JSFacts.first_occurrence_unique Hj Hi) in Hy'.
      rewrite Hy in Hy'. injection Hy' as <-. exact Hp.
Qed.

(** X4.  Only the window counts: when the 500 code units at the first
    occurrence of a name hold no dollar sign, no quote comes out under that
    name, whatever the text holds further on, a later occurrence of the
    name with its price included. *)
Theorem no_dollar_in_window_no_quote
        (text n : jsstring) (productNames : list jsstring) (i : nat) :
  first_occurrence text n i ->
  dollar_free (window text i) ->
  forall q, In q (extractProductsFromText text productNames) -> name q <> n.
Proof.
  intros Hi Hfree q Hin Hn.
  rewrite ExtractionFacts.extractProductsFromText_flat_map in Hin.
  apply in_flat_map in Hin as (m & _ & Hin).
  destruct (ExtractionFacts.extractProduct_cases text m)
    as [[E _] | (q' & j & g & E & Hname & Hj & Hy & _)];
    rewrite E in Hin; [contradiction|].
  destruct Hin as [<- | []]. rewrite Hname in Hn. subst m.
  rewrite (JSFacts.first_occurrence_unique Hj Hi) in Hy.
  apply Hfree. now apply QuoteFacts.yearly_needs_dollar.
Qed.

(** X2 on the text of the example. *)
Lemma extracted_fields_well_formed_witness :
  In cardQuote (extractProductsFromText sampleText [COMPREHENSIVE]) /\
  price_text (yearlyPrice cardQuote) /\ features cardQuote = [].
Proof.
  assert (Hin : In cardQuote (extractProductsFromText sampleText [COMPREHENSIVE]))
    by (left; reflexivity).
  split; [exact Hin|].
  destruct (extracted_fields_well_formed sampleText [COMPREHENSIVE] cardQuote Hin)
    as (_ & Hy & _ & _ & _ & Hf).
  split; [exact Hy | exact Hf].
Defined.

(** X3 on the text where an earlier price stands before the fragments: the
    yearly price that comes out is that earlier one. *)
Lemma first_yearly_price_wins_witness :
  exists q,
    In q (extractProductsFromText crowdedText [COMPREHENSIVE]) /\
    name q = COMPREHENSIVE /\ yearlyPrice q = lit "$99".
Proof.
  apply (@first_yearly_price_wins crowdedText COMPREHENSIVE [COMPREHENSIVE] 0
           (lit "Comprehensive ") (lit "99") []
           (lit " $120.50/Yearly $10.50/Monthly ($120.50 over 12 months) Save $15.00")).
  - left. reflexivity.
  - apply JSFacts.indexOf_first. reflexivity.
  - reflexivity.
  - unfold dollar_free. vm_compute. intuition discriminate.
  - exists (lit "99"), [], []. repeat split; [discriminate | now left].
  - reflexivity.
Defined.

(** X4 on a text where the price comes 500 spaces after the name. *)
Lemma no_dollar_in_window_no_quote_witness :
  In 36%N farPriceText /\
  forall q,
    In q (extractProductsFromText farPriceText [COMPREHENSIVE; lit "Complete Care"]) ->
    name q <> COMPREHENSIVE.
Proof.
  split; [apply in_or_app; right; apply in_or_app; right; now left|].
  apply (@no_dollar_in_window_no_quote farPriceText COMPREHENSIVE
           [COMPREHENSIVE; lit "Complete Care"] 0).
  - apply JSFacts.indexOf_first. reflexivity.
  - apply QuoteFacts.dollar_free_check. reflexivity.
Defined.

(** ** The store: keys, order, counts *)

Module StoreShape.
Import JSFacts StoreFacts.

Lemma keys_alter (f : QuoteSession -> QuoteSession) (m : Store) (k : jsstring) :
  keys (Map_alter f m k) = keys m.
Proof.
  induction m as [|[j v] m IH]; simpl; [reflexivity|].
  destruct (JS.eqb j k); simpl; [reflexivity | now rewrite IH].
Qed.

Lemma delete_filter (m : Store) (k : jsstring) :
  Map_delete m k = filter (others k) m.
Proof.
  induction m as [|[j v] m IH]; simpl; [reflexivity|].
  unfold others at 1. simpl. destruct (JS.eqb j k); simpl; [exact IH | now rewrite IH].
Qed.

Lemma get_none_keys (m : Store) (k : jsstring) :
  Map_get m k = None <-> ~ In k (keys m).
Proof.
  induction m as [|[j v] m IH]; simpl; [tauto|].
  destruct (JS.eqb j k) eqn:E.
  - apply eqb_eq in E. subst. split; [discriminate | intros H; exfalso; apply H; now left].
  - apply eqb_neq in E. rewrite IH. tauto.
Qed.

Lemma set_fresh (m : Store) (k : jsstring) (v : QuoteSession) :
  Map_get m k = None -> Map_set m k v = m ++ [(k, v)].
Proof.
  induction m as [|[j u] m IH]; simpl; [reflexivity|].
  destruct (JS.eqb j k); [discriminate|]. intros H. now rewrite IH.
Qed.

Lemma set_present (m : Store) (k : jsstring) (v s : QuoteSession) :
  Map_get m k = Some s -> keys (Map_set m k v) = keys m.
Proof.
  induction m as [|[j u] m IH]; simpl; [discriminate|].
  destruct (JS.eqb j k); simpl; [reflexivity|]. intros H. now rewrite IH.
Qed.

Lemma in_set (m : Store) (k : jsstring) (v : QuoteSession)
      (k' : jsstring) (s' : QuoteSession) :
  In (k', s') (Map_set m k v) -> In (k', s') m \/ (k' = k /\ s' = v).
Proof.
  induction m as [|[j u] m IH]; simpl.
  - intros [E | []]. injection E as <- <-. now right.
  - destruct (JS.eqb j k) eqn:E; simpl.
    + apply eqb_eq in E. subst j. intros [H | H]; [|tauto].
      injection H as <- <-. now right.
    + intros [H | H]; [tauto|]. apply IH in H. tauto.
Qed.

Lemma in_alter (f : QuoteSession -> QuoteSession) (m : Store) (k : jsstring)
      (k' : jsstring) (s' : QuoteSession) :
  In (k', s') (Map_alter f m k) ->
  exists s, In (k', s) m /\ (s' = s \/ s' = f s).
Proof.
  induction m as [|[j u] m IH]; simpl; [tauto|].
  destruct (JS.eqb j k); simpl.
  - intros [H | H].
    + injection H as <- <-. exists u. split; [now left | now right].
    + exists s'. split; [now right | now left].
  - intros [H | H].
    + injection H as <- <-. exists u. split; [now left | now left].
    + apply IH in H as (s & Hs & Hs'). exists s. split; [now right | exact Hs'].
Qed.

Lemma NoDup_keys_filter (p : jsstring * QuoteSession -> bool) (m : Store) :
  NoDup (keys m) -> NoDup (keys (filter p m)).
Proof.
  induction m as [|[j u] m IH]; simpl; [auto|].
  intros H. inversion H as [|? ? Hj Hm]; subst.
  destruct (p (j, u)); simpl; [|now apply IH].
  constructor; [|now apply IH].
  intros Hin. apply Hj. unfold keys in *.
  apply in_map_iff in Hin as ([j' u'] & E & Hin). simpl in E. subst j'.
  apply filter_In in Hin as [Hin _].
  apply in_map_iff. now exists (j, u').
Qed.

Lemma well_keyed_filter (p : jsstring * QuoteSession -> bool) (m : Store) :
  well_keyed m -> well_keyed (filter p m).
Proof.
  intros [Hn Hid]. split; [now apply NoDup_keys_filter|].
  intros k s Hin. apply filter_In in Hin as [Hin _]. now apply Hid.
Qed.

Lemma well_keyed_delete (m : Store) (k : jsstring) :
  well_keyed m -> well_keyed (Map_delete m k).
Proof. rewrite delete_filter. apply well_keyed_filter. Qed.

Lemma well_keyed_alter (f : QuoteSession -> QuoteSession) (m : Store) (k : jsstring) :
  (forall s, id (f s) = id s) -> well_keyed m -> well_keyed (Map_alter f m k).
Proof.
  intros Hf [Hn Hid]. split; [now rewrite keys_alter|].
  intros k' s' Hin. apply in_alter in Hin as (s & Hs & [-> | ->]).
  - now apply Hid.
  - rewrite Hf. now apply Hid.
Qed.

Lemma well_keyed_set (m : Store) (v : QuoteSession) :
  well_keyed m -> well_keyed (Map_set m (id v) v).
Proof.
  intros [Hn Hid]. split.
  - destruct (Map_get m (id v)) as [s|] eqn:G.
    + now rewrite set_present with (s := s).
    + rewrite set_fresh by exact G. unfold keys. rewrite map_app. simpl.
      apply NoDup_app; [exact Hn | constructor; [tauto | constructor] |].
      intros k Hk [<- | []]. now apply get_none_keys in G.
  - intros k s Hin. apply in_set in Hin as [Hin | [-> ->]]; [now apply Hid | reflexivity].
Qed.

(** Under one entry per key, lookup finds every entry. *)
Lemma in_get (m : Store) (k : jsstring) (s : QuoteSession) :
  NoDup (keys m) -> In (k, s) m -> Map_get m k = Some s.
Proof.
  induction m as [|[j u] m IH]; simpl; [tauto|].
  intros H Hin. inversion H as [|? ? Hj Hm]; subst.
  destruct Hin as [E | Hin].
  - injection E as -> ->. now rewrite eqb_refl.
  - destruct (JS.eqb j k) eqn:E; [|now apply IH].
    apply eqb_eq in E. subst j. exfalso. apply Hj.
    unfold keys. apply in_map_iff. now exists (k, s).
Qed.

Lemma length_delete_present (m : Store) (k : jsstring) (s : QuoteSession) :
  NoDup (keys m) -> Map_get m k = Some s ->
  S (List.length (Map_delete m k)) = List.length m.
Proof.
  induction m as [|[j u] m IH]; simpl; [discriminate|].
  intros H G. inversion H as [|? ? Hj Hm]; subst.
  destruct (JS.eqb j k) eqn:E.
  - apply eqb_eq in E. subst j. f_equal. rewrite delete_absent; [reflexivity|].
    now apply get_none_keys.
  - simpl. f_equal. now apply IH.
Qed.

End StoreShape.

Module SweepShape.
Import JSFacts StoreFacts StoreShape ReaperFacts.

Lemma filter_all (A : Type) (p : A -> bool) (l : list A) :
  (forall x, In x l -> p x = true) -> filter p l = l.
Proof.
  induction l as [|x l IH]; simpl; [reflexivity|].
  intros H. rewrite (H x) by now left. f_equal. apply IH. intros y Hy. apply H. now right.
Qed.

Lemma filter_twice (A : Type) (p q : A -> bool) (l : list A) :
  filter p (filter q l) = filter (fun x => q x && p x) l.
Proof.
  induction l as [|x l IH]; simpl; [reflexivity|].
  destruct (q x); simpl; [destruct (p x); now rewrite IH | exact IH].
Qed.

Lemma reapStep_filter (now : Z) (m : Store) (k : jsstring) :
  NoDup (keys m) ->
  reapStep now m k
  = filter (fun e => negb (JS.eqb (fst e) k && expired now (snd e))) m.
Proof.
  intros Hn. unfold reapStep. destruct (Map_get m k) as [s|] eqn:G.
  - destruct (expired now s) eqn:X.
    + rewrite delete_filter. apply filter_ext_in. intros [j u] Hin.
      unfold others. simpl. destruct (JS.eqb j k) eqn:E; [|reflexivity].
      apply eqb_eq in E. subst j.
      rewrite (in_get _ _ _ Hn Hin) in G. injection G as ->. now rewrite X.
    + symmetry. apply filter_all. intros [j u] Hin. simpl.
      destruct (JS.eqb j k) eqn:E; [|reflexivity].
      apply eqb_eq in E. subst j.
      rewrite (in_get _ _ _ Hn Hin) in G. injection G as ->. now rewrite X.
  - symmetry. apply filter_all. intros [j u] Hin. simpl.
    destruct (JS.eqb j k) eqn:E; [|reflexivity].
    apply eqb_eq in E. subst j. exfalso.
    apply get_none_keys in G. apply G. unfold keys. apply in_map_iff. now exists (k, u).
Qed.

Lemma fold_reap_filter (now : Z) (ks : list jsstring) (m : Store) :
  NoDup (keys m) ->
  fold_left (reapStep now) ks m
  = filter (fun e => negb (existsb (JS.eqb (fst e)) ks && expired now (snd e))) m.
Proof.
  revert m; induction ks as [|k ks IH]; intros m Hn; simpl.
  - symmetry. now apply filter_all.
  - rewrite reapStep_filter by exact Hn.
    rewrite IH by now apply NoDup_keys_filter.
    rewrite filter_twice. apply filter_ext. intros [j u]. simpl.
    destruct (JS.eqb j k), (existsb (JS.eqb j) ks), (expired now u); reflexivity.
Qed.

Lemma sweep_filter (now : Z) (m : Store) :
  NoDup (keys m) -> fold_left (reapStep now) (keys m) m = filter (alive now) m.
Proof.
  intros Hn. rewrite fold_reap_filter by exact Hn.
  apply filter_ext_in. intros [j u] Hin. unfold alive. simpl.
  replace (existsb (JS.eqb j) (keys m)) with true; [reflexivity|].
  symmetry. apply existsb_exists. exists j. split; [|apply eqb_refl].
  unfold keys. apply in_map_iff. now exists (j, u).
Qed.

Lemma tornDown_earlier (now : Z) (m : Store) (k : jsstring) (ev : Event) :
  tornDown (reapStep now m k) now ev -> tornDown m now ev.
Proof.
  intros [H | (j & s & G & X & H)]; [now left | right].
  exists j, s. split; [|now split].
  rewrite reapStep_get in G. destruct (JS.eqb k j); [|exact G].
  destruct (Map_get m j) as [s'|]; simpl in G; [|discriminate].
  destruct (expired now s'); [discriminate | exact G].
Qed.

Section Sweep.
Variable O : Oracle.
Variable now : Z.

Lemma turn_trace (entry : jsstring * QuoteSession) (w : Server) :
  exists w1 evs,
    reaperTurn O now entry w = (Ok tt, w1) /\
    sessions w1 = reapStep now (sessions w) (fst entry) /\
    trace (ext w1) = trace (ext w) ++ evs /\
    Forall (tornDown (sessions w) now) evs /\
    (forall s, Map_get (sessions w) (fst entry) = Some s -> expired now s = true ->
       In (EvContextClose (context s)) evs).
Proof.
  unfold reaperTurn, bind at 1, gets, reapStep, expired.
  destruct (Map_get (sessions w) (fst entry)) as [s|] eqn:G.
  - destruct (now - lastActivity s >? SESSION_TIMEOUT_MS) eqn:X.
    + unfold bind, lift, console_log, modify. simpl.
      rewrite SessionFacts.destroySession_present with (s := s) by exact G.
      assert (Hc : tornDown (sessions w) now (EvContextClose (context s)))
        by (right; exists (fst entry), s; auto).
      assert (Hb : tornDown (sessions w) now (EvBrowserClose (browser s)))
        by (right; exists (fst entry), s; auto).
      unfold teardown. simpl.
      destruct (rejects O (tick (ext w))).
      * eexists _, _. split; [reflexivity|]. simpl. split; [reflexivity|].
        rewrite <- !app_assoc. simpl. split; [reflexivity|]. split.
        -- apply Forall_cons; [left; eauto|].
           apply Forall_cons; [exact Hc | constructor].
        -- intros s' E _. injection E as <-. right. now left.
      * eexists _, _. split; [reflexivity|]. simpl. split; [reflexivity|].
        rewrite <- !app_assoc. simpl. split; [reflexivity|]. split.
        -- apply Forall_cons; [left; eauto|].
           apply Forall_cons; [exact Hc|].
           apply Forall_cons; [exact Hb | constructor].
        -- intros s' E _. injection E as <-. right. now left.
    + exists w, []. rewrite app_nil_r. repeat split; [constructor|].
      intros s' E X'. injection E as <-. unfold expired in X'. congruence.
  - exists w, []. rewrite app_nil_r. repeat split; [constructor|]. discriminate.
Qed.

Lemma forEach_trace (entries : list (jsstring * QuoteSession)) (w : Server) :
  exists w1 evs,
    forEach entries (reaperTurn O now) w = (Ok tt, w1) /\
    trace (ext w1) = trace (ext w) ++ evs /\
    Forall (tornDown (sessions w) now) evs /\
    (forall k s, Map_get (sessions w) k = Some s -> expired now s = true ->
       existsb (fun j => JS.eqb j k) (keys entries) = true ->
       In (EvContextClose (context s)) evs).
Proof.
  revert w; induction entries as [|entry entries IH]; intros w; simpl.
  - exists w, []. rewrite app_nil_r. repeat split; [constructor | discriminate].
  - destruct (turn_trace entry w) as (w1 & evs1 & E1 & S1 & T1 & F1 & C1).
    destruct (IH w1) as (w2 & evs2 & E2 & T2 & F2 & C2).
    exists w2, (evs1 ++ evs2). unfold bind. rewrite E1.
    split; [exact E2|]. split; [now rewrite T2, T1, app_assoc|]. split.
    + apply Forall_app. split; [exact F1|].
      eapply Forall_impl; [|exact F2]. intros ev. rewrite S1. apply tornDown_earlier.
    + intros k s G X Hk. apply in_or_app.
      destruct (JS.eqb (fst entry) k) eqn:E.
      * left. apply eqb_eq in E. subst k. now apply C1.
      * right. apply C2 with (k := k); [| exact X | exact Hk].
        rewrite S1, reapStep_get, E. exact G.
Qed.

End Sweep.
End SweepShape.

(** X5.  The store keeps its shape through every operation of the session
    manager: one entry per key, each session under its own id. *)
Theorem store_stays_well_keyed (O : Oracle) (w : Server) :
  well_keyed (sessions w) ->
  well_keyed (sessions (snd (createSession O w))) /\
  (forall i, well_keyed (sessions (snd (getSession i w)))) /\
  (forall i st, well_keyed (sessions (snd (updateSessionState i st w)))) /\
  (forall i, well_keyed (sessions (snd (destroySession O i w)))) /\
  well_keyed (sessions (snd (reaper O w))).
Proof.
  intros Hw. split; [|split; [|split; [|split]]].
  - destruct (HandlerFacts.createSession_cases O w)
      as [(s & w1 & E & Hs & _) | (e & w1 & E & Hs)]; rewrite E; simpl; rewrite Hs.
    + now apply StoreShape.well_keyed_set.
    + exact Hw.
  - intros i. destruct (Map_get (sessions w) i) as [s|] eqn:G.
    + rewrite SessionFacts.getSession_present with (s := s) by exact G. simpl.
      now apply StoreShape.well_keyed_alter.
    + now rewrite SessionFacts.getSession_absent.
  - intros i st. destruct (Map_get (sessions w) i) as [s|] eqn:G.
    + rewrite SessionFacts.updateSessionState_present with (s := s) by exact G. simpl.
      now apply StoreShape.well_keyed_alter.
    + now rewrite SessionFacts.updateSessionState_absent.
  - intros i. destruct (Map_get (sessions w) i) as [s|] eqn:G.
    + rewrite SessionFacts.destroySession_present with (s := s) by exact G. simpl.
      now apply StoreShape.well_keyed_delete.
    + now rewrite SessionFacts.destroySession_absent.
  - unfold reaper, bind at 1, lift, Date_now, gets. simpl.
    unfold bind at 1, gets. simpl.
    destruct (ReaperFacts.forEach_turn O (clock (ext w)) (sessions w)
                {| sessions := sessions w; ext := ext w |}) as (w1 & E & S & _).
    rewrite E. simpl. rewrite S. simpl.
    fold (keys (sessions w)). rewrite SweepShape.sweep_filter by apply Hw.
    now apply StoreShape.well_keyed_filter.
Qed.

Module CreateFacts.

Lemma createSession_ok (O : Oracle) (w w1 : Server) (session : QuoteSession) :
  createSession O w = (Ok session, w1) ->
  state session = initialized /\
  createdAt session = clock (ext w1) /\
  lastActivity session = clock (ext w1) /\
  sessions w1 = Map_set (sessions w) (id session) session.
Proof.
  unfold createSession, launchBrowser, bind, lift, extern, uuid_v4, Date_now,
    onSessions, modify, gets, ret.
  simpl.
  destruct (rejects O (tick (ext w))); simpl; [discriminate|].
  destruct (rejects O (S (tick (ext w)))); simpl; [discriminate|].
  destruct (rejects O (S (S (tick (ext w))))); simpl; [discriminate|].
  destruct (rejects O (S (S (S (tick (ext w)))))); simpl; [discriminate|].
  intros E. injection E as <- <-. simpl. auto.
Qed.

Lemma createSession_throw (O : Oracle) (w w1 : Server) (e : option jsstring) :
  createSession O w = (Throw e, w1) ->
  sessions w1 = sessions w /\
  exists evs,
    trace (ext w1) = trace (ext w) ++ evs /\
    forallb (fun ev => negb (isClose ev)) evs = true /\
    (rejects O (tick (ext w)) = None -> In (EvLaunch (tick (ext w))) evs).
Proof.
  unfold createSession, launchBrowser, bind, lift, extern, uuid_v4, Date_now,
    onSessions, modify, gets, ret.
  simpl.
  destruct (rejects O (tick (ext w))); simpl.
  { intros E. injection E as <- <-. simpl. split; [reflexivity|].
    eexists. split; [reflexivity|]. split; [reflexivity | discriminate]. }
  destruct (rejects O (S (tick (ext w)))); simpl.
  { intros E. injection E as <- <-. simpl. split; [reflexivity|].
    eexists. rewrite <- !app_assoc. split; [reflexivity|].
    split; [reflexivity | intros _; simpl; tauto]. }
  destruct (rejects O (S (S (tick (ext w))))); simpl.
  { intros E. injection E as <- <-. simpl. split; [reflexivity|].
    eexists. rewrite <- !app_assoc. split; [reflexivity|].
    split; [reflexivity | intros _; simpl; tauto]. }
  destruct (rejects O (S (S (S (tick (ext w)))))); simpl.
  { intros E. injection E as <- <-. simpl. split; [reflexivity|].
    eexists. rewrite <- !app_assoc. split; [reflexivity|].
    split; [reflexivity | intros _; simpl; tauto]. }
  discriminate.
Qed.

End CreateFacts.

(** X6.  A session that [createSession] returns is in its first state,
    created and last active at the current time, and registered under its
    id: [getSession] on that id returns it at once.  The other ids read as
    before, and when the id is new the entry is the last of the store. *)
Theorem createSession_registers
        (O : Oracle) (w w1 : Server) (session : QuoteSession) :
  createSession O w = (Ok session, w1) ->
  state session = initialized /\
  createdAt session = clock (ext w1) /\
  lastActivity session = clock (ext w1) /\
  fst (getSession (id session) w1) = Ok (Some session) /\
  (forall other, other <> id session ->
     Map_get (sessions w1) other = Map_get (sessions w) other) /\
  (Map_get (sessions w) (id session) = None ->
     sessions w1 = sessions w ++ [(id session, session)]).
Proof.
  intros E. destruct (@CreateFacts.createSession_ok O w w1 session E) as (Hst & Hc & Hl & Hs).
  assert (Hg : Map_get (sessions w1) (id session) = Some session)
    by (rewrite Hs; apply StoreFacts.get_set_same).
  repeat split; auto.
  - rewrite SessionFacts.getSession_present with (s := session) by exact Hg.
    simpl. rewrite <- Hl. now destruct session.
  - intros other Ho. rewrite Hs. clear - Ho.
    induction (sessions w) as [|[j u] m IH]; simpl.
    + destruct (JS.eqb (id session) other) eqn:X; [|reflexivity].
      apply JSFacts.eqb_eq in X. congruence.
    + destruct (JS.eqb j (id session)) eqn:X; simpl.
      * apply JSFacts.eqb_eq in X. subst j.
        destruct (JS.eqb (id session) other) eqn:Y; [|reflexivity].
        apply JSFacts.eqb_eq in Y. congruence.
      * now rewrite IH.
  - intros Hfresh. rewrite Hs. now apply StoreShape.set_fresh.
Qed.

(** X7.  When [createSession] throws, the store is as before and nothing
    was closed: if the browser itself had been launched, it is left
    running, registered nowhere. *)
Theorem createSession_failure_closes_nothing
        (O : Oracle) (w w1 : Server) (e : option jsstring) :
  createSession O w = (Throw e, w1) ->
  sessions w1 = sessions w /\
  exists evs,
    trace (ext w1) = trace (ext w) ++ evs /\
    (forall ev, In ev evs -> isClose ev = false) /\
    (rejects O (tick (ext w)) = None -> In (EvLaunch (tick (ext w))) evs).
Proof.
  intros E. destruct (@CreateFacts.createSession_throw O w w1 e E) as (Hs & evs & T & C & L).
  split; [exact Hs|]. exists evs. split; [exact T|]. split; [|exact L].
  intros ev Hin. apply (proj1 (forallb_forall _ _) C) in Hin.
  now apply negb_true_iff in Hin.
Qed.

(** X8.  [getSession] and [updateSessionState] neither add, remove nor
    move an entry, whatever the id, and ask nothing of the outside world:
    the keys of the store, in order, and the number reported by
    [getActiveSessions] are as before. *)
Theorem lookups_keep_the_entries (w : Server) (i : jsstring) (st : QuoteState) :
  keys (sessions (snd (getSession i w))) = keys (sessions w) /\
  keys (sessions (snd (updateSessionState i st w))) = keys (sessions w) /\
  ext (snd (getSession i w)) = ext w /\
  ext (snd (updateSessionState i st w)) = ext w /\
  fst (getActiveSessions (snd (getSession i w))) = fst (getActiveSessions w) /\
  fst (getActiveSessions (snd (updateSessionState i st w))) = fst (getActiveSessions w).
Proof.
  assert (Hlen : forall m m' : Store, keys m = keys m' -> List.length m = List.length m').
  { intros m m' H. unfold keys in H.
    now rewrite <- (length_map fst m), H, length_map. }
  unfold getActiveSessions, gets. simpl.
  destruct (Map_get (sessions w) i) as [s|] eqn:G.
  - rewrite SessionFacts.getSession_present with (s := s) by exact G.
    rewrite SessionFacts.updateSessionState_present with (s := s) by exact G.
    simpl. rewrite !StoreShape.keys_alter.
    repeat split; try reflexivity; f_equal; apply Hlen; apply StoreShape.keys_alter.
  - rewrite SessionFacts.getSession_absent by exact G.
    rewrite SessionFacts.updateSessionState_absent by exact G.
    simpl. repeat split; reflexivity.
Qed.

(** X9.  On a store with one entry per key, [destroySession] of a
    registered id removes exactly one entry, the others staying in their
    order; [getActiveSessions] then reports one less. *)
Theorem destroySession_removes_one
        (O : Oracle) (w : Server) (i : jsstring) (s : QuoteSession) :
  well_keyed (sessions w) ->
  Map_get (sessions w) i = Some s ->
  let w1 := snd (destroySession O i w) in
  sessions w1 = filter (others i) (sessions w) /\
  S (List.length (sessions w1)) = List.length (sessions w) /\
  fst (getActiveSessions w1) = Ok (List.length (sessions w) - 1)%nat.
Proof.
  intros [Hn _] G w1. unfold w1.
  rewrite SessionFacts.destroySession_present with (s := s) by exact G. simpl.
  pose proof (StoreShape.length_delete_present _ _ Hn G) as Hl.
  split; [apply StoreShape.delete_filter|]. split; [exact Hl|].
  unfold getActiveSessions, gets. simpl. f_equal. lia.
Qed.

(** X10.  On a store with one entry per key, a sweep of the reaper keeps
    the sessions that are not expired when it begins, in their order, and
    nothing else. *)
Theorem reaper_keeps_the_alive (O : Oracle) (w : Server) :
  well_keyed (sessions w) ->
  exists w1,
    reaper O w = (Ok tt, w1) /\
    sessions w1 = filter (alive (clock (ext w))) (sessions w) /\
    fst (getActiveSessions w1)
    = Ok (List.length (filter (alive (clock (ext w))) (sessions w))).
Proof.
  intros [Hn _].
  unfold reaper, bind at 1, lift, Date_now, gets. simpl.
  unfold bind at 1, gets. simpl.
  destruct (ReaperFacts.forEach_turn O (clock (ext w)) (sessions w)
              {| sessions := sessions w; ext := ext w |}) as (w1 & E & S & _).
  exists w1. split; [exact E|]. simpl in S. fold (keys (sessions w)) in S.
  rewrite SweepShape.sweep_filter in S by exact Hn.
  split; [exact S|]. unfold getActiveSessions, gets. simpl. now rewrite S.
Qed.

Module HandleFacts.
Import JSFacts StoreFacts.

Lemma get_set_other (m : Store) (k j : jsstring) (v : QuoteSession) :
  j <> k -> Map_get (Map_set m k v) j = Map_get m j.
Proof.
  intros Hj. induction m as [|[i u] m IH]; simpl.
  - replace (JS.eqb k j) with false; [reflexivity|].
    symmetry. apply eqb_neq. congruence.
  - destruct (JS.eqb i k) eqn:X; simpl.
    + apply eqb_eq in X. subst i.
      replace (JS.eqb k j) with false; [reflexivity|].
      symmetry. apply eqb_neq. congruence.
    + now rewrite IH.
Qed.

Lemma get_set (m : Store) (k j : jsstring) (v s : QuoteSession) :
  Map_get (Map_set m k v) j = Some s ->
  (j = k /\ s = v) \/ (j <> k /\ Map_get m j = Some s).
Proof.
  destruct (JS.eqb j k) eqn:X.
  - apply eqb_eq in X. subst j. rewrite get_set_same. intros H. left.
    split; [reflexivity | congruence].
  - apply eqb_neq in X. rewrite get_set_other by exact X. now right.
Qed.

(** The handles of a new session are the numbers of the calls that made
    them. *)
Lemma createSession_handles (O : Oracle) (w w1 : Server) (session : QuoteSession) :
  createSession O w = (Ok session, w1) ->
  browser session = tick (ext w) /\
  context session = S (tick (ext w)) /\
  tick (ext w1) = (5 + tick (ext w))%nat.
Proof.
  unfold createSession, launchBrowser, bind, lift, extern, uuid_v4, Date_now,
    onSessions, modify, gets, ret.
  simpl.
  destruct (rejects O (tick (ext w))); simpl; [discriminate|].
  destruct (rejects O (S (tick (ext w)))); simpl; [discriminate|].
  destruct (rejects O (S (S (tick (ext w))))); simpl; [discriminate|].
  destruct (rejects O (S (S (S (tick (ext w)))))); simpl; [discriminate|].
  intros E. injection E as <- <-. simpl. auto.
Qed.

(** The sessions [createSession] registers never share a handle with the
    sessions already there: from the empty store on, the handles stay
    distinct. *)
Lemma createSession_keeps_handles_distinct
      (O : Oracle) (w w1 : Server) (session : QuoteSession) :
  distinct_handles (sessions w) -> handles_known w ->
  createSession O w = (Ok session, w1) ->
  distinct_handles (sessions w1) /\ handles_known w1.
Proof.
  intros D Kn E.
  destruct (@createSession_handles O w w1 session E) as (Hb & Hc & Ht).
  destruct (@CreateFacts.createSession_ok O w w1 session E) as (_ & _ & _ & Hs).
  split.
  - intros k1 s1 k2 s2 G1 G2 Hsame. rewrite Hs in G1, G2.
    apply get_set in G1 as [[-> ->] | [N1 G1]];
      apply get_set in G2 as [[-> ->] | [N2 G2]].
    + reflexivity.
    + exfalso. destruct (Kn k2 s2 G2). lia.
    + exfalso. destruct (Kn k1 s1 G1). lia.
    + exact (D k1 s1 k2 s2 G1 G2 Hsame).
  - intros k s G. rewrite Hs in G.
    apply get_set in G as [[-> ->] | [N G]]; [lia|].
    destruct (Kn k s G). lia.
Qed.

Lemma empty_handles : distinct_handles (sessions empty) /\ handles_known empty.
Proof. split; [intros k1 s1 k2 s2 G | intros k s G]; discriminate G. Qed.

Lemma twoSessions_distinct : distinct_handles (sessions twoSessions).
Proof.
  intros k1 s1 k2 s2. cbn [twoSessions sessions Map_get].
  destruct (JS.eqb (lit "s1") k1) eqn:A1; destruct (JS.eqb (lit "s1") k2) eqn:A2.
  - apply eqb_eq in A1, A2. congruence.
  - destruct (JS.eqb (lit "s2") k2); [|discriminate].
    intros H1 H2. injection H1 as <-. injection H2 as <-.
    intros [H | H]; discriminate H.
  - destruct (JS.eqb (lit "s2") k1); [|discriminate].
    intros H1 H2. injection H1 as <-. injection H2 as <-.
    intros [H | H]; discriminate H.
  - destruct (JS.eqb (lit "s2") k1) eqn:B1; [|discriminate].
    destruct (JS.eqb (lit "s2") k2) eqn:B2; [|discriminate].
    apply eqb_eq in B1, B2. congruence.
Qed.

End HandleFacts.

(** X11.  A sweep of the reaper asks for the context of every expired
    session to be closed; besides its log lines, every call it makes closes
    the context or the browser of a session that was expired when it
    began.  When no two sessions of the store share a context or a
    browser, neither the context nor the browser of a session that is not
    expired is asked to close. *)
Theorem reaper_closes_only_expired (O : Oracle) (w : Server) :
  exists w1 evs,
    reaper O w = (Ok tt, w1) /\
    trace (ext w1) = trace (ext w) ++ evs /\
    (forall ev, In ev evs -> tornDown (sessions w) (clock (ext w)) ev) /\
    (forall k s, Map_get (sessions w) k = Some s ->
       expired (clock (ext w)) s = true ->
       In (EvContextClose (context s)) evs) /\
    (distinct_handles (sessions w) ->
     forall k s, Map_get (sessions w) k = Some s ->
       expired (clock (ext w)) s = false ->
       ~ In (EvContextClose (context s)) evs /\
       ~ In (EvBrowserClose (browser s)) evs).
Proof.
  unfold reaper, bind at 1, lift, Date_now, gets. simpl.
  unfold bind at 1, gets. simpl.
  destruct (SweepShape.forEach_trace O (clock (ext w)) (sessions w)
              {| sessions := sessions w; ext := ext w |})
    as (w1 & evs & E & T & F & C).
  exists w1, evs. split; [exact E|]. split; [exact T|].
  assert (F' : forall ev, In ev evs -> tornDown (sessions w) (clock (ext w)) ev)
    by (intros ev Hin; exact (proj1 (Forall_forall _ _) F ev Hin)).
  split; [exact F'|]. split.
  - intros k s G X. apply (C k s G X). simpl.
    now apply ReaperFacts.key_listed with (s := s).
  - intros D k s G X.
    assert (Hlive : forall k' s',
               Map_get (sessions w) k' = Some s' ->
               expired (clock (ext w)) s' = true ->
               context s' = context s \/ browser s' = browser s -> False).
    { intros k' s' G' X' Hsame.
      assert (k' = k) by exact (D k' s' k s G' G Hsame). subst k'.
      assert (s' = s) by congruence. subst s'. congruence. }
    split; intros Hin; apply F' in Hin;
      destruct Hin as [(msg & H) | (k' & s' & G' & X' & [H | H])];
      try discriminate H; injection H as H;
      apply (Hlive k' s' G' X'); [left | right]; congruence.
Qed.

(** X11 on the store with two sessions at time 700000, the first expired
    and the second not: the context of the first is asked to close, and
    neither the context nor the browser of the second. *)
Lemma reaper_closes_only_expired_witness :
  distinct_handles (sessions twoSessions) /\
  exists w1,
    reaper quiet twoSessions = (Ok tt, w1) /\
    In (EvContextClose 2%nat) (trace (ext w1)) /\
    ~ In (EvContextClose 5%nat) (trace (ext w1)) /\
    ~ In (EvBrowserClose 4%nat) (trace (ext w1)).
Proof.
  split; [exact HandleFacts.twoSessions_distinct|].
  destruct (reaper_closes_only_expired quiet twoSessions)
    as (w1 & evs & E & T & _ & C & L).
  cbn [twoSessions ext trace app] in T.
  exists w1. split; [exact E|]. rewrite T. split.
  - exact (C (lit "s1") session1 eq_refl eq_refl).
  - exact (L HandleFacts.twoSessions_distinct (lit "s2") session2 eq_refl eq_refl).
Defined.

Lemma twoSessions_well_keyed : well_keyed (sessions twoSessions).
Proof.
  split.
  - simpl. constructor; [simpl; intros [H | []]; discriminate H|].
    constructor; [simpl; tauto | constructor].
  - intros k s [E | [E | []]]; injection E as <- <-; reflexivity.
Qed.

(** X5 on the store with two sessions. *)
Lemma store_stays_well_keyed_witness :
  well_keyed (sessions twoSessions) /\
  well_keyed (sessions (snd (createSession quiet twoSessions))) /\
  well_keyed (sessions (snd (reaper quiet twoSessions))).
Proof.
  split; [exact twoSessions_well_keyed|].
  destruct (@store_stays_well_keyed quiet twoSessions twoSessions_well_keyed)
    as (Hc & _ & _ & _ & Hr).
  split; [exact Hc | exact Hr].
Defined.

(** X6 on the empty store. *)
Lemma createSession_registers_witness :
  createSession quiet empty = (Ok firstSession, snd (createSession quiet empty)) /\
  fst (getSession (lit "7f1c") (snd (createSession quiet empty))) = Ok (Some firstSession) /\
  sessions (snd (createSession quiet empty)) = [(lit "7f1c", firstSession)].
Proof.
  split; [reflexivity|].
  destruct (@createSession_registers quiet empty (snd (createSession quiet empty))
              firstSession eq_refl) as (_ & _ & _ & Hg & _ & Happ).
  split; [exact Hg | exact (Happ eq_refl)].
Defined.

(** X7 where the context cannot be made: the browser was launched, nothing
    was closed, the store is empty. *)
Lemma createSession_failure_closes_nothing_witness :
  fst (createSession secondRejected empty) = Throw (Some (lit "Target closed")) /\
  sessions (snd (createSession secondRejected empty)) = [] /\
  exists evs,
    trace (ext (snd (createSession secondRejected empty))) = evs /\
    In (EvLaunch 0%nat) evs /\
    forall ev, In ev evs -> isClose ev = false.
Proof.
  split; [reflexivity|].
  destruct (@createSession_failure_closes_nothing secondRejected empty
              (snd (createSession secondRejected empty))
              (Some (lit "Target closed")) eq_refl) as (Hs & evs & T & C & L).
  split; [exact Hs|]. exists evs. split; [exact T|]. split; [exact (L eq_refl) | exact C].
Defined.

(** X9 on the store with two sessions. *)
Lemma destroySession_removes_one_witness :
  sessions (snd (destroySession quiet (lit "s1") twoSessions)) = [(lit "s2", session2)] /\
  fst (getActiveSessions (snd (destroySession quiet (lit "s1") twoSessions))) = Ok 1%nat.
Proof.
  destruct (@destroySession_removes_one quiet twoSessions (lit "s1") session1
              twoSessions_well_keyed eq_refl) as (Hs & _ & Hn).
  split; [exact Hs | exact Hn].
Defined.

(** X10 on the store with two sessions at time 700000: the first is
    expired, the second is kept. *)
Lemma reaper_keeps_the_alive_witness :
  exists w1,
    reaper quiet twoSessions = (Ok tt, w1) /\
    sessions w1 = [(lit "s2", session2)].
Proof.
  destruct (@reaper_keeps_the_alive quiet twoSessions twoSessions_well_keyed) as (w1 & E & S & _).
  exists w1. split; [exact E | exact S].
Defined.

(** ** The steps of the flow: they end, and where *)

Module EndsFacts.

Lemma Ends_ret (A : Type) (a : A) : Ends (ret a).
Proof. intros x. discriminate. Qed.

Lemma Ends_throw (A : Type) (m : jsstring) : Ends (@throw Ext A m).
Proof. intros x. discriminate. Qed.

Lemma Ends_bind (A B : Type) (m : Flow A) (k : A -> Flow B) :
  Ends m -> (forall a, Ends (k a)) -> Ends (bind m k).
Proof.
  intros Hm Hk x. unfold bind. specialize (Hm x).
  destruct (m x) as [[a | e | ] x1]; simpl in *;
    [apply Hk | discriminate | contradiction].
Qed.

Lemma Ends_extern (O : Oracle) (ev : nat -> Event) : Ends (extern O ev).
Proof.
  intros x. unfold extern. destruct (rejects O (tick x)); discriminate.
Qed.

Lemma Ends_act (O : Oracle) (p : handle) (a : Action) : Ends (act O p a).
Proof. apply Ends_extern. Qed.

Lemma Ends_humanDelay (O : Oracle) (a b : Z) : Ends (humanDelay O a b).
Proof. intros x. discriminate. Qed.

Lemma Ends_console_log (msg : jsstring) : Ends (console_log msg).
Proof. intros x. discriminate. Qed.

Lemma Ends_waitForText (O : Oracle) (page : handle) (text : jsstring) (t : Z) :
  Ends (waitForText O page text t).
Proof.
  intros x. destruct (waitForText O page text t x) as [r x'] eqn:E.
  apply FlowFacts.waitForText_ends in E as (evs & _ & _ & W).
  simpl. intros ->. exact W.
Qed.

Lemma Ends_clickContinueAndWait (O : Oracle) (page : handle) (text : jsstring)
      (maxRetries : nat) :
  Ends (clickContinueAndWait O page text maxRetries).
Proof.
  intros x. destruct (clickContinueAndWait O page text maxRetries x) as [r x'] eqn:E.
  apply FlowFacts.continueLoop_spec in E as (evs & _ & _ & W).
  simpl. intros ->. exact W.
Qed.

Lemma Ends_extract (text : jsstring) (names : list jsstring) :
  Ends (extractProductsFromText_prog text names).
Proof. intros x. rewrite extract_prog_run. discriminate. Qed.

Ltac ends :=
  repeat first
    [ apply Ends_ret | apply Ends_throw | apply Ends_act | apply Ends_extern
    | apply Ends_humanDelay | apply Ends_console_log | apply Ends_waitForText
    | apply Ends_clickContinueAndWait | apply Ends_extract
    | apply Ends_bind; [| intros ?]
    | match goal with
      | |- Ends (if ?b then _ else _) => destruct b
      | |- Ends (let '(_, _) := ?p in _) => destruct p
      end ].

Lemma Ends_addressLoop (O : Oracle) (left : nat) (page : handle) (input : CarDetailsInput) :
  Ends (addressLoop O left page input).
Proof.
  induction left as [|left IH]; cbn [addressLoop]; [apply Ends_ret|].
  ends. exact IH.
Qed.

Lemma Ends_fillCarDetails (O : Oracle) (page : handle) (input : CarDetailsInput) :
  Ends (QuoteFlow.fillCarDetails O page input).
Proof.
  unfold QuoteFlow.fillCarDetails.
  apply Ends_bind; [apply Ends_addressLoop | intros ?]. ends.
Qed.

Lemma Ends_fillDriverDetails (O : Oracle) (f : Z -> jsstring) (page : handle)
      (input : DriverDetailsInput) :
  Ends (QuoteFlow.fillDriverDetails O f page input).
Proof. unfold QuoteFlow.fillDriverDetails. ends. Qed.

Lemma Ends_extractQuoteResults (O : Oracle) (c : jsstring -> jsstring)
      (a : jsstring -> Z) (g : jsstring -> jsstring) (d : jsstring -> Z)
      (page : handle) :
  Ends (QuoteFlow.extractQuoteResults O c a g d page).
Proof. unfold QuoteFlow.extractQuoteResults. ends. Qed.

Lemma Ends_findCarByRego (O : Oracle) (m : jsstring -> option jsstring)
      (page : handle) (rego state : jsstring) :
  Ends (QuoteFlow.findCarByRego O m page rego state).
Proof. unfold QuoteFlow.findCarByRego. ends. Qed.

Lemma Ends_findCarManually (O : Oracle) (page : handle) (y mk md b : jsstring) :
  Ends (QuoteFlow.findCarManually O page y mk md b).
Proof. unfold QuoteFlow.findCarManually. ends. Qed.

End EndsFacts.

(** X12.  [waitForText] always ends.  It returns [true] right after a
    reading of the page that holds the text, no earlier reading having held
    it; it returns [false] only when no reading held it and at least the
    timeout has passed; it throws only when a call was rejected.  Its
    readings are at least two seconds apart and all begin before the
    deadline, and with a timeout of zero or less it reads nothing. *)
Theorem waitForText_verdict_and_deadline
        (O : Oracle) (page : handle) (text : jsstring) (timeoutMs : Z) (x : Ext) :
  let run := waitForText O page text timeoutMs x in
  exists evs,
    trace (snd run) = trace x ++ evs /\
    fst run <> Spin /\
    (fst run = Ok true -> ObservedLast O page text (tick x) evs) /\
    (fst run = Ok false ->
       Unobserved O page text (tick x) evs /\
       timeoutMs <= clock (snd run) - clock x) /\
    (forall e, fst run = Throw e ->
       exists n, (tick x <= n)%nat /\ rejects O n <> None) /\
    (reads page evs = 0%nat \/
     2000 * (Z.of_nat (reads page evs) - 1) < timeoutMs) /\
    (timeoutMs <= 0 -> evs = [] /\ fst run = Ok false).
Proof.
  intros run. destruct run as [r x'] eqn:E. unfold run in E. simpl.
  destruct (FlowFacts.waitForText_ends _ _ _ _ _ E) as (evs & (T & _ & _) & _ & W).
  unfold waitForText, bind, Date_now, gets in E.
  destruct (TimingFacts.waitLoop_timing _ _ _ _ _ _ _ E) as (evs' & T' & F & B & Z0).
  assert (evs' = evs) by (apply (app_inv_head (trace x)); congruence). subst evs'.
  exists evs. split; [exact T|]. unfold waitOutcome in W.
  split; [intros ->; exact W|].
  split; [intros ->; exact W|].
  split; [intros ->; split; [exact W | now apply F]|].
  split; [intros e ->; apply W|].
  split; [replace (timeoutMs - (clock x - clock x)) with timeoutMs in B by lia; exact B|].
  intros Hz. assert (Hnil : evs = []) by (apply Z0; lia).
  split; [exact Hnil|]. subst evs.
  destruct r as [[|] | e | ].
  - destruct W as (e0 & W & _). destruct e0; discriminate W.
  - reflexivity.
  - exfalso. revert E. unfold pollFuel.
    destruct (Z.to_nat (timeoutMs / 2000) + 2)%nat as [|f] eqn:Ef; [lia|].
    cbn [waitLoop]. unfold bind, Date_now, gets.
    replace (clock x - clock x <? timeoutMs) with false
      by (symmetry; apply Z.ltb_ge; lia).
    unfold ret. intros H. discriminate H.
  - contradiction.
Qed.

Module BudgetFacts.

Lemma bind_ok_inv (S A B : Type) (m : Prog S A) (k : A -> Prog S B)
      (x x' : S) (b : B) :
  bind m k x = (Ok b, x') ->
  exists a x1, m x = (Ok a, x1) /\ k a x1 = (Ok b, x').
Proof.
  unfold bind. destruct (m x) as [[a | e | ] x1]; [eauto | discriminate | discriminate].
Qed.

Section Budget.
Variable page : handle.

Lemma budget_ret (A : Type) (a : A) : ClicksAtMost page 0 (ret a).
Proof. intros x. exists []. split; [apply FlowFacts.Segment_refl | apply Nat.le_refl]. Qed.

Lemma budget_throw (A : Type) (msg : jsstring) : ClicksAtMost page 0 (@throw Ext A msg).
Proof. intros x. exists []. split; [apply FlowFacts.Segment_refl | apply Nat.le_refl]. Qed.

Lemma budget_bind (A B : Type) (n1 n2 : nat) (m : Flow A) (k : A -> Flow B) :
  ClicksAtMost page n1 m -> (forall a, ClicksAtMost page n2 (k a)) ->
  ClicksAtMost page (n1 + n2) (bind m k).
Proof.
  intros Hm Hk x. unfold bind. destruct (Hm x) as (e1 & T1 & C1).
  destruct (m x) as [[a | e | ] x1]; cbn [snd] in *.
  - destruct (Hk a x1) as (e2 & T2 & C2). exists (e1 ++ e2).
    split; [exact (FlowFacts.Segment_trans T1 T2)|].
    rewrite FlowFacts.clicks_app. lia.
  - exists e1. split; [exact T1 | lia].
  - exists e1. split; [exact T1 | lia].
Qed.

Lemma segment_act (O : Oracle) (p : handle) (a : Action) (x : Ext) :
  Segment x (snd (act O p a x)) [EvPage p a].
Proof.
  unfold act, extern, Segment.
  destruct (rejects O (tick x)); cbn [snd tick clock trace];
    (split; [reflexivity|]); (split; [simpl; lia | lia]).
Qed.

Lemma budget_act (O : Oracle) (p : handle) (a : Action) :
  isClick page (EvPage p a) = false -> ClicksAtMost page 0 (act O p a).
Proof.
  intros H x. exists [EvPage p a]. split; [apply segment_act|].
  unfold clicks; cbn [filter]. rewrite H. apply Nat.le_refl.
Qed.

Lemma budget_click (O : Oracle) (p : handle) (a : Action) :
  ClicksAtMost page 1 (act O p a).
Proof.
  intros x. exists [EvPage p a]. split; [apply segment_act|].
  unfold clicks; cbn [filter]. destruct (isClick page (EvPage p a)); simpl; lia.
Qed.

Lemma budget_humanDelay (O : Oracle) (a b : Z) :
  0 <= a -> ClicksAtMost page 0 (humanDelay O a b).
Proof.
  intros Ha x. eexists. split.
  - unfold humanDelay, Segment; cbn [snd tick clock trace].
    split; [reflexivity|]. split; [simpl; lia|].
    destruct (b - a <=? 0) eqn:R; [lia|]. apply Z.leb_gt in R.
    pose proof (Z.mod_pos_bound (random O (tick x)) (b - a) R). lia.
  - unfold clicks; simpl; apply Nat.le_refl.
Qed.

Lemma budget_waitForText (O : Oracle) (text : jsstring) (t : Z) :
  ClicksAtMost page 0 (waitForText O page text t).
Proof.
  intros x. destruct (waitForText O page text t x) as [r x'] eqn:E.
  apply FlowFacts.waitForText_ends in E as (evs & T & C & _).
  exists evs. split; [exact T | lia].
Qed.

Lemma budget_clickContinueAndWait (O : Oracle) (text : jsstring) (maxRetries : nat) :
  ClicksAtMost page maxRetries (clickContinueAndWait O page text maxRetries).
Proof.
  intros x. destruct (clickContinueAndWait O page text maxRetries x) as [r x'] eqn:E.
  apply FlowFacts.continueLoop_spec in E as (evs & T & C & _).
  exists evs. split; [exact T | exact C].
Qed.

Lemma budget_extract (text : jsstring) (names : list jsstring) :
  ClicksAtMost page 0 (extractProductsFromText_prog text names).
Proof.
  intros x. rewrite extract_prog_run. exists [].
  split; [apply FlowFacts.Segment_refl | apply Nat.le_refl].
Qed.

(** A step that clicks nothing, then the rest. *)
Lemma budget_then (A B : Type) (n : nat) (m : Flow A) (k : A -> Flow B) :
  ClicksAtMost page 0 m -> (forall a, ClicksAtMost page n (k a)) ->
  ClicksAtMost page n (bind m k).
Proof. intros Hm Hk. now apply (budget_bind (n1 := 0) (n2 := n)). Qed.

End Budget.

Ltac not_a_click :=
  simpl; rewrite ?andb_false_r; reflexivity.

Ltac budget :=
  first
    [ apply budget_ret | apply budget_throw
    | apply budget_humanDelay; lia
    | apply budget_waitForText | apply budget_extract
    | apply budget_clickContinueAndWait
    | apply budget_act; not_a_click
    | apply budget_then; [solve [budget] | intros ?; budget]
    | match goal with
      | |- ClicksAtMost _ _ (if ?b then _ else _) => destruct b; budget
      end
    | idtac ].

Lemma budget_addressLoop (O : Oracle) (page : handle) (left : nat)
      (input : CarDetailsInput) :
  ClicksAtMost page 0 (addressLoop O left page input).
Proof.
  induction left as [|left IH]; cbn [addressLoop]; [apply budget_ret|].
  budget. exact IH.
Qed.

Lemma budget_fillCarDetails (O : Oracle) (page : handle) (input : CarDetailsInput) :
  ClicksAtMost page 3 (QuoteFlow.fillCarDetails O page input).
Proof.
  unfold QuoteFlow.fillCarDetails.
  apply budget_then; [apply budget_addressLoop | intros ?].
  budget.
Qed.

Lemma budget_fillDriverDetails (O : Oracle) (toString : Z -> jsstring)
      (page : handle) (input : DriverDetailsInput) :
  ClicksAtMost page 1 (QuoteFlow.fillDriverDetails O toString page input).
Proof.
  unfold QuoteFlow.fillDriverDetails. budget.
  apply (budget_bind (n1 := 1) (n2 := 0)); [apply budget_click | intros ?].
  budget.
Qed.

Lemma budget_extractQuoteResults (O : Oracle) (cd : jsstring -> jsstring)
      (da : jsstring -> Z) (dg : jsstring -> jsstring) (ad : jsstring -> Z)
      (page : handle) :
  ClicksAtMost page 0 (QuoteFlow.extractQuoteResults O cd da dg ad page).
Proof. unfold QuoteFlow.extractQuoteResults. budget. Qed.

Lemma budget_findCarByRego (O : Oracle) (carMatch : jsstring -> option jsstring)
      (page : handle) (rego state : jsstring) :
  ClicksAtMost page 0 (QuoteFlow.findCarByRego O carMatch page rego state).
Proof. unfold QuoteFlow.findCarByRego. budget. Qed.

Lemma budget_findCarManually (O : Oracle) (page : handle)
      (year make model bodyType : jsstring) :
  ClicksAtMost page 0 (QuoteFlow.findCarManually O page year make model bodyType).
Proof. unfold QuoteFlow.findCarManually. budget. Qed.

End BudgetFacts.

Module LandmarkFacts.
Import BudgetFacts.

Lemma act_ok_inv (O : Oracle) (p : handle) (a : Action) (x x1 : Ext) (n : nat) :
  act O p a x = (Ok n, x1) ->
  n = tick x /\ rejects O (tick x) = None /\
  tick x1 = S (tick x) /\ trace x1 = trace x ++ [EvPage p a].
Proof.
  unfold act, extern. destruct (rejects O (tick x)); [discriminate|].
  intros H. injection H as <- <-. repeat split.
Qed.

Lemma clicks_read (page p : handle) : clicks page [EvPage p InnerText] = 0%nat.
Proof. reflexivity. Qed.

Lemma returns_then (O : Oracle) (page : handle) (good : jsstring -> bool)
      (lo n : nat) (A B : Type) (m : Flow A) (k : A -> Flow B) :
  ClicksAtMost page n m ->
  (forall a, ReturnsOn O page good lo (k a)) ->
  ReturnsOn O page good lo (bind m k).
Proof.
  intros Hm Hk x b x' E. apply bind_ok_inv in E as (a & x1 & E1 & E2).
  destruct (Hm x) as (e1 & (T1 & K1 & _) & _). rewrite E1 in T1, K1. cbn [snd] in T1, K1.
  destruct (Hk a x1 b x' E2) as (i & e2 & T2 & K2 & L2 & R2 & G2 & C2).
  exists i, (e1 ++ e2). split; [now rewrite T2, T1, <- !app_assoc|].
  split; [exact K2|]. split; [lia|]. split; [exact R2|]. split; [exact G2|].
  rewrite FlowFacts.clicks_app. lia.
Qed.

Lemma observed_last (O : Oracle) (page : handle) (target : jsstring)
      (x x' : Ext) (evs : list Event) :
  Segment x x' evs -> ObservedLast O page target (tick x) evs ->
  exists n evs0,
    evs = evs0 ++ [EvPage page InnerText] /\
    tick x' = S n /\ (tick x <= n)%nat /\
    rejects O n = None /\ includes (innerText O n) target = true.
Proof.
  intros (_ & K & _) (evs0 & -> & _ & R & I).
  exists (tick x + List.length (calls evs0))%nat, evs0.
  split; [reflexivity|]. split.
  - rewrite K, FlowFacts.calls_app, length_app. simpl. lia.
  - split; [lia|]. split; [exact R | exact I].
Qed.

Lemma returns_continueLoop (O : Oracle) (page : handle) (target : jsstring)
      (left attempt maxRetries : nat) :
  ReturnsOn O page (fun body => includes body target) 1
            (continueLoop O (S left) attempt page target maxRetries).
Proof.
  intros x a x' E.
  destruct (FlowFacts.continueLoop_spec _ _ _ _ _ _ _ E) as (evs & Sg & _ & Out).
  cbn [continueOutcome] in Out.
  destruct (observed_last Sg Out) as (n & evs0 & -> & K & L & R & I).
  exists n, evs0. split; [apply Sg|]. repeat (split; [assumption|]).
  cbn [continueLoop] in E. apply bind_ok_inv in E as (i & x1 & E1 & E2).
  apply act_ok_inv in E1 as (_ & _ & _ & T1).
  apply bind_ok_inv in E2 as (found & x2 & E2 & E3).
  apply FlowFacts.waitForText_ends in E2 as (e2 & (T2 & _) & _).
  assert (exists e3, trace x' = trace x2 ++ e3) as (e3 & T3).
  { destruct found.
    - assert (x2 = x') by (unfold ret in E3; congruence). subst x'.
      exists []. now rewrite app_nil_r.
    - apply bind_ok_inv in E3 as (u & x3 & E3 & E4).
      apply FlowFacts.continueLoop_spec in E4 as (e4 & (T4 & _) & _).
      unfold console_log, modify in E3.
      assert (T3 : trace x3 = trace x2 ++ [EvLog
                (lit "  Continue attempt " ++ dec attempt ++ lit "/"
                 ++ dec maxRetries ++ [32%N; 8212%N; 32%N]
                 ++ lit "page didn't advance")])
        by (injection E3 as _ <-; reflexivity).
      eexists. rewrite T4, T3, <- app_assoc. reflexivity. }
  destruct Sg as (T & _). rewrite T3, T2, T1, <- !app_assoc in T.
  apply app_inv_head in T.
  assert (C : clicks page ([EvPage page (Click CONTINUE true)] ++ e2 ++ e3)
              = clicks page (evs0 ++ [EvPage page InnerText])) by now rewrite T.
  rewrite !FlowFacts.clicks_app, clicks_read, FlowFacts.clicks_one in C. lia.
Qed.

Lemma returns_fillCarDetails (O : Oracle) (page : handle) (input : CarDetailsInput) :
  ReturnsOn O page driverPageShown 1 (QuoteFlow.fillCarDetails O page input).
Proof.
  unfold QuoteFlow.fillCarDetails.
  apply returns_then with (n := 0%nat); [apply budget_addressLoop | intros ?].
  repeat lazymatch goal with
         | |- ReturnsOn _ _ _ _ (bind _ _) =>
             apply returns_then with (n := 0%nat); [solve [budget] | intros ?]
         end.
  exact (returns_continueLoop O page (lit "Already with us?") 2 1 3).
Qed.

Lemma returns_fillDriverDetails (O : Oracle) (toString : Z -> jsstring)
      (page : handle) (input : DriverDetailsInput) :
  ReturnsOn O page resultsShown 1 (QuoteFlow.fillDriverDetails O toString page input).
Proof.
  unfold QuoteFlow.fillDriverDetails.
  do 17 (apply returns_then with (n := 0%nat); [solve [budget] | intros ?]).
  intros x u x' E.
  apply bind_ok_inv in E as (i & x1 & E1 & E).
  apply act_ok_inv in E1 as (_ & _ & K1 & T1).
  apply bind_ok_inv in E as (found & x2 & E2 & E).
  apply FlowFacts.waitForText_ends in E2 as (e2 & Sg & _ & Out).
  destruct found.
  - assert (x2 = x') by (unfold ret in E; congruence). subst x'.
    cbn [waitOutcome] in Out.
    destruct (observed_last Sg Out) as (n & evs0 & -> & K & L & R & I).
    exists n, ([EvPage page (Click CONTINUE true)] ++ evs0).
    split; [destruct Sg as (T & _); now rewrite T, T1, <- !app_assoc|].
    split; [exact K|]. split; [lia|]. split; [exact R|]. split.
    + unfold resultsShown. now rewrite I.
    + rewrite FlowFacts.clicks_app, FlowFacts.clicks_one. lia.
  - apply bind_ok_inv in E as (n & x3 & E3 & E).
    apply act_ok_inv in E3 as (-> & R & K3 & T3).
    destruct (negb (includes (innerText O (tick x2)) (lit "Comprehensive"))
              && negb (includes (innerText O (tick x2)) (lit "Your quote summary")))
      eqn:G; [discriminate E|].
    assert (x3 = x') by (unfold ret in E; congruence). subst x'.
    destruct Sg as (T2 & K2 & _).
    exists (tick x2), ([EvPage page (Click CONTINUE true)] ++ e2).
    split; [now rewrite T3, T2, T1, <- !app_assoc|].
    split; [exact K3|]. split; [lia|]. split; [exact R|]. split.
    + unfold resultsShown. apply andb_false_iff in G as [G | G];
        apply negb_false_iff in G; rewrite G; now rewrite ?orb_true_r.
    + rewrite FlowFacts.clicks_app, FlowFacts.clicks_one. lia.
Qed.

End LandmarkFacts.

(** X13.  Whatever the outside world answers, the modelled steps of the
    quote flow end: each returns or throws after finitely many calls. *)
Theorem flow_steps_always_end
        (O : Oracle) (page : handle)
        (carMatch : jsstring -> option jsstring) (toString : Z -> jsstring)
        (cd : jsstring -> jsstring) (da : jsstring -> Z)
        (dg : jsstring -> jsstring) (ad : jsstring -> Z) :
  (forall rego state, Ends (QuoteFlow.findCarByRego O carMatch page rego state)) /\
  (forall y mk md b, Ends (QuoteFlow.findCarManually O page y mk md b)) /\
  (forall input, Ends (QuoteFlow.fillCarDetails O page input)) /\
  (forall input, Ends (QuoteFlow.fillDriverDetails O toString page input)) /\
  Ends (QuoteFlow.extractQuoteResults O cd da dg ad page).
Proof.
  split; [intros; apply EndsFacts.Ends_findCarByRego|].
  split; [intros; apply EndsFacts.Ends_findCarManually|].
  split; [intros; apply EndsFacts.Ends_fillCarDetails|].
  split; [intros; apply EndsFacts.Ends_fillDriverDetails|].
  apply EndsFacts.Ends_extractQuoteResults.
Qed.

(** X14.  However a step ends, it has only added to the trace, and the
    continue control was clicked at most three times by [fillCarDetails],
    at most once by [fillDriverDetails], and never by the other three. *)
Theorem continue_click_budget
        (O : Oracle) (page : handle)
        (carMatch : jsstring -> option jsstring) (toString : Z -> jsstring)
        (cd : jsstring -> jsstring) (da : jsstring -> Z)
        (dg : jsstring -> jsstring) (ad : jsstring -> Z) :
  (forall rego state,
      ClicksAtMost page 0 (QuoteFlow.findCarByRego O carMatch page rego state)) /\
  (forall y mk md b, ClicksAtMost page 0 (QuoteFlow.findCarManually O page y mk md b)) /\
  (forall input, ClicksAtMost page 3 (QuoteFlow.fillCarDetails O page input)) /\
  (forall input, ClicksAtMost page 1 (QuoteFlow.fillDriverDetails O toString page input)) /\
  ClicksAtMost page 0 (QuoteFlow.extractQuoteResults O cd da dg ad page).
Proof.
  split; [intros; apply BudgetFacts.budget_findCarByRego|].
  split; [intros; apply BudgetFacts.budget_findCarManually|].
  split; [intros; apply BudgetFacts.budget_fillCarDetails|].
  split; [intros; apply BudgetFacts.budget_fillDriverDetails|].
  apply BudgetFacts.budget_extractQuoteResults.
Qed.

(** X15.  [fillCarDetails] returns only right after a reading of the page,
    not rejected, that shows the landmark of the next page, and after one
    to three clicks on the continue control. *)
Theorem fillCarDetails_returns_on_landmark
        (O : Oracle) (page : handle) (input : CarDetailsInput) (x x' : Ext) :
  QuoteFlow.fillCarDetails O page input x = (Ok tt, x') ->
  exists n evs,
    trace x' = trace x ++ evs ++ [EvPage page InnerText] /\
    tick x' = S n /\ (tick x <= n)%nat /\
    rejects O n = None /\
    includes (innerText O n) (lit "Already with us?") = true /\
    (1 <= clicks page evs <= 3)%nat.
Proof.
  intros E.
  destruct (@LandmarkFacts.returns_fillCarDetails O page input x tt x' E) as (n & evs & T & K & L & R & G & C).
  exists n, evs. repeat (split; [assumption|]).
  destruct (BudgetFacts.budget_fillCarDetails O page input x) as (evs' & (T' & _) & C').
  rewrite E in T'. cbn [snd] in T'. rewrite T in T'. apply app_inv_head in T'.
  rewrite <- T', FlowFacts.clicks_app, LandmarkFacts.clicks_read in C'. lia.
Qed.

(** X15 where the landmark is on the page from the start: the step returns
    after the first click. *)
Lemma fillCarDetails_returns_on_landmark_witness :
  exists n evs,
    tick (snd (QuoteFlow.fillCarDetails (landmarkFrom 0) 3%nat
                                        (carDetailsInput carArgs) fresh)) = S n /\
    includes (innerText (landmarkFrom 0) n) (lit "Already with us?") = true /\
    (1 <= clicks 3%nat evs <= 3)%nat.
Proof.
  destruct (@fillCarDetails_returns_on_landmark (landmarkFrom 0) 3%nat
              (carDetailsInput carArgs) fresh
              (snd (QuoteFlow.fillCarDetails (landmarkFrom 0) 3%nat
                                             (carDetailsInput carArgs) fresh)))
    as (n & evs & _ & K & _ & _ & G & C); [vm_compute; reflexivity|].
  exists n, evs. split; [exact K|]. split; [exact G | exact C].
Defined.

(** X16.  [fillDriverDetails] returns only right after a reading of the
    page, not rejected, that shows a yearly price marker, the word
    Comprehensive or the quote summary heading, and after exactly one click
    on the continue control. *)
Theorem fillDriverDetails_returns_on_results
        (O : Oracle) (toString : Z -> jsstring) (page : handle)
        (input : DriverDetailsInput) (x x' : Ext) :
  QuoteFlow.fillDriverDetails O toString page input x = (Ok tt, x') ->
  exists n evs,
    trace x' = trace x ++ evs ++ [EvPage page InnerText] /\
    tick x' = S n /\ (tick x <= n)%nat /\
    rejects O n = None /\
    resultsShown (innerText O n) = true /\
    clicks page evs = 1%nat.
Proof.
  intros E.
  destruct (@LandmarkFacts.returns_fillDriverDetails O toString page input x tt x' E)
    as (n & evs & T & K & L & R & G & C).
  exists n, evs. repeat (split; [assumption|]).
  destruct (BudgetFacts.budget_fillDriverDetails O toString page input x)
    as (evs' & (T' & _) & C').
  rewrite E in T'. cbn [snd] in T'. rewrite T in T'. apply app_inv_head in T'.
  rewrite <- T', FlowFacts.clicks_app, LandmarkFacts.clicks_read in C'. lia.
Qed.

(** X16 where the page shows a quote card: the step returns at the first
    reading. *)
Lemma fillDriverDetails_returns_on_results_witness :
  exists n evs,
    tick (snd (QuoteFlow.fillDriverDetails quoted (fun z => dec (Z.to_nat z)) 3%nat
                                           driverInput fresh)) = S n /\
    resultsShown (innerText quoted n) = true /\
    clicks 3%nat evs = 1%nat.
Proof.
  destruct (@fillDriverDetails_returns_on_results quoted (fun z => dec (Z.to_nat z))
              3%nat driverInput fresh
              (snd (QuoteFlow.fillDriverDetails quoted (fun z => dec (Z.to_nat z)) 3%nat
                                                driverInput fresh)))
    as (n & evs & _ & K & _ & _ & G & C); [vm_compute; reflexivity|].
  exists n, evs. split; [exact K|]. split; [exact G | exact C].
Defined.

Module AddressFacts.

Section NoSuggestion.
Variable O : Oracle.
Hypothesis accepted : forall n, rejects O n = None.
Hypothesis none : forall n, counted O n = 0%nat.

Lemma act_run (p : handle) (a : Action) (x : Ext) :
  act O p a x = (Ok (tick x), {| tick := S (tick x);
                                 clock := clock x + Z.of_N (took O (tick x));
                                 trace := trace x ++ [EvPage p a] |}).
Proof. unfold act, extern. now rewrite accepted. Qed.

(** One turn of the address loop when nothing is suggested: nine calls,
    the address typed once, and on to the next turn. *)
Lemma addressLoop_turn (left : nat) (page : handle) (input : CarDetailsInput) (x : Ext) :
  exists x1 evs,
    addressLoop O (S left) page input x = addressLoop O left page input x1 /\
    trace x1 = trace x ++ evs /\ tick x1 = (9 + tick x)%nat /\
    clicks page evs = 0%nat /\ typed evs = 1%nat.
Proof.
  cbn [addressLoop]. unfold bind. rewrite !act_run. unfold humanDelay.
  cbn [tick clock trace]. rewrite !act_run. cbn [tick clock trace].
  rewrite !none. cbn [Nat.ltb Nat.leb]. unfold ret. rewrite !act_run.
  cbn [tick clock trace]. rewrite !none. cbn [Nat.ltb Nat.leb].
  rewrite !act_run. cbn [tick clock trace].
  eexists. eexists. split; [reflexivity|]. cbn [tick clock trace].
  rewrite <- !app_assoc. cbn [app].
  split; [reflexivity|]. split; [reflexivity|]. split; reflexivity.
Qed.

Lemma fillCarDetails_no_suggestion (page : handle) (input : CarDetailsInput) (x : Ext) :
  exists x' evs,
    QuoteFlow.fillCarDetails O page input x = (Throw (Some addressFailure), x') /\
    trace x' = trace x ++ evs /\ tick x' = (18 + tick x)%nat /\
    clicks page evs = 0%nat /\ typed evs = 2%nat.
Proof.
  unfold QuoteFlow.fillCarDetails, bind at 1.
  destruct (addressLoop_turn 1 page input x) as (x1 & e1 & -> & T1 & K1 & C1 & P1).
  destruct (addressLoop_turn 0 page input x1) as (x2 & e2 & -> & T2 & K2 & C2 & P2).
  cbn [addressLoop]. unfold ret, bind, throw.
  exists x2, (e1 ++ e2). split; [reflexivity|].
  split; [now rewrite T2, T1, app_assoc|]. split; [lia|].
  split; [rewrite FlowFacts.clicks_app; lia|].
  unfold typed in *. rewrite filter_app, length_app. lia.
Qed.

End NoSuggestion.

End AddressFacts.

(** X17.  When no call is rejected and no suggestion is ever counted,
    [fillCarDetails] throws its address error after two attempts of nine
    calls each: the address was typed twice, and the continue control was
    never clicked. *)
Theorem fillCarDetails_gives_up_on_address
        (O : Oracle) (page : handle) (input : CarDetailsInput) (x : Ext) :
  (forall n, rejects O n = None) ->
  (forall n, counted O n = 0%nat) ->
  let run := QuoteFlow.fillCarDetails O page input x in
  fst run = Throw (Some addressFailure) /\
  tick (snd run) = (18 + tick x)%nat /\
  exists evs,
    trace (snd run) = trace x ++ evs /\
    clicks page evs = 0%nat /\ typed evs = 2%nat.
Proof.
  intros Hr Hc run.
  destruct (@AddressFacts.fillCarDetails_no_suggestion O Hr Hc page input x)
    as (x' & evs & E & T & K & C & P).
  unfold run. rewrite E. split; [reflexivity|]. split; [exact K|].
  exists evs. split; [exact T|]. split; [exact C | exact P].
Qed.

(** X17 in the world where no suggestion is offered. *)
Lemma fillCarDetails_gives_up_on_address_witness :
  let run := QuoteFlow.fillCarDetails noSuggestions 3%nat (carDetailsInput carArgs) fresh in
  fst run = Throw (Some addressFailure) /\ tick (snd run) = 18%nat.
Proof.
  destruct (@fillCarDetails_gives_up_on_address noSuggestions 3%nat
              (carDetailsInput carArgs) fresh) as (E & K & _);
    [reflexivity | reflexivity |].
  split; [exact E | exact K].
Defined.

Module ResultFacts.
Import BudgetFacts LandmarkFacts.

Lemma names_of (text : jsstring) (names : list jsstring) (q : ProductQuote) :
  In q (extractProductsFromText text names) -> In (name q) names.
Proof.
  rewrite ExtractionFacts.extractProductsFromText_flat_map.
  intros Hin. apply in_flat_map in Hin as (n & Hn & Hin).
  destruct (ExtractionFacts.extractProduct_cases text n)
    as [[E _] | (q' & i & g & E & Hname & _)]; rewrite E in Hin; [contradiction|].
  destruct Hin as [<- | []]. now rewrite Hname.
Qed.

Lemma at_most_asked (text : jsstring) (names : list jsstring) :
  (List.length (extractProductsFromText text names) <= List.length names)%nat.
Proof.
  rewrite ExtractionFacts.extractProductsFromText_flat_map.
  induction names as [|n names IH]; [apply Nat.le_refl|].
  simpl. rewrite length_app.
  destruct (ExtractionFacts.extractProduct_cases text n)
    as [[E _] | (q' & i & g & E & _)]; rewrite E; simpl; lia.
Qed.

Lemma humanDelay_ok_inv (O : Oracle) (a b : Z) (x x1 : Ext) (u : unit) :
  humanDelay O a b x = (Ok u, x1) ->
  tick x1 = S (tick x) /\ exists d, trace x1 = trace x ++ [EvDelay d].
Proof.
  unfold humanDelay. intros H. injection H as H. subst x1.
  split; [reflexivity|]. eexists. reflexivity.
Qed.

End ResultFacts.

(** X18.  When [extractQuoteResults] returns, the four summary fields and
    the comprehensive quotes all come from one reading of the page, the
    second call of the step.  When the third-party tab is counted and
    visible it is clicked and the third-party quotes come from a second
    reading, the seventh call; otherwise the tab is not clicked and there
    are no third-party quotes.  Each list holds at most two quotes, under
    names of its own kind only. *)
Theorem extractQuoteResults_two_readings
        (O : Oracle) (cd : jsstring -> jsstring) (da : jsstring -> Z)
        (dg : jsstring -> jsstring) (ad : jsstring -> Z)
        (page : handle) (x : Ext) (q : QuoteResult) :
  let run := QuoteFlow.extractQuoteResults O cd da dg ad page x in
  let t := tick x in
  let text := innerText O (1 + t) in
  fst run = Ok q ->
  (car_description q = cd text /\ driver_age q = da text /\
   driver_gender q = dg text /\ driver_additionalDrivers q = ad text /\
   comprehensive q = extractProductsFromText text comprehensiveNames) /\
  (exists evs,
     trace (snd run) = trace x ++ evs /\
     if (0 <? counted O (2 + t))%nat && visible O (3 + t)
     then thirdParty q = extractProductsFromText (innerText O (6 + t)) thirdPartyNames /\
          In (tabClick page) evs /\ tick (snd run) = (7 + t)%nat
     else thirdParty q = [] /\ ~ In (tabClick page) evs) /\
  (forall p, In p (comprehensive q) -> In (name p) comprehensiveNames) /\
  (forall p, In p (thirdParty q) -> In (name p) thirdPartyNames) /\
  (List.length (comprehensive q) <= 2)%nat /\
  (List.length (thirdParty q) <= 2)%nat.
Proof.
  intros run t text E.
  assert (Main :
    (car_description q = cd text /\ driver_age q = da text /\
     driver_gender q = dg text /\ driver_additionalDrivers q = ad text /\
     comprehensive q = extractProductsFromText text comprehensiveNames) /\
    (exists evs,
       trace (snd run) = trace x ++ evs /\
       if (0 <? counted O (2 + t))%nat && visible O (3 + t)
       then thirdParty q = extractProductsFromText (innerText O (6 + t)) thirdPartyNames /\
            In (tabClick page) evs /\ tick (snd run) = (7 + t)%nat
       else thirdParty q = [] /\ ~ In (tabClick page) evs)).
  { destruct run as [r x'] eqn:R. cbn [fst snd] in *. subst r. unfold run in R.
    unfold QuoteFlow.extractQuoteResults in R.
    apply BudgetFacts.bind_ok_inv in R as (u & x1 & E1 & R).
    apply ResultFacts.humanDelay_ok_inv in E1 as (K1 & d1 & T1).
    apply BudgetFacts.bind_ok_inv in R as (n & x2 & E2 & R).
    apply LandmarkFacts.act_ok_inv in E2 as (-> & _ & K2 & T2).
    apply BudgetFacts.bind_ok_inv in R as (comp & x3 & E3 & R).
    rewrite extract_prog_run in E3. injection E3 as <- <-.
    apply BudgetFacts.bind_ok_inv in R as (c & x4 & E4 & R).
    apply LandmarkFacts.act_ok_inv in E4 as (-> & _ & K4 & T4).
    apply BudgetFacts.bind_ok_inv in R as (tp & x5 & E5 & R).
    unfold ret in R. injection R as <- <-. cbn [car_description driver_age driver_gender
      driver_additionalDrivers comprehensive thirdParty].
    unfold text, t. rewrite K1. split; [repeat split|].
    rewrite K2, K1 in E5. change (2 + tick x)%nat with (S (S (tick x))).
    destruct (0 <? counted O (S (S (tick x))))%nat; cbn [andb].
    - apply BudgetFacts.bind_ok_inv in E5 as (v & x6 & E6 & E5).
      apply LandmarkFacts.act_ok_inv in E6 as (-> & _ & K6 & T6).
      rewrite K4, K2, K1 in E5. change (3 + tick x)%nat with (S (S (S (tick x)))).
      destruct (visible O (S (S (S (tick x))))).
      + apply BudgetFacts.bind_ok_inv in E5 as (i7 & x7 & E7 & E5).
        apply LandmarkFacts.act_ok_inv in E7 as (_ & _ & K7 & T7).
        apply BudgetFacts.bind_ok_inv in E5 as (u8 & x8 & E8 & E5).
        apply ResultFacts.humanDelay_ok_inv in E8 as (K8 & d8 & T8).
        apply BudgetFacts.bind_ok_inv in E5 as (m & x9 & E9 & E5).
        apply LandmarkFacts.act_ok_inv in E9 as (-> & _ & K9 & T9).
        rewrite extract_prog_run in E5. injection E5 as <- <-.
        eexists. split.
        * rewrite T9, T8, T7, T6, T4, T2, T1, <- !app_assoc. reflexivity.
        * rewrite K8, K7, K6, K4, K2, K1. split; [reflexivity|].
          split; [|rewrite K9, K8, K7, K6, K4, K2, K1; reflexivity].
          cbn [app]. unfold tabClick. do 4 right. now left.
      + unfold ret in E5. injection E5 as <- <-.
        eexists. split.
        * rewrite T6, T4, T2, T1, <- !app_assoc. reflexivity.
        * split; [reflexivity|]. cbn [app]. unfold tabClick.
          intros [H | [H | [H | [H | []]]]]; discriminate H.
    - unfold ret in E5. injection E5 as <- <-.
      eexists. split.
      + rewrite T4, T2, T1, <- !app_assoc. reflexivity.
      + split; [reflexivity|]. cbn [app]. unfold tabClick.
        intros [H | [H | [H | []]]]; discriminate H. }
  destruct Main as ((D1 & D2 & D3 & D4 & C) & (evs & T & TP)).
  split; [repeat split; assumption|]. split; [exists evs; split; assumption|].
  assert (TP' : thirdParty q = []
                \/ thirdParty q = extractProductsFromText (innerText O (6 + t)) thirdPartyNames).
  { destruct ((0 <? counted O (2 + t))%nat && visible O (3 + t));
      [right | left]; apply TP. }
  split; [intros p; rewrite C; apply ResultFacts.names_of|].
  split; [|split].
  - intros p. destruct TP' as [-> | ->]; [contradiction | apply ResultFacts.names_of].
  - rewrite C. apply (ResultFacts.at_most_asked text comprehensiveNames).
  - destruct TP' as [-> | ->]; [simpl; lia|].
    apply (ResultFacts.at_most_asked _ thirdPartyNames).
Qed.

(** X18 on a page that shows one quote card and no third-party tab. *)
Lemma extractQuoteResults_two_readings_witness :
  exists q,
    fst (QuoteFlow.extractQuoteResults quoted (fun _ => lit "Unknown") (fun _ => 0)
           (fun _ => lit "Unknown") (fun _ => 0) 3%nat fresh) = Ok q /\
    comprehensive q = extractProductsFromText sampleText comprehensiveNames /\
    thirdParty q = [].
Proof.
  destruct (fst (QuoteFlow.extractQuoteResults quoted (fun _ => lit "Unknown") (fun _ => 0)
                   (fun _ => lit "Unknown") (fun _ => 0) 3%nat fresh))
    as [q | e | ] eqn:E; [| vm_compute in E; discriminate E | vm_compute in E; discriminate E].
  exists q. split; [reflexivity|].
  destruct (@extractQuoteResults_two_readings quoted (fun _ => lit "Unknown") (fun _ => 0)
              (fun _ => lit "Unknown") (fun _ => 0) 3%nat fresh q E)
    as ((_ & _ & _ & _ & C) & (evs & _ & TP) & _).
  split; [exact C | apply TP].
Defined.

Module ToolFacts.
Import JSFacts StoreFacts SessionFacts.

Lemma findCar_named (O : Oracle) (F : Steps) (a : StartArgs) (session : QuoteSession) :
  neither a = false ->
  findCar O F a session
  = (carDescription <- lift (carFlow F a (page session)) ;;
     ret (started session carDescription)).
Proof.
  unfold neither, findCar, carFlow, byRego. intros H.
  destruct (truthy (rego a) && truthy (state_ a)); [reflexivity|].
  cbn [negb andb] in H. apply negb_false_iff in H. now rewrite H.
Qed.

Lemma answers_nospin (A : Type) (m : M A) : Answers m -> NoSpin m.
Proof. intros H w. destruct (H w) as (r & w1 & ->). discriminate. Qed.

Lemma nospin_ret (A : Type) (a : A) : NoSpin (ret a : M A).
Proof. intros w. discriminate. Qed.

Lemma nospin_bind (A B : Type) (m : M A) (k : A -> M B) :
  NoSpin m -> (forall a, NoSpin (k a)) -> NoSpin (bind m k).
Proof.
  intros Hm Hk w. unfold bind. specialize (Hm w).
  destruct (m w) as [[a | e | ] w1]; [apply Hk | discriminate | now cbn in Hm].
Qed.

Lemma nospin_lift (A : Type) (f : Flow A) : Ends f -> NoSpin (lift f).
Proof.
  intros H w. unfold lift. specialize (H (ext w)). now destruct (f (ext w)).
Qed.

Lemma answers_getSession (sessionId : jsstring) : Answers (getSession sessionId).
Proof.
  intros w. destruct (Map_get (sessions w) sessionId) as [s|] eqn:G.
  - rewrite getSession_present with (s := s) by exact G. eauto.
  - rewrite getSession_absent by exact G. eauto.
Qed.

Lemma answers_destroySession (O : Oracle) (sessionId : jsstring) :
  Answers (destroySession O sessionId).
Proof.
  intros w. destruct (Map_get (sessions w) sessionId) as [s|] eqn:G.
  - rewrite destroySession_present with (s := s) by exact G. eauto.
  - rewrite destroySession_absent by exact G. eauto.
Qed.

Lemma nospin_createSession (O : Oracle) : NoSpin (createSession O).
Proof.
  intros w.
  destruct (HandlerFacts.createSession_cases O w)
    as [(s & w1 & -> & _) | (e & w1 & -> & _)]; discriminate.
Qed.

Lemma answers_bind (A B : Type) (m : M A) (k : A -> M B) :
  Answers m -> (forall a, Answers (k a)) -> Answers (bind m k).
Proof.
  intros Hm Hk w. unfold bind. destruct (Hm w) as (a & w1 & ->). apply Hk.
Qed.

Lemma answers_ret (A : Type) (a : A) : Answers (ret a : M A).
Proof. intros w. now exists a, w. Qed.

Lemma answers_try_catch (A : Type) (m : M A) (h : option jsstring -> M A) :
  NoSpin m -> (forall e, Answers (h e)) -> Answers (try_catch m h).
Proof.
  intros Hm Hh w. unfold try_catch. specialize (Hm w).
  destruct (m w) as [[a | e | ] w1]; [eauto | apply Hh | now cbn in Hm].
Qed.

Lemma answers_try_from (A B : Type) (m : M A) (body : A -> M B)
      (h : option A -> option jsstring -> M B) :
  NoSpin m -> (forall a, NoSpin (body a)) -> (forall o e, Answers (h o e)) ->
  Answers (try_from m body h).
Proof.
  intros Hm Hb Hh w. unfold try_from. specialize (Hm w).
  destruct (m w) as [[a | e | ] w1]; [| apply Hh | now cbn in Hm].
  apply answers_try_catch; [apply Hb | apply Hh].
Qed.

Lemma answers_swallow (m : M unit) : NoSpin m -> Answers (swallow m).
Proof. intros H. apply answers_try_catch; [exact H | intros _; apply answers_ret]. Qed.

Section WithSteps.
Variable O : Oracle.
Variable F : Steps.
Hypothesis ends : StepsEnd F.

Lemma nospin_findCar (a : StartArgs) (session : QuoteSession) :
  NoSpin (findCar O F a session).
Proof.
  destruct ends as (E1 & E2 & _). unfold findCar.
  destruct (truthy (rego a) && truthy (state_ a)).
  - apply nospin_bind; [apply nospin_lift, E1 | intros; apply nospin_ret].
  - destruct (truthy (year a) && truthy (make a) && truthy (model a)
              && truthy (bodyType a)).
    + apply nospin_bind; [apply nospin_lift, E2 | intros; apply nospin_ret].
    + apply nospin_bind; [apply answers_nospin, answers_destroySession
                         | intros; apply nospin_ret].
Qed.

Lemma nospin_try (c : StepCall) :
  NoSpin (match c with
          | fill_car_details i args => tryFillCarDetails O F i args
          | fill_driver_details i input => tryFillDriverDetails O F i input
          | get_quotes i => tryGetQuotes O F i
          end).
Proof.
  destruct ends as (_ & _ & E3 & E4 & E5).
  destruct c as [i args | i input | i];
    (apply nospin_bind; [apply answers_nospin, answers_getSession|]);
    intros [s|]; try apply nospin_ret.
  - apply nospin_bind; [apply nospin_lift, E3 | intros; apply nospin_ret].
  - apply nospin_bind; [apply nospin_lift, E4 | intros; apply nospin_ret].
  - apply nospin_bind; [apply nospin_lift, E5 | intros q].
    apply nospin_bind; [apply answers_nospin, answers_destroySession
                       | intros; apply nospin_ret].
Qed.

End WithSteps.

Lemma realSteps_end (O : Oracle) : StepsEnd (realSteps O).
Proof.
  repeat split; intros; cbn [realSteps findCarByRego findCarManually fillCarDetails
                               fillDriverDetails extractQuoteResults].
  - apply EndsFacts.Ends_findCarByRego.
  - apply EndsFacts.Ends_findCarManually.
  - apply EndsFacts.Ends_fillCarDetails.
  - apply EndsFacts.Ends_fillDriverDetails.
  - apply EndsFacts.Ends_extractQuoteResults.
Qed.

End ToolFacts.

(** X19.  When the steps end, every tool call is answered: in both
    handler files the four handlers return a result from every state and
    for every argument; none of them throws or runs for ever. *)
Theorem handlers_always_answer (O : Oracle) (F : Steps) :
  StepsEnd F ->
  (forall a, Answers (Server001.start_quote O F a)) /\
  (forall a, Answers (Server000.start_quote O F a)) /\
  (forall c, Answers (Server001.callTool O F c)) /\
  (forall c, Answers (Server000.callTool O F c)).
Proof.
  intros HF. repeat split.
  - intros a. apply ToolFacts.answers_try_from.
    + apply ToolFacts.nospin_createSession.
    + intros s. now apply ToolFacts.nospin_findCar.
    + intros o e. unfold Server001.startFailed.
      apply ToolFacts.answers_bind; [|intros; apply ToolFacts.answers_ret].
      destruct (truthy (option_map id o)); [|apply ToolFacts.answers_ret].
      apply ToolFacts.answers_swallow, ToolFacts.answers_nospin,
        ToolFacts.answers_destroySession.
  - intros a. apply ToolFacts.answers_try_catch.
    + apply ToolFacts.nospin_bind; [apply ToolFacts.nospin_createSession|].
      intros s. now apply ToolFacts.nospin_findCar.
    + intros e. apply ToolFacts.answers_ret.
  - intros c. pose proof (ToolFacts.nospin_try O HF c) as H.
    assert (Hh : forall what e, Answers (Server001.stepFailed O (sessionOf c) what e)).
    { intros what e. apply ToolFacts.answers_bind; [|intros; apply ToolFacts.answers_ret].
      apply ToolFacts.answers_swallow, ToolFacts.answers_nospin,
        ToolFacts.answers_destroySession. }
    destruct c; apply ToolFacts.answers_try_catch; try exact H; intros e; apply Hh.
  - intros c. pose proof (ToolFacts.nospin_try O HF c) as H.
    destruct c; apply ToolFacts.answers_try_catch; try exact H;
      intros e; apply ToolFacts.answers_ret.
Qed.

(** X19 for the steps as modelled, in the world where the first call is
    rejected. *)
Lemma handlers_always_answer_witness :
  (forall a, Answers (Server001.start_quote firstRejected (realSteps firstRejected) a)) /\
  (forall c, Answers (Server000.callTool firstRejected (realSteps firstRejected) c)).
Proof.
  destruct (@handlers_always_answer firstRejected (realSteps firstRejected)
              (ToolFacts.realSteps_end firstRejected)) as (H1 & _ & _ & H4).
  split; [exact H1 | exact H4].
Defined.

Module CallFacts.
Import JSFacts StoreFacts SessionFacts.

Lemma state_touched (w : Server) (i k : jsstring) :
  option_map state (Map_get (touched w i) k) = option_map state (Map_get (sessions w) k).
Proof.
  unfold touched. destruct (JS.eqb k i) eqn:E.
  - apply eqb_eq in E. subst k.
    destruct (Map_get (sessions w) i) as [s|] eqn:G.
    + now rewrite get_alter_same with (s := s).
    + assert (H : touched w i = sessions w).
      { unfold touched. clear -G. induction (sessions w) as [|[j v] m IH]; [reflexivity|].
        simpl in *. destruct (JS.eqb j i); [discriminate|]. now rewrite IH. }
      unfold touched in H. now rewrite H, G.
  - apply eqb_neq in E. now rewrite get_alter_other.
Qed.

Lemma teardown_closes (O : Oracle) (s : QuoteSession) (x : Ext) :
  exists evs, trace (teardown O s x) = trace x ++ EvContextClose (context s) :: evs.
Proof.
  unfold teardown. destruct (rejects O (tick x)); cbn [trace].
  - now exists [].
  - exists [EvBrowserClose (browser s)]. now rewrite <- app_assoc.
Qed.

End CallFacts.

(** X20.  A step tool called with a session id the store does not hold
    answers that the session was not found, in both handler files, and
    changes nothing: no call is made and the store is as before. *)
Theorem unknown_session_is_refused
        (O : Oracle) (F : Steps) (c : StepCall) (w : Server) :
  Map_get (sessions w) (sessionOf c) = None ->
  Server001.callTool O F c w = (Ok notFound, w) /\
  Server000.callTool O F c w = (Ok notFound, w).
Proof.
  intros G.
  destruct c as [i args | i input | i]; cbn [sessionOf] in G;
    cbn [Server001.callTool Server000.callTool];
    unfold try_catch, tryFillCarDetails, tryFillDriverDetails, tryGetQuotes, bind;
    rewrite SessionFacts.getSession_absent by exact G; split; reflexivity.
Qed.

(** X20 on the empty store. *)
Lemma unknown_session_is_refused_witness :
  Server001.callTool quiet (realSteps quiet) (get_quotes (lit "s1")) empty
  = (Ok notFound, empty) /\
  Server000.callTool quiet (realSteps quiet) (get_quotes (lit "s1")) empty
  = (Ok notFound, empty).
Proof.
  apply (@unknown_session_is_refused quiet (realSteps quiet) (get_quotes (lit "s1")) empty).
  reflexivity.
Defined.

(** X21.  When the step of [fill_car_details] or [fill_driver_details]
    returns, both handler files give the same answer, which is no error, and
    leave the same state: the outside world as the step left it, the same
    keys in the store, the session of the call last active at the time the
    call began, and the [state] field of every session as it was. *)
Theorem step_success_keeps_session
        (O : Oracle) (F : Steps) (c : StepCall) (w : Server) (s : QuoteSession) (x : Ext) :
  isGetQuotes c = false ->
  Map_get (sessions w) (sessionOf c) = Some s ->
  stepFlow F c (page s) (ext w) = (Ok tt, x) ->
  exists r w1,
    Server001.callTool O F c w = (Ok r, w1) /\
    Server000.callTool O F c w = (Ok r, w1) /\
    isError r = false /\
    ext w1 = x /\
    keys (sessions w1) = keys (sessions w) /\
    Map_get (sessions w1) (sessionOf c) = Some (set_lastActivity (clock (ext w)) s) /\
    forall k, option_map state (Map_get (sessions w1) k)
              = option_map state (Map_get (sessions w) k).
Proof.
  intros Hc G Hstep.
  assert (Hfinal : forall r, isError r = false ->
            let w1 := {| sessions := touched w (sessionOf c); ext := x |} in
            isError r = false /\ ext w1 = x /\
            keys (sessions w1) = keys (sessions w) /\
            Map_get (sessions w1) (sessionOf c)
            = Some (set_lastActivity (clock (ext w)) s) /\
            forall k, option_map state (Map_get (sessions w1) k)
                      = option_map state (Map_get (sessions w) k)).
  { intros r Hr w1. split; [exact Hr|]. split; [reflexivity|]. split.
    - apply StoreShape.keys_alter.
    - split; [apply StoreFacts.get_alter_same; exact G|].
      intros k. apply CallFacts.state_touched. }
  destruct c as [i args | i input | i]; [| | discriminate Hc];
    cbn [sessionOf stepFlow] in *; cbn [Server001.callTool Server000.callTool];
    unfold try_catch, tryFillCarDetails, tryFillDriverDetails, bind;
    rewrite SessionFacts.getSession_present with (s := s) by exact G;
    unfold lift; cbn [ext sessions page set_lastActivity]; rewrite Hstep;
    eexists _, _; (split; [reflexivity|]); (split; [reflexivity|]);
    now apply Hfinal.
Qed.

(** X21 for [fill_car_details] on a page that shows the next landmark. *)
Lemma step_success_keeps_session_witness :
  exists r w1,
    Server001.callTool (landmarkFrom 0) (realSteps (landmarkFrom 0))
                       (fill_car_details (lit "s1") carArgs) oneSession = (Ok r, w1) /\
    isError r = false /\
    option_map state (Map_get (sessions w1) (lit "s1")) = Some initialized.
Proof.
  destruct (@step_success_keeps_session (landmarkFrom 0) (realSteps (landmarkFrom 0))
              (fill_car_details (lit "s1") carArgs) oneSession session1
              (snd (QuoteFlow.fillCarDetails (landmarkFrom 0) 3%nat
                                             (carDetailsInput carArgs) fresh)))
    as (r & w1 & E & _ & Hr & _ & _ & _ & Hs);
    [reflexivity | reflexivity | vm_compute; reflexivity |].
  exists r, w1. split; [exact E|]. split; [exact Hr|]. now rewrite Hs.
Defined.

Module StartFacts.
Import JSFacts StoreFacts SessionFacts.

Lemma refused (O : Oracle) (F : Steps) (c : StepCall) (w : Server) :
  Map_get (sessions w) (sessionOf c) = None ->
  Server001.callTool O F c w = (Ok notFound, w) /\
  Server000.callTool O F c w = (Ok notFound, w).
Proof.
  intros G.
  destruct c as [i args | i input | i]; cbn [sessionOf] in G;
    cbn [Server001.callTool Server000.callTool];
    unfold try_catch, tryFillCarDetails, tryFillDriverDetails, tryGetQuotes, bind;
    rewrite getSession_absent by exact G; split; reflexivity.
Qed.

Lemma registered (O : Oracle) (w w1 : Server) (session : QuoteSession) :
  createSession O w = (Ok session, w1) ->
  Map_get (sessions w1) (id session) = Some session.
Proof.
  intros Hc. apply CreateFacts.createSession_ok in Hc as (_ & _ & _ & ->).
  apply get_set_same.
Qed.

End StartFacts.

(** X22.  When the step of [get_quotes] returns, both handler files answer
    with the quotes and destroy the session: its context is asked to close,
    the id is no longer in the store while the other ids read as before,
    and any further step call on that id is refused as not found. *)
Theorem get_quotes_ends_the_session
        (O : Oracle) (F : Steps) (i : jsstring) (w : Server) (s : QuoteSession)
        (q : QuoteResult) (x : Ext) :
  Map_get (sessions w) i = Some s ->
  extractQuoteResults F (page s) (ext w) = (Ok q, x) ->
  exists w1,
    Server001.callTool O F (get_quotes i) w
    = (Ok {| content := StringifyResult q; isError := false |}, w1) /\
    Server000.callTool O F (get_quotes i) w
    = (Ok {| content := StringifyResult q; isError := false |}, w1) /\
    ext w1 = teardown O s x /\
    In (EvContextClose (context s)) (trace (ext w1)) /\
    Map_get (sessions w1) i = None /\
    (forall k, k <> i -> Map_get (sessions w1) k = Map_get (sessions w) k) /\
    (forall c, sessionOf c = i ->
       Server001.callTool O F c w1 = (Ok notFound, w1) /\
       Server000.callTool O F c w1 = (Ok notFound, w1)).
Proof.
  intros G Hq.
  set (s' := set_lastActivity (clock (ext w)) s).
  set (w0 := {| sessions := touched w i; ext := x |}).
  assert (Hg : Map_get (sessions w0) i = Some s')
    by (apply StoreFacts.get_alter_same; exact G).
  exists {| sessions := Map_delete (sessions w0) i; ext := teardown O s' (ext w0) |}.
  assert (Hrun : tryGetQuotes O F i w
                 = (Ok {| content := StringifyResult q; isError := false |},
                    {| sessions := Map_delete (sessions w0) i;
                       ext := teardown O s' (ext w0) |})).
  { unfold tryGetQuotes, bind at 1.
    rewrite SessionFacts.getSession_present with (s := s) by exact G.
    unfold bind at 1, lift. cbn [ext sessions page set_lastActivity]. rewrite Hq.
    fold (touched w i). fold w0. unfold bind.
    rewrite SessionFacts.destroySession_present with (s := s') by exact Hg.
    reflexivity. }
  cbn [Server001.callTool Server000.callTool]. unfold try_catch. rewrite Hrun.
  split; [reflexivity|]. split; [reflexivity|]. split; [reflexivity|].
  cbn [ext sessions]. split.
  - assert (H : In (EvContextClose (context s)) (trace (teardown O s x))).
    { destruct (CallFacts.teardown_closes O s x) as (evs & ->).
      apply in_or_app. right. now left. }
    exact H.
  - split; [apply StoreFacts.get_delete_same|]. split.
    + intros k Hk. rewrite StoreFacts.get_delete_other by exact Hk.
      unfold w0. cbn [sessions]. unfold touched.
      now rewrite StoreFacts.get_alter_other.
    + intros c <-. apply StartFacts.refused. cbn [sessions].
      apply StoreFacts.get_delete_same.
Qed.

(** X22 on a page that shows a quote card. *)
Lemma get_quotes_ends_the_session_witness :
  exists r w1,
    Server001.callTool quoted (realSteps quoted) (get_quotes (lit "s1")) oneSession
    = (Ok r, w1) /\
    isError r = false /\ Map_get (sessions w1) (lit "s1") = None.
Proof.
  destruct (QuoteFlow.extractQuoteResults quoted (fun _ => lit "Unknown") (fun _ => 0)
              (fun _ => lit "Unknown") (fun _ => 0) 3%nat fresh) as [[q | e | ] x] eqn:E;
    [| vm_compute in E; discriminate E | vm_compute in E; discriminate E].
  destruct (@get_quotes_ends_the_session quoted (realSteps quoted) (lit "s1") oneSession
              session1 q x) as (w1 & H1 & _ & _ & _ & H5 & _);
    [reflexivity | exact E |].
  eexists _, w1. split; [exact H1|]. split; [reflexivity | exact H5].
Defined.

(** X23.  When the car is named and found, [start_quote] answers in both
    handler files with the id of the session it created and the car, and
    leaves that session registered, in its first state; the registration
    is used whenever it is given with a state, whatever else is given. *)
Theorem start_quote_finds_car
        (O : Oracle) (F : Steps) (a : StartArgs) (w w1 : Server)
        (session : QuoteSession) (carDescription : jsstring) (x : Ext) :
  neither a = false ->
  createSession O w = (Ok session, w1) ->
  carFlow F a (page session) (ext w1) = (Ok carDescription, x) ->
  let w2 := {| sessions := sessions w1; ext := x |} in
  Server001.start_quote O F a w = (Ok (started session carDescription), w2) /\
  Server000.start_quote O F a w = (Ok (started session carDescription), w2) /\
  Map_get (sessions w2) (id session) = Some session /\
  state session = initialized /\
  (byRego a = true ->
   carFlow F a (page session)
   = findCarByRego F (page session) (the (rego a)) (the (state_ a))).
Proof.
  intros Hn Hc Hf w2.
  assert (Hrun : findCar O F a session w1 = (Ok (started session carDescription), w2)).
  { rewrite ToolFacts.findCar_named by exact Hn.
    unfold bind, lift. now rewrite Hf. }
  split; [unfold Server001.start_quote, try_from, try_catch; now rewrite Hc, Hrun|].
  split; [unfold Server000.start_quote, try_catch, bind; now rewrite Hc, Hrun|].
  split; [exact (@StartFacts.registered O w w1 session Hc)|].
  split; [apply (@CreateFacts.createSession_ok O w w1 session Hc)|].
  intros Hr. unfold carFlow. now rewrite Hr.
Qed.

(** X23 with both ways of naming the car given: the registration is
    used. *)
Lemma start_quote_finds_car_witness :
  exists w2,
    Server001.start_quote quiet (realSteps quiet) bothArgs empty
    = (Ok (started firstSession (lit "Car found")), w2) /\
    Map_get (sessions w2) (lit "7f1c") = Some firstSession.
Proof.
  destruct (@start_quote_finds_car quiet (realSteps quiet) bothArgs empty
              (snd (createSession quiet empty)) firstSession (lit "Car found")
              (snd (carFlow (realSteps quiet) bothArgs 3%nat
                            (ext (snd (createSession quiet empty))))))
    as (H1 & _ & H3 & _);
    [reflexivity | vm_compute; reflexivity | vm_compute; reflexivity |].
  eexists. split; [exact H1 | exact H3].
Defined.

(** X24.  When the car is named but the step that finds it throws, both
    handler files report an error.  The file whose [catch] destroys the
    session (part_001) asks the browser to close and leaves the id out of
    the store; the other (part_000) makes no further call and leaves the
    session registered. *)
Theorem start_quote_car_failure
        (O : Oracle) (F : Steps) (a : StartArgs) (w w1 : Server)
        (session : QuoteSession) (e : option jsstring) (x : Ext) :
  neither a = false ->
  createSession O w = (Ok session, w1) ->
  carFlow F a (page session) (ext w1) = (Throw e, x) ->
  id session <> [] ->
  (exists r w2,
     Server001.start_quote O F a w = (Ok r, w2) /\ isError r = true /\
     ext w2 = teardown O session x /\
     Map_get (sessions w2) (id session) = None) /\
  (exists r w2,
     Server000.start_quote O F a w = (Ok r, w2) /\ isError r = true /\
     ext w2 = x /\
     Map_get (sessions w2) (id session) = Some session).
Proof.
  intros Hn Hc Hf Hid.
  pose proof (@StartFacts.registered O w w1 session Hc) as Hg.
  assert (Hrun : findCar O F a session w1
                 = (Throw e, {| sessions := sessions w1; ext := x |})).
  { rewrite ToolFacts.findCar_named by exact Hn.
    unfold bind, lift. now rewrite Hf. }
  split.
  - unfold Server001.start_quote, try_from, try_catch. rewrite Hc, Hrun.
    unfold Server001.startFailed. cbn [option_map].
    assert (Ht : truthy (Some (id session)) = true)
      by (destruct (id session); [contradiction | reflexivity]).
    rewrite Ht. cbn [the]. unfold bind at 1, swallow, try_catch.
    rewrite SessionFacts.destroySession_present with (s := session) by exact Hg.
    eexists _, _. split; [reflexivity|]. split; [reflexivity|].
    split; [reflexivity|]. apply StoreFacts.get_delete_same.
  - unfold Server000.start_quote, try_catch, bind. rewrite Hc, Hrun.
    eexists _, _. split; [reflexivity|]. split; [reflexivity|].
    split; [reflexivity | exact Hg].
Qed.

(** X24 where the first call of the step is rejected. *)
Lemma start_quote_car_failure_witness :
  (exists r w2,
     Server001.start_quote sixthRejected (realSteps sixthRejected) bothArgs empty
     = (Ok r, w2) /\ isError r = true /\
     Map_get (sessions w2) (lit "7f1c") = None) /\
  (exists r w2,
     Server000.start_quote sixthRejected (realSteps sixthRejected) bothArgs empty
     = (Ok r, w2) /\ isError r = true /\
     Map_get (sessions w2) (lit "7f1c") = Some firstSession).
Proof.
  destruct (@start_quote_car_failure sixthRejected (realSteps sixthRejected) bothArgs
              empty (snd (createSession sixthRejected empty)) firstSession
              (Some (lit "net::ERR_TIMED_OUT"))
              (snd (carFlow (realSteps sixthRejected) bothArgs 3%nat
                            (ext (snd (createSession sixthRejected empty))))))
    as ((r1 & u1 & A1 & B1 & _ & D1) & (r0 & u0 & A0 & B0 & _ & D0));
    [reflexivity | vm_compute; reflexivity | vm_compute; reflexivity | discriminate |].
  split.
  - exists r1, u1. split; [exact A1|]. split; [exact B1 | exact D1].
  - exists r0, u0. split; [exact A0|]. split; [exact B0 | exact D0].
Defined.

Module TrimFacts.

Lemma trimStart_cut (s : jsstring) :
  exists ws, s = ws ++ trimStart s /\ all space ws.
Proof.
  induction s as [|c s (ws & E & H)]; [now exists []|].
  cbn [trimStart]. destruct (space c) eqn:C.
  - exists (c :: ws). split; [cbn [app]; now f_equal|].
    unfold all in *. cbn [forallb]. now rewrite C.
  - now exists [].
Qed.

Lemma trimStart_head (s r : jsstring) (c : char) :
  trimStart s = c :: r -> space c = false.
Proof.
  induction s as [|d s IH]; [discriminate|].
  cbn [trimStart]. destruct (space d) eqn:D; [exact IH|].
  intros H. injection H as <- _. exact D.
Qed.

Lemma trim_trimmed (s : jsstring) : trimmed (trim s).
Proof.
  unfold trim. set (t := trimStart s). split.
  - intros c r E.
    destruct (trimStart_cut (rev t)) as (ws & Hc & _).
    apply (f_equal (@rev char)) in Hc. rewrite rev_involutive, rev_app_distr, E in Hc.
    apply (@trimStart_head s (r ++ rev ws) c). exact Hc.
  - intros c r E. apply (f_equal (@rev char)) in E.
    rewrite rev_involutive, rev_app_distr in E.
    apply (@trimStart_head (rev t) (rev r) c). exact E.
Qed.

Lemma returns_bind (A B : Type) (P : B -> Prop) (m : Flow A) (k : A -> Flow B) :
  (forall a, Returns P (k a)) -> Returns P (bind m k).
Proof.
  intros Hk x b x' E. apply BudgetFacts.bind_ok_inv in E as (a & x1 & _ & E).
  exact (Hk a x1 b x' E).
Qed.

Lemma returns_ret (A : Type) (P : A -> Prop) (a : A) : P a -> Returns P (ret a).
Proof. intros H x b x' E. unfold ret in E. injection E as <- _. exact H. Qed.

End TrimFacts.

(** X25.  The car description a step returns is never empty.  From
    [findCarByRego] it is the trimmed capture of the pattern when that is
    not empty, and the words Car found otherwise, so it has no white space
    at either end; from [findCarManually] it is the four arguments with a
    space between them. *)
Theorem car_description_is_never_empty
        (O : Oracle) (carMatch : jsstring -> option jsstring) (page : handle) :
  (forall rego state,
     Returns (fun d => d <> [] /\ trimmed d /\
                       (d = lit "Car found" \/ exists text g, carMatch text = Some g /\ d = trim g))
             (QuoteFlow.findCarByRego O carMatch page rego state)) /\
  (forall year make model bodyType,
     Returns (fun d => d <> [] /\
                       d = year ++ lit " " ++ make ++ lit " " ++ model ++ lit " " ++ bodyType)
             (QuoteFlow.findCarManually O page year make model bodyType)).
Proof.
  split.
  - intros rego state. unfold QuoteFlow.findCarByRego.
    repeat lazymatch goal with
           | |- Returns _ (bind _ _) => apply TrimFacts.returns_bind; intros ?
           end.
    apply TrimFacts.returns_ret.
    match goal with
    | |- context [carMatch ?t] => destruct (carMatch t) as [g|] eqn:G
    end; cbn [option_map].
    + destruct (trim g) as [|c r] eqn:T; cbn [truthy the_text].
      * split; [discriminate|]. split; [|now left].
        split; intros c r E; [injection E as <- _; reflexivity|].
        assert (H : rev (lit "Car found") = rev (r ++ [c])) by now rewrite E.
        rewrite rev_app_distr in H. injection H as <- _. reflexivity.
      * split; [discriminate|]. rewrite <- T. split; [apply TrimFacts.trim_trimmed|].
        right. eauto.
    + cbn [truthy]. split; [discriminate|]. split; [|now left].
      split; intros c r E; [injection E as <- _; reflexivity|].
      assert (H : rev (lit "Car found") = rev (r ++ [c])) by now rewrite E.
      rewrite rev_app_distr in H. injection H as <- _. reflexivity.
  - intros year make model bodyType. unfold QuoteFlow.findCarManually.
    repeat lazymatch goal with
           | |- Returns _ (bind _ _) => apply TrimFacts.returns_bind; intros ?
           end.
    apply TrimFacts.returns_ret. split; [|reflexivity].
    intros H. apply app_eq_nil in H as [_ H]. discriminate H.
Qed.

(** X25 where the pattern captures a description with white space around
    it. *)
Lemma car_description_is_never_empty_witness :
  let run := QuoteFlow.findCarByRego quiet (fun _ => Some (lit "  2018 Toyota Corolla "))
                                     3%nat (lit "ABC123") (lit "VIC") fresh in
  fst run = Ok (lit "2018 Toyota Corolla") /\ trimmed (lit "2018 Toyota Corolla").
Proof.
  intros run. split; [vm_compute; reflexivity|].
  apply (proj1 (@car_description_is_never_empty quiet
                  (fun _ => Some (lit "  2018 Toyota Corolla ")) 3%nat)
               (lit "ABC123") (lit "VIC") fresh (lit "2018 Toyota Corolla") (snd run)).
  vm_compute. reflexivity.
Defined.

Module EnvFacts.
Import Env.

Lemma split_cons (sep : char) (s : jsstring) : exists w ws, split sep s = w :: ws.
Proof.
  destruct s as [|c s]; cbn [split]; [eauto|].
  destruct (N.eqb c sep); [eauto|]. destruct (split sep s); eauto.
Qed.

Lemma join_cons (sep : char) (w : jsstring) (l : list jsstring) :
  l <> [] -> join sep (w :: l) = w ++ sep :: join sep l.
Proof. destruct l; [contradiction | reflexivity]. Qed.

Lemma join_push (sep c : char) (w : jsstring) (ws : list jsstring) :
  join sep ((c :: w) :: ws) = c :: join sep (w :: ws).
Proof. destruct ws; reflexivity. Qed.

Lemma join_split (sep : char) (s : jsstring) : join sep (split sep s) = s.
Proof.
  induction s as [|c s IH]; [reflexivity|]. cbn [split].
  destruct (split_cons sep s) as (w & ws & E). rewrite E in *.
  destruct (N.eqb c sep) eqn:C.
  - apply N.eqb_eq in C. subst c. rewrite join_cons by discriminate. now rewrite IH.
  - now rewrite join_push, IH.
Qed.

Lemma split_head (sep : char) (s key : jsstring) (rest : list jsstring) :
  split sep s = key :: rest -> ~ In sep key.
Proof.
  revert key rest. induction s as [|c s IH]; intros key rest; cbn [split].
  - intros H. injection H as <- _. intros [].
  - destruct (N.eqb c sep) eqn:C.
    + intros H. injection H as <- _. intros [].
    + destruct (split_cons sep s) as (w & ws & E). rewrite E.
      intros H. injection H as <- _. intros [H | H].
      * subst c. now rewrite N.eqb_refl in C.
      * exact (IH w ws E H).
Qed.

Lemma split_app (sep : char) (key value : jsstring) :
  ~ In sep key -> split sep (key ++ sep :: value) = key :: split sep value.
Proof.
  induction key as [|c key IH]; intros H; cbn [app split].
  - now rewrite N.eqb_refl.
  - replace (N.eqb c sep) with false
      by (symmetry; apply N.eqb_neq; intros ->; apply H; now left).
    rewrite IH by (intros Hin; apply H; now right). reflexivity.
Qed.

Lemma truthy_some (s : jsstring) : truthy (Some s) = true <-> s <> [].
Proof. destruct s; cbn; split; congruence. Qed.

End EnvFacts.

(** X26.  A line of the .env file is cut at its first equals sign.
    Splitting and joining give the line back; a variable is set exactly
    when the text before the first equals sign and the text after it are
    both non-empty, further equals signs staying in the value; the key and
    the value set are those two texts trimmed, so neither has white space
    at an end. *)
Theorem env_line_cut_at_first_equals (line : jsstring) :
  Env.join Env.EQUALS (Env.split Env.EQUALS line) = line /\
  (forall k v,
     Env.parseLine line = Some (k, v) <->
     exists key value,
       line = key ++ Env.EQUALS :: value /\
       ~ In Env.EQUALS key /\ key <> [] /\ value <> [] /\
       k = trim key /\ v = trim value) /\
  (forall k v, Env.parseLine line = Some (k, v) -> trimmed k /\ trimmed v).
Proof.
  split; [apply EnvFacts.join_split|].
  assert (Hfwd : forall k v,
             Env.parseLine line = Some (k, v) ->
             exists key value,
               line = key ++ Env.EQUALS :: value /\
               ~ In Env.EQUALS key /\ key <> [] /\ value <> [] /\
               k = trim key /\ v = trim value).
  { intros k v. unfold Env.parseLine.
    destruct (Env.split Env.EQUALS line) as [|key rest] eqn:E; [discriminate|].
    destruct (truthy (Some key)) eqn:Tk; [|discriminate].
    destruct (truthy (Some (Env.join Env.EQUALS rest))) eqn:Tv; [|discriminate].
    cbn [andb]. intros H. injection H as <- <-.
    apply EnvFacts.truthy_some in Tk, Tv.
    exists key, (Env.join Env.EQUALS rest).
    split.
    - rewrite <- (EnvFacts.join_split Env.EQUALS line), E.
      apply EnvFacts.join_cons. intros ->. now apply Tv.
    - split; [exact (EnvFacts.split_head _ _ E)|]. repeat split; assumption. }
  split.
  - intros k v. split; [apply Hfwd|].
    intros (key & value & -> & Hk & Hkey & Hvalue & -> & ->).
    unfold Env.parseLine. rewrite EnvFacts.split_app by exact Hk.
    rewrite EnvFacts.join_split.
    apply EnvFacts.truthy_some in Hkey, Hvalue. now rewrite Hkey, Hvalue.
  - intros k v H. destruct (Hfwd k v H) as (key & value & _ & _ & _ & _ & -> & ->).
    split; apply TrimFacts.trim_trimmed.
Qed.

(** X26 on a line with spaces around the equals sign, a second equals
    sign in the value and a carriage return at the end. *)
Lemma env_line_cut_at_first_equals_witness :
  Env.parseLine (lit "MCP_URL = http://localhost:3000/mcp?x=1" ++ [13%N])
  = Some (lit "MCP_URL", lit "http://localhost:3000/mcp?x=1") /\
  trimmed (lit "MCP_URL").
Proof.
  assert (E : Env.parseLine (lit "MCP_URL = http://localhost:3000/mcp?x=1" ++ [13%N])
              = Some (lit "MCP_URL", lit "http://localhost:3000/mcp?x=1"))
    by (vm_compute; reflexivity).
  split; [exact E|].
  exact (proj1 (proj2 (proj2 (env_line_cut_at_first_equals _)) _ _ E)).
Defined.
